(** * Packrat: a shallow embedding of the backup/restore engine

    The development follows the Go sources package by package.  Go strings
    are byte sequences and are embedded as [string] (a list of 8-bit
    characters); byte slices are [list byte]; an [error] is the text its
    [Error()] method prints.  The standard-library and third-party functions
    the program calls (AES-GCM, SHA-256, [fmt], [path/filepath], [time],
    doublestar) are embedded next to the package that uses them, since the
    properties of the program depend on what they compute. *)

From Stdlib Require Import NArith ZArith List Strings.Byte Strings.Ascii Strings.String Lia.
From stdpp Require Import base option list strings gmap pretty sorting.
Import ListNotations.

(** ** Values shared by all packages *)

#[global] Instance byte_eq_dec : EqDecision byte := Byte.byte_eq_dec.

Definition error := string.

(** What a call can do: return a value, return an error, or panic. *)
Inductive outcome (A : Type) : Type :=
| Ok (a : A)
| Err (e : error)
| Panic (msg : string).
Arguments Ok {A} a.
Arguments Err {A} e.
Arguments Panic {A} msg.

#[global] Instance outcome_ret : MRet outcome := fun A a => Ok a.
#[global] Instance outcome_bind : MBind outcome := fun A B k m =>
  match m with Ok a => k a | Err e => Err e | Panic msg => Panic msg end.

(** [fmt.Errorf(prefix + ": %w", err)]. *)
Definition wrap (prefix : string) (err : error) : error := prefix +:+ ": " +:+ err.

Definition byte_of_N (n : N) : byte :=
  match Byte.of_N (n mod 256) with Some b => b | None => x00 end.
Definition bytes_to_Ns (l : list byte) : list N := map Byte.to_N l.
Definition Ns_to_bytes (l : list N) : list byte := map byte_of_N l.

(** Big-endian conversion between byte strings and numbers. *)
Definition be_to_N (l : list N) : N := fold_left (fun acc b => (acc * 256 + b)%N) l 0%N.
Definition N_to_be (n : nat) (x : N) : list N :=
  map (fun i => (N.shiftr x (8 * N.of_nat (n - 1 - i)) mod 256)%N) (seq 0 n).
Definition byte_xor (b : byte) (k : N) : byte := byte_of_N (N.lxor (Byte.to_N b) k).

Fixpoint chunks {A} (n : nat) (fuel : nat) (l : list A) : list (list A) :=
  match fuel with
  | O => []
  | S f => match l with [] => [] | _ => firstn n l :: chunks n f (skipn n l) end
  end.

(** Hexadecimal literals for test vectors. *)
Definition hexN (s : string) : list N :=
  let fix go (l : list N) :=
    match l with a :: b :: r => (16 * a + b)%N :: go r | _ => [] end in
  go (map (fun c => let n := N_of_ascii c in if (n <? 58)%N then (n - 48)%N else (n - 87)%N)
          (list_ascii_of_string s)).
Definition hexB (s : string) : list byte := Ns_to_bytes (hexN s).

(** ** crypto/aes: the block cipher of FIPS-197 *)

Module aes.
Local Open Scope N_scope.

Definition BlockSize : nat := 16.

(** Arithmetic of GF(2^8) modulo x^8 + x^4 + x^3 + x + 1. *)
Definition xtime (a : N) : N :=
  let s := N.shiftl a 1 in
  if N.testbit a 7 then N.lxor (N.land s 255) 27 else s.
Fixpoint gmul_aux (n : nat) (a b : N) : N :=
  match n with
  | O => 0
  | S n' => N.lxor (if N.odd b then a else 0) (gmul_aux n' (xtime a) (N.shiftr b 1))
  end.
Definition gmul (a b : N) : N := gmul_aux 8 a b.
Fixpoint gpow (n : nat) (a : N) : N :=
  match n with O => 1 | S n' => gmul a (gpow n' a) end.
Definition ginv (a : N) : N := gpow 254 a.
Definition rotl8 (x : N) (k : N) : N :=
  N.land (N.lor (N.shiftl x k) (N.shiftr x (8 - k))) 255.
Definition sbox_calc (a : N) : N :=
  let b := ginv a in
  N.lxor (N.lxor (N.lxor (N.lxor (N.lxor b (rotl8 b 1)) (rotl8 b 2)) (rotl8 b 3)) (rotl8 b 4)) 99.
Definition sbox_table : list N :=
  Eval vm_compute in map (fun i => sbox_calc (N.of_nat i)) (seq 0 256).
Definition sbox (a : N) : N := nth (N.to_nat a) sbox_table 0.

Definition word := list N.
Definition xor_bytes (a b : list N) : list N := zip_with N.lxor a b.
Definition SubWord (w : word) : word := map sbox w.
Definition RotWord (w : word) : word :=
  match w with a :: r => r ++ [a] | [] => [] end.
Definition Rcon (i : nat) : word := [gpow (i - 1) 2; 0; 0; 0].

(** KeyExpansion: [ws] holds the words w[0] .. w[i-1]. *)
Fixpoint expand (Nk : nat) (fuel : nat) (i : nat) (ws : list word) : list word :=
  match fuel with
  | O => ws
  | S f =>
    let temp := nth (i - 1) ws [] in
    let temp :=
      if Nat.eqb (i mod Nk) 0 then xor_bytes (SubWord (RotWord temp)) (Rcon (i / Nk))
      else if andb (Nat.ltb 6 Nk) (Nat.eqb (i mod Nk) 4) then SubWord temp
      else temp in
    expand Nk f (S i) (ws ++ [xor_bytes (nth (i - Nk) ws []) temp])
  end.
Definition KeyExpansion (key : list N) : list word :=
  let Nk := (length key / 4)%nat in
  let Nr := (Nk + 6)%nat in
  expand Nk (4 * (Nr + 1) - Nk) Nk (chunks 4 Nk key).

(** The state is kept column by column, as the input block is. *)
Definition SubBytes (s : list N) : list N := map sbox s.
Definition ShiftRows (s : list N) : list N :=
  map (fun i => let r := (i mod 4)%nat in let c := (i / 4)%nat in
                nth (r + 4 * ((c + r) mod 4))%nat s 0) (seq 0 16).
Definition mix_column (col : list N) : list N :=
  match col with
  | [a0; a1; a2; a3] =>
    [ N.lxor (N.lxor (gmul 2 a0) (gmul 3 a1)) (N.lxor a2 a3);
      N.lxor (N.lxor a0 (gmul 2 a1)) (N.lxor (gmul 3 a2) a3);
      N.lxor (N.lxor a0 a1) (N.lxor (gmul 2 a2) (gmul 3 a3));
      N.lxor (N.lxor (gmul 3 a0) a1) (N.lxor a2 (gmul 2 a3)) ]
  | _ => col
  end.
Definition MixColumns (s : list N) : list N := concat (map mix_column (chunks 4 4 s)).
Definition AddRoundKey (s : list N) (rk : list word) : list N := xor_bytes s (concat rk).

Fixpoint rounds (n : nat) (s : list N) (rks : list (list word)) : list N :=
  match n, rks with
  | S n', rk :: rks' =>
    match rks' with
    | [] => AddRoundKey (ShiftRows (SubBytes s)) rk
    | _ => rounds n' (AddRoundKey (MixColumns (ShiftRows (SubBytes s))) rk) rks'
    end
  | _, _ => s
  end.
Definition Cipher (key : list N) (block : list N) : list N :=
  let w := KeyExpansion key in
  match chunks 4 (length w) w with
  | rk0 :: rks => rounds (length rks) (AddRoundKey block rk0) rks
  | [] => block
  end.

(** [aes.NewCipher]: the key must be 16, 24 or 32 bytes long. *)
Record Block := { block_key : list byte }.
Definition KeySizeError (k : nat) : error := "crypto/aes: invalid key size " +:+ pretty k.
Definition NewCipher (key : list byte) : outcome Block :=
  let k := length key in
  if orb (Nat.eqb k 16) (orb (Nat.eqb k 24) (Nat.eqb k 32))
  then Ok {| block_key := key |}
  else Err (KeySizeError k).

(** [Block.Encrypt] on a block read as a 128-bit number, first byte most
    significant. *)
Definition Encrypt (b : Block) (x : N) : N :=
  be_to_N (Cipher (bytes_to_Ns (block_key b)) (N_to_be 16 x)).
End aes.

(** ** crypto/cipher: Galois/Counter Mode (NIST SP 800-38D) *)

Module cipher.
Local Open Scope N_scope.

Definition gcmBlockSize : nat := 16.
Definition gcmTagSize : nat := 16.
Definition gcmStandardNonceSize : nat := 12.
(** [((1 << 32) - 2) * BlockSize], the longest plaintext [Seal] accepts. *)
Definition maxPlaintext : N := (2 ^ 32 - 2) * 16.

Record gcm := { cipher_block : aes.Block }.
(** [cipher.NewGCM] fails only for a cipher whose block is not 128 bits. *)
Definition NewGCM (b : aes.Block) : outcome gcm := Ok {| cipher_block := b |}.
Definition NonceSize (g : gcm) : nat := gcmStandardNonceSize.

(** Multiplication in GF(2^128); bit 0 of a block is its most significant bit. *)
Definition R : N := N.shiftl 225 120.
Fixpoint mul_aux (n : nat) (X V Z : N) : N :=
  match n with
  | O => Z
  | S n' =>
    let Z' := if N.testbit X (N.of_nat n') then N.lxor Z V else Z in
    let V' := if N.testbit V 0 then N.lxor (N.shiftr V 1) R else N.shiftr V 1 in
    mul_aux n' X V' Z'
  end.
Definition mul (X Y : N) : N := mul_aux 128 X Y 0.

(** The 16-byte blocks of [l], the last one padded with zeros. *)
Fixpoint blocks (fuel : nat) (l : list N) : list N :=
  match fuel with
  | O => []
  | S f =>
    match l with
    | [] => []
    | _ => be_to_N (firstn 16 (firstn 16 l ++ repeat 0 16)) :: blocks f (skipn 16 l)
    end
  end.
(** GHASH update of the running value [y] with [data]. *)
Definition update (H : N) (y : N) (data : list N) : N :=
  fold_left (fun y x => mul (N.lxor y x) H) (blocks (length data) data) y.
Definition gcmInc32 (cb : N) : N :=
  (cb / 2 ^ 32) * 2 ^ 32 + (cb mod 2 ^ 32 + 1) mod 2 ^ 32.
(** For a 96-bit nonce the initial counter block is nonce || 0^31 1. *)
Definition deriveCounter (nonce : list byte) : N :=
  be_to_N (bytes_to_Ns nonce ++ [0; 0; 0; 1]).
Fixpoint keystream (g : gcm) (n : nat) (counter : N) : list N :=
  match n with
  | O => []
  | S n' => N_to_be 16 (aes.Encrypt (cipher_block g) counter) ++ keystream g n' (gcmInc32 counter)
  end.
Definition counterCrypt (g : gcm) (src : list byte) (counter : N) : list byte :=
  zip_with byte_xor src (keystream g (length src / 16 + 1) counter).
Definition auth (g : gcm) (ciphertext additionalData : list byte) (tagMask : N) : list byte :=
  let H := aes.Encrypt (cipher_block g) 0 in
  let y := update H 0 (bytes_to_Ns additionalData) in
  let y := update H y (bytes_to_Ns ciphertext) in
  let lens := N.of_nat (length additionalData) * 8 * 2 ^ 64 + N.of_nat (length ciphertext) * 8 in
  let y := mul (N.lxor y lens) H in
  Ns_to_bytes (N_to_be 16 (N.lxor y tagMask)).

(** [gcm.Seal(dst, nonce, plaintext, data)] appends ciphertext and tag to [dst]. *)
Definition Seal (g : gcm) (dst nonce plaintext data : list byte) : outcome (list byte) :=
  if negb (Nat.eqb (length nonce) gcmStandardNonceSize) then
    Panic "crypto/cipher: incorrect nonce length given to GCM"
  else if maxPlaintext <? N.of_nat (length plaintext) then
    Panic "crypto/cipher: message too large for GCM"
  else
    let counter := deriveCounter nonce in
    let tagMask := aes.Encrypt (cipher_block g) counter in
    let out := counterCrypt g plaintext (gcmInc32 counter) in
    Ok (dst ++ out ++ auth g out data tagMask).

Definition errOpen : error := "cipher: message authentication failed".

(** [gcm.Open(dst, nonce, ciphertext, data)]: the tag is the last 16 bytes. *)
Definition Open (g : gcm) (dst nonce ciphertext data : list byte) : outcome (list byte) :=
  if negb (Nat.eqb (length nonce) gcmStandardNonceSize) then
    Panic "crypto/cipher: incorrect nonce length given to GCM"
  else if Nat.ltb (length ciphertext) gcmTagSize then Err errOpen
  else if maxPlaintext + N.of_nat gcmTagSize <? N.of_nat (length ciphertext) then Err errOpen
  else
    let tag := skipn (length ciphertext - gcmTagSize) ciphertext in
    let ciphertext := firstn (length ciphertext - gcmTagSize) ciphertext in
    let counter := deriveCounter nonce in
    let tagMask := aes.Encrypt (cipher_block g) counter in
    let expectedTag := auth g ciphertext data tagMask in
    if negb (bool_decide (expectedTag = tag)) then Err errOpen
    else Ok (dst ++ counterCrypt g ciphertext (gcmInc32 counter)).
End cipher.

(** ** crypto/sha256 (FIPS 180-4) *)

Module sha256.
Local Open Scope N_scope.

Definition Size : nat := 32.
Definition w32 (x : N) : N := x mod 2 ^ 32.
Definition add32 (x y : N) : N := w32 (x + y).
Definition rotr (k x : N) : N := N.lor (N.shiftr x k) (w32 (N.shiftl x (32 - k))).
Definition Ch (x y z : N) : N := N.lxor (N.land x y) (N.land (N.lxor x 4294967295) z).
Definition Maj (x y z : N) : N := N.lxor (N.lxor (N.land x y) (N.land x z)) (N.land y z).
Definition Sigma0 x := N.lxor (N.lxor (rotr 2 x) (rotr 13 x)) (rotr 22 x).
Definition Sigma1 x := N.lxor (N.lxor (rotr 6 x) (rotr 11 x)) (rotr 25 x).
Definition sigma0 x := N.lxor (N.lxor (rotr 7 x) (rotr 18 x)) (N.shiftr x 3).
Definition sigma1 x := N.lxor (N.lxor (rotr 17 x) (rotr 19 x)) (N.shiftr x 10).
(** The round constants, eight 32-bit words to the line. *)
Definition K : list N :=
  Eval vm_compute in
  map be_to_N (chunks 4 64 (hexN (
    "428a2f9871374491b5c0fbcfe9b5dba53956c25b59f111f1923f82a4ab1c5ed5" +:+
    "d807aa9812835b01243185be550c7dc372be5d7480deb1fe9bdc06a7c19bf174" +:+
    "e49b69c1efbe47860fc19dc6240ca1cc2de92c6f4a7484aa5cb0a9dc76f988da" +:+
    "983e5152a831c66db00327c8bf597fc7c6e00bf3d5a7914706ca635114292967" +:+
    "27b70a852e1b21384d2c6dfc53380d13650a7354766a0abb81c2c92e92722c85" +:+
    "a2bfe8a1a81a664bc24b8b70c76c51a3d192e819d6990624f40e3585106aa070" +:+
    "19a4c1161e376c082748774c34b0bcb5391c0cb34ed8aa4a5b9cca4f682e6ff3" +:+
    "748f82ee78a5636f84c878148cc7020890befffaa4506cebbef9a3f7c67178f2"))).
Record digest := mk { a : N; b : N; c : N; d : N; e : N; f : N; g : N; h : N }.
Definition init : digest :=
  mk 0x6a09e667 0xbb67ae85 0x3c6ef372 0xa54ff53a 0x510e527f 0x9b05688c 0x1f83d9ab 0x5be0cd19.
(** Message schedule: [ws] holds W[t-1] .. W[0], newest first. *)
Fixpoint schedule (n : nat) (ws : list N) : list N :=
  match n with
  | O => ws
  | S n' =>
    let w := add32 (add32 (sigma1 (nth 1 ws 0)) (nth 6 ws 0))
                   (add32 (sigma0 (nth 14 ws 0)) (nth 15 ws 0)) in
    schedule n' (w :: ws)
  end.
Definition round (s : digest) (kw : N * N) : digest :=
  let t1 := add32 (add32 (add32 (h s) (Sigma1 (e s))) (add32 (Ch (e s) (f s) (g s)) (fst kw))) (snd kw) in
  let t2 := add32 (Sigma0 (a s)) (Maj (a s) (b s) (c s)) in
  mk (add32 t1 t2) (a s) (b s) (c s) (add32 (d s) t1) (e s) (f s) (g s).
Definition block (s : digest) (blk : list N) : digest :=
  let w0 := map be_to_N (chunks 4 16 blk) in
  let w := rev (schedule 48 (rev w0)) in
  let s' := fold_left round (zip K w) s in
  mk (add32 (a s) (a s')) (add32 (b s) (b s')) (add32 (c s) (c s')) (add32 (d s) (d s'))
     (add32 (e s) (e s')) (add32 (f s) (f s')) (add32 (g s) (g s')) (add32 (h s) (h s')).
Definition pad (msg : list N) : list N :=
  let len := length msg in
  let k := ((119 - len mod 64) mod 64)%nat in
  msg ++ [128] ++ repeat 0 k ++ N_to_be 8 (8 * N.of_nat len).
(** [hasher.Write(data); hasher.Sum(nil)] on a fresh hasher. *)
Definition Sum256 (data : list byte) : list byte :=
  let m := pad (bytes_to_Ns data) in
  let s := fold_left block (chunks 64 (length m) m) init in
  Ns_to_bytes (concat (map (N_to_be 4) [a s; b s; c s; d s; e s; f s; g s; h s])).
End sha256.

(** ** unicode/utf8 *)

Module utf8.
Local Open Scope N_scope.
Definition rune := N.
Definition RuneError : rune := 0xFFFD.
Definition RuneSelf : N := 0x80.

Definition continuation (lo hi : N) (s : string) : option (N * string) :=
  match s with
  | String c r => let b := N_of_ascii c in
                  if (lo <=? b) && (b <=? hi) then Some (b mod 64, r) else None
  | EmptyString => None
  end.

(** [utf8.DecodeRuneInString]: the first rune of [s] and its width in bytes;
    ill-formed input decodes to [RuneError] of width 1, the empty string to
    [RuneError] of width 0. *)
Definition DecodeRuneInString (s : string) : rune * nat :=
  match s with
  | EmptyString => (RuneError, 0%nat)
  | String c0 r0 =>
    let s0 := N_of_ascii c0 in
    if s0 <? RuneSelf then (s0, 1%nat)
    else if (0xC2 <=? s0) && (s0 <=? 0xDF) then
      match continuation 0x80 0xBF r0 with
      | Some (b1, _) => ((s0 mod 32) * 64 + b1, 2%nat)
      | None => (RuneError, 1%nat)
      end
    else if (0xE0 <=? s0) && (s0 <=? 0xEF) then
      let lo := if s0 =? 0xE0 then 0xA0 else 0x80 in
      let hi := if s0 =? 0xED then 0x9F else 0xBF in
      match continuation lo hi r0 with
      | Some (b1, r1) =>
        match continuation 0x80 0xBF r1 with
        | Some (b2, _) => (((s0 mod 16) * 64 + b1) * 64 + b2, 3%nat)
        | None => (RuneError, 1%nat)
        end
      | None => (RuneError, 1%nat)
      end
    else if (0xF0 <=? s0) && (s0 <=? 0xF4) then
      let lo := if s0 =? 0xF0 then 0x90 else 0x80 in
      let hi := if s0 =? 0xF4 then 0x8F else 0xBF in
      match continuation lo hi r0 with
      | Some (b1, r1) =>
        match continuation 0x80 0xBF r1 with
        | Some (b2, r2) =>
          match continuation 0x80 0xBF r2 with
          | Some (b3, _) => ((((s0 mod 8) * 64 + b1) * 64 + b2) * 64 + b3, 4%nat)
          | None => (RuneError, 1%nat)
          end
        | None => (RuneError, 1%nat)
        end
      | None => (RuneError, 1%nat)
      end
    else (RuneError, 1%nat)
  end.
End utf8.

(** ** fmt: the [%x] verb on byte slices, printed and scanned *)

Module fmt.
Local Open Scope N_scope.

Definition ldigits : string := "0123456789abcdef".
Definition digit (n : N) : ascii :=
  match String.get (N.to_nat n) ldigits with Some c => c | None => "0"%char end.
(** [fmtSbx]: two lower-case digits per byte, no separator. *)
Fixpoint fmtSbx (b : list byte) : string :=
  match b with
  | [] => EmptyString
  | x :: r => let n := Byte.to_N x in String (digit (n / 16)) (String (digit (n mod 16)) (fmtSbx r))
  end.
Definition nl : string := String "010"%char EmptyString.
(** [fmt.Sprintf("%x\n%x", a, b)] for byte slices [a] and [b]. *)
Definition Sprintf_x_nl_x (a b : list byte) : string := fmtSbx a +:+ nl +:+ fmtSbx b.

(** *** Scanning (fmt/scan.go) *)

(** [hugeWid]: a scan reads at most this many runes ([ss.limit], and
    [ss.argLimit] for a verb without a width). *)
Definition hugeWid : N := 2 ^ 30.

(** The scan state [ss]: the unread input and the number of runes read. *)
Record ss := { rs : string; count : N }.

Definition isSpace (r : utf8.rune) : bool :=
  ((0x09 <=? r) && (r <=? 0x0d)) || (r =? 0x20) || (r =? 0x85) || (r =? 0xA0)
  || (r =? 0x1680) || ((0x2000 <=? r) && (r <=? 0x200a)) || ((0x2028 <=? r) && (r <=? 0x2029))
  || (r =? 0x202f) || (r =? 0x205f) || (r =? 0x3000).

(** [s[n:]], the whole of [s] gone when it is shorter. *)
Fixpoint string_skipn (n : nat) (s : string) : string :=
  match n, s with
  | S n', String _ r => string_skipn n' r
  | _, _ => s
  end.

(** [getRune]: [None] is [eof], reported at the end of the input and once
    [count >= argLimit].  Not consuming the returned state is [UnreadRune]. *)
Definition getRune (s : ss) : option (utf8.rune * ss) :=
  if hugeWid <=? count s then None
  else match utf8.DecodeRuneInString (rs s) with
       | (_, O) => None
       | (r, size) => Some (r, {| rs := string_skipn size (rs s); count := count s + 1 |})
       end.

Definition newline : utf8.rune := 10.

(** [SkipSpace] with [nlIsSpace = false]: a newline is an error.  (A
    carriage return is a space whether or not a newline follows it.) *)
Fixpoint SkipSpace_loop (fuel : nat) (s : ss) : outcome ss :=
  match fuel with
  | O => Ok s
  | S f =>
    match getRune s with
    | None => Ok s
    | Some (r, s') =>
      if r =? newline then Err "unexpected newline"
      else if negb (isSpace r) then Ok s
      else SkipSpace_loop f s'
    end
  end.
Definition SkipSpace (s : ss) : outcome ss := SkipSpace_loop (S (String.length (rs s))) s.

(** [io.EOF] and [io.ErrUnexpectedEOF]. *)
Definition EOF : error := "EOF".
Definition ErrUnexpectedEOF : error := "unexpected EOF".
(** [notEOF] panics with [io.EOF] when no rune is left; [errorHandler]
    returns that error as the error of the scan. *)
Definition notEOF (s : ss) : outcome ss :=
  match getRune s with None => Err EOF | Some _ => Ok s end.

Definition hexDigit (d : utf8.rune) : option N :=
  if (48 <=? d) && (d <=? 57) then Some (d - 48)
  else if (97 <=? d) && (d <=? 102) then Some (10 + d - 97)
  else if (65 <=? d) && (d <=? 70) then Some (10 + d - 65)
  else None.

(** [hexByte]: no byte when the next rune is not a hex digit (it is left
    unread) or the input is at [eof]; the second digit is read with
    [mustReadRune], for which [eof] is [io.ErrUnexpectedEOF]. *)
Definition hexByte (s : ss) : outcome (option byte * ss) :=
  match getRune s with
  | None => Ok (None, s)
  | Some (rune1, s1) =>
    match hexDigit rune1 with
    | None => Ok (None, s)
    | Some value1 =>
      match getRune s1 with
      | None => Err ErrUnexpectedEOF
      | Some (rune2, s2) =>
        match hexDigit rune2 with
        | None => Err "illegal hex digit"
        | Some value2 => Ok (Some (byte_of_N (value1 * 16 + value2)), s2)
        end
      end
    end
  end.
Fixpoint hexString_loop (fuel : nat) (s : ss) (buf : list byte) : outcome (list byte * ss) :=
  match fuel with
  | O => Ok (buf, s)
  | S f =>
    '(b, s') ← hexByte s;
    match b with
    | None => Ok (buf, s')
    | Some b => hexString_loop f s' (buf ++ [b])
    end
  end.
Definition hexString (s : ss) : outcome (list byte * ss) :=
  s ← notEOF s;
  '(buf, s) ← hexString_loop (S (String.length (rs s))) s [];
  match buf with
  | [] => Err "no hex data for %x string"
  | _ => Ok (buf, s)
  end.
(** [scanOne] for the verb [x] and a [*[]byte] operand: [convertString]
    skips space, requires input, and reads the hex string. *)
Definition scanOne_x (s : ss) : outcome (list byte * ss) :=
  s ← SkipSpace s;
  s ← notEOF s;
  hexString s.

(** [advance] over a newline in the format: the input may hold spaces, then
    a newline or the end of input. *)
Fixpoint advance_nl_loop (fuel : nat) (s : ss) : outcome ss :=
  match fuel with
  | O => Ok s
  | S f =>
    match getRune s with
    | None => Ok s
    | Some (inputc, s') =>
      if inputc =? newline then Ok s'
      else if isSpace inputc then advance_nl_loop f s'
      else Err "newline in format does not match input"
    end
  end.
Definition advance_nl (s : ss) : outcome ss := advance_nl_loop (S (String.length (rs s))) s.

(** [fmt.Sscanf(str, "%x\n%x", &a, &b)] for [a, b *[]byte]: [doScanf] skips
    leading space before each verb, scans the operand, and matches the
    newline of the format in between. *)
Definition Sscanf_x_nl_x (str : string) : outcome (list byte * list byte) :=
  let s := {| rs := str; count := 0 |} in
  s ← SkipSpace s;
  '(a, s) ← scanOne_x s;
  s ← advance_nl s;
  s ← SkipSpace s;
  '(b, _) ← scanOne_x s;
  Ok (a, b).
End fmt.

(** ** path/filepath (Unix: the separator is the slash, there is no volume) *)

Module filepath.
Definition Separator : ascii := "/"%char.

(** [strings.Split(s, "/")]: the elements of a path, at least one. *)
Fixpoint split (s : string) : list string :=
  match s with
  | EmptyString => [EmptyString]
  | String c r =>
    if Ascii.eqb c Separator then EmptyString :: split r
    else match split r with
         | e :: es => String c e :: es
         | [] => [String c EmptyString]
         end
  end.
Fixpoint join (l : list string) : string :=
  match l with
  | [] => EmptyString
  | [e] => e
  | e :: r => e +:+ String Separator (join r)
  end.

Definition rooted (path : string) : bool :=
  match path with String c _ => Ascii.eqb c Separator | EmptyString => false end.

(** One path element processed by [Clean]; [out] is the output so far, last
    element first.  Empty elements and [.] are dropped; [..] removes the
    last element, or is kept at the front of an unrooted path. *)
Definition clean_step (rooted : bool) (out : list string) (e : string) : list string :=
  if String.eqb e "" || String.eqb e "." then out
  else if String.eqb e ".." then
    match out with
    | top :: rest => if String.eqb top ".." then ".." :: out else rest
    | [] => if rooted then [] else [".."]
    end
  else e :: out.

(** [filepath.Clean]: the shortest path name equivalent to [path] by purely
    lexical processing, element by element. *)
Definition Clean (path : string) : string :=
  if String.eqb path "" then "."
  else
    let out := rev (fold_left (clean_step (rooted path)) (split path) []) in
    if rooted path then String Separator (join out)
    else match out with [] => "." | _ => join out end.

(** [path[:i+1]] for the last separator [i], the empty string if there is none. *)
Definition upto_last_separator (path : string) : string :=
  match removelast (split path) with
  | [] => EmptyString
  | es => join es +:+ String Separator EmptyString
  end.

(** [filepath.Dir]: all but the last element of [path], cleaned. *)
Definition Dir (path : string) : string := Clean (upto_last_separator path).

(** [filepath.Join]: the elements from the first one that is not empty,
    joined by the separator and cleaned. *)
Fixpoint Join (elem : list string) : string :=
  match elem with
  | [] => EmptyString
  | e :: rest => if String.eqb e "" then Join rest else Clean (join elem)
  end.

(** [filepath.ToSlash] replaces the separator by a slash: the identity here. *)
Definition ToSlash (path : string) : string := path.
End filepath.


(** ** os and io: the calls the key manager makes *)

Module os.
(** The file system as the program sees it.  Reading a file that was just
    written in full returns what was written. *)
Class FileSystem (fs : Type) := {
  MkdirAll : string -> N -> fs -> option error * fs;
  WriteFile : string -> list byte -> N -> fs -> option error * fs;
  ReadFile : string -> fs -> outcome (list byte);
  ReadFile_WriteFile : forall name data perm s s',
    WriteFile name data perm s = (None, s') -> ReadFile name s' = Ok data
}.

(** A file system in memory on which no call fails: the latest write to a
    name is found first. *)
Definition memfs := list (string * list byte).
Definition mem_read (name : string) (s : memfs) : outcome (list byte) :=
  match find (fun e => String.eqb (fst e) name) s with
  | Some e => Ok (snd e)
  | None => Err ("open " +:+ name +:+ ": no such file or directory")
  end.
End os.

Module io.
(** [io.ReadFull(r, buf)] for a reader that delivers the bytes [r] and then
    reports [io.EOF]: [n = len(buf)] bytes, or [io.EOF] when nothing was
    read and [io.ErrUnexpectedEOF] after a part.  The reader of
    [crypto/rand] does not end: what it delivers has the bytes asked for. *)
Definition ReadFull (r : list byte) (n : nat) : outcome (list byte) :=
  if Nat.leb n (length r) then Ok (firstn n r)
  else Err (match r with [] => "EOF" | _ => "unexpected EOF" end).
End io.

(** [copy(dst, src)]: the value of [dst] afterwards. *)
Definition copy {A} (dst src : list A) : list A :=
  firstn (length dst) src ++ skipn (length src) dst.

(** ** pkg/crypto *)

Module crypto.
(** KeySize is the size of the encryption key in bytes (32 bytes = 256 bits) *)
Definition KeySize : nat := 32.
(** SaltSize is the size of the salt used in key derivation *)
Definition SaltSize : nat := 16.
(** Memory in KiB used by Argon2 *)
Definition Memory : N := 64 * 1024.
(** Iterations used by Argon2 *)
Definition Iterations : N := 3.
(** Parallelism used by Argon2 *)
Definition Parallelism : N := 2.

Definition generateDeterministicSalt (password : string) : list byte :=
  let hash := sha256.Sum256 (list_byte_of_string password) in
  copy (repeat x00 SaltSize) (firstn SaltSize hash).

Section KeyDerivation.
(** [argon2.IDKey(password, salt, time, memory, threads, keyLen)] of
    golang.org/x/crypto, which returns [keyLen] bytes. *)
Variable IDKey : list byte -> list byte -> N -> N -> N -> nat -> list byte.

Definition DeriveKey (password : string) : list byte * list byte * option error :=
  let salt := generateDeterministicSalt password in
  let key := IDKey (list_byte_of_string password) salt Iterations Memory Parallelism KeySize in
  (key, salt, None).

Definition RecreateKey (password : string) (salt : list byte) : list byte :=
  IDKey (list_byte_of_string password) salt Iterations Memory Parallelism KeySize.
End KeyDerivation.

Section KeyFile.
Context {fs : Type} `{os.FileSystem fs}.

Definition SaveKey (key salt : list byte) (keyPath : string) (s : fs) : option error * fs :=
  match os.MkdirAll (filepath.Dir keyPath) 448 (* 0700 *) s with
  | (Some err, s) => (Some (wrap "failed to create key directory" err), s)
  | (None, s) =>
    let content := fmt.Sprintf_x_nl_x key salt in
    os.WriteFile keyPath (list_byte_of_string content) 384 (* 0600 *) s
  end.

Definition LoadKey (keyPath : string) (s : fs) : outcome (list byte * list byte) :=
  match os.ReadFile keyPath s with
  | Ok content =>
    match fmt.Sscanf_x_nl_x (string_of_list_byte content) with
    | Ok (key, salt) => Ok (key, salt)
    | Err err => Err (wrap "failed to parse key file" err)
    | Panic msg => Panic msg
    end
  | Err err => Err (wrap "failed to read key file" err)
  | Panic msg => Panic msg
  end.
End KeyFile.

Section KeyGeneration.
Variable IDKey : list byte -> list byte -> N -> N -> N -> nat -> list byte.
Context {fs : Type} `{os.FileSystem fs}.

(** GenerateAndSaveKey generates a new encryption key from a password and
    saves it to a file *)
Definition GenerateAndSaveKey (password : list byte) (path : string) (s : fs)
  : option error * fs :=
  (* Generate key and salt *)
  let '(key, salt, err) := DeriveKey IDKey (string_of_list_byte password) in
  match err with
  | Some err => (Some (wrap "failed to derive key" err), s)
  | None =>
    (* Save key and salt *)
    match SaveKey key salt path s with
    | (Some err, s) => (Some (wrap "failed to save key" err), s)
    | (None, s) => (None, s)
    end
  end.
End KeyGeneration.

(** [Encrypt]; [rand] is what [rand.Reader] delivers. *)
Definition Encrypt (rand : list byte) (key plaintext : list byte) : outcome (list byte) :=
  match aes.NewCipher key with
  | Ok block =>
    match cipher.NewGCM block with
    | Ok gcm =>
      match io.ReadFull rand (cipher.NonceSize gcm) with
      | Ok nonce =>
        (* Encrypt and prepend nonce *)
        cipher.Seal gcm nonce nonce plaintext []
      | Err err => Err (wrap "failed to generate nonce" err)
      | Panic msg => Panic msg
      end
    | Err err => Err (wrap "failed to create GCM" err)
    | Panic msg => Panic msg
    end
  | Err err => Err (wrap "failed to create cipher" err)
  | Panic msg => Panic msg
  end.

Definition Decrypt (key ciphertext : list byte) : outcome (list byte) :=
  match aes.NewCipher key with
  | Ok block =>
    match cipher.NewGCM block with
    | Ok gcm =>
      if Nat.ltb (length ciphertext) (cipher.NonceSize gcm) then Err "ciphertext too short"
      else
        let nonce := firstn (cipher.NonceSize gcm) ciphertext in
        let ciphertext := skipn (cipher.NonceSize gcm) ciphertext in
        match cipher.Open gcm [] nonce ciphertext [] with
        | Ok plaintext => Ok plaintext
        | Err err => Err (wrap "failed to decrypt" err)
        | Panic msg => Panic msg
        end
    | Err err => Err (wrap "failed to create GCM" err)
    | Panic msg => Panic msg
    end
  | Err err => Err (wrap "failed to create cipher" err)
  | Panic msg => Panic msg
  end.

(** Notions used to state the properties of [Encrypt] and [Decrypt]: the key
    lengths [aes.NewCipher] accepts, the GCM instance of a key, and the tag
    GCM computes for a ciphertext body under a key and nonce. *)
Definition valid_key_length (key : list byte) : Prop :=
  length key = 16 \/ length key = 24 \/ length key = 32.
Definition gcm_of (key : list byte) : cipher.gcm :=
  {| cipher.cipher_block := {| aes.block_key := key |} |}.
Definition sealed_tag (key nonce body : list byte) : list byte :=
  cipher.auth (gcm_of key) body []
    (aes.Encrypt (cipher.cipher_block (gcm_of key)) (cipher.deriveCounter nonce)).
Definition keystream_xor (key nonce body : list byte) : list byte :=
  cipher.counterCrypt (gcm_of key) body (cipher.gcmInc32 (cipher.deriveCounter nonce)).
Definition errDecrypt : error := "failed to decrypt: cipher: message authentication failed".
End crypto.


(** ** time: instants, and [time.Parse] for the layout of the storage listings *)

Module time.
Local Open Scope Z_scope.

(** An instant: seconds since January 1 of year 1, 00:00:00 UTC, and
    nanoseconds within the second. *)
Record Time := { sec : Z; nsec : Z }.
(** [time.Time{}] *)
Definition zero : Time := {| sec := 0; nsec := 0 |}.
Definition After (t u : Time) : bool :=
  (sec u <? sec t) || ((sec t =? sec u) && (nsec u <? nsec t)).

Definition isLeap (year : Z) : bool :=
  (year mod 4 =? 0) && (negb (year mod 100 =? 0) || (year mod 400 =? 0)).
Definition daysIn (month year : Z) : Z :=
  if month =? 2 then (if isLeap year then 29 else 28)
  else if (month =? 4) || (month =? 6) || (month =? 9) || (month =? 11) then 30
  else 31.
(** Days from January 1 of year 1 to the given day of the proleptic
    Gregorian calendar. *)
Definition daysSinceYear1 (year month day : Z) : Z :=
  let y := if month <=? 2 then year - 1 else year in
  let era := y / 400 in
  let yoe := y - era * 400 in
  let mp := if 2 <? month then month - 3 else month + 9 in
  let doy := (153 * mp + 2) / 5 + day - 1 in
  let doe := yoe * 365 + yoe / 4 - yoe / 100 + doy in
  era * 146097 + doe - 306.
(** [time.Date(..., time.UTC)] for fields in range. *)
Definition Date (year month day hour min sec nsec : Z) : Time :=
  {| sec := daysSinceYear1 year month day * 86400 + hour * 3600 + min * 60 + sec;
     nsec := nsec |}.

Definition isDigit (s : string) (i : nat) : bool :=
  match String.get i s with
  | Some c => let n := Z.of_N (N_of_ascii c) in (48 <=? n) && (n <=? 57)
  | None => false
  end.
Definition digitVal (s : string) (i : nat) : Z :=
  match String.get i s with Some c => Z.of_N (N_of_ascii c) - 48 | None => 0 end.

Definition errBad : error := "bad value for field".

(** [getnum]: one or two decimal digits, exactly two when [fixed]. *)
Definition getnum (s : string) (fixed : bool) : outcome (Z * string) :=
  if negb (isDigit s 0) then Err errBad
  else if negb (isDigit s 1) then
    if fixed then Err errBad else Ok (digitVal s 0, fmt.string_skipn 1 s)
  else Ok (digitVal s 0 * 10 + digitVal s 1, fmt.string_skipn 2 s).

Fixpoint cutspace (s : string) : string :=
  match s with
  | String c r => if Ascii.eqb c " " then cutspace r else s
  | EmptyString => s
  end.
(** [skip(value, prefix)]: the literal text of the layout; a space of the
    layout stands for any number of spaces of the value. *)
Fixpoint skip (fuel : nat) (value layout_prefix : string) : outcome string :=
  match fuel, layout_prefix with
  | _, EmptyString => Ok value
  | O, _ => Ok value
  | S f, String p prefix' =>
    if Ascii.eqb p " " then
      match value with
      | String v _ => if negb (Ascii.eqb v " ") then Err errBad
                      else skip f (cutspace value) (cutspace layout_prefix)
      | EmptyString => skip f (cutspace value) (cutspace layout_prefix)
      end
    else
      match value with
      | String v value' => if Ascii.eqb v p then skip f value' prefix' else Err errBad
      | EmptyString => Err errBad
      end
  end.

(** The four digits of [stdLongYear]. *)
Definition longYear (value : string) : outcome (Z * string) :=
  if (String.length value <? 4)%nat then Err errBad
  else if isDigit value 0 && isDigit value 1 && isDigit value 2 && isDigit value 3 then
    Ok (((digitVal value 0 * 10 + digitVal value 1) * 10 + digitVal value 2) * 10 + digitVal value 3,
        fmt.string_skipn 4 value)
  else Err errBad.

Definition commaOrPeriod (s : string) : bool :=
  match s with String c _ => Ascii.eqb c "." || Ascii.eqb c "," | EmptyString => false end.
(** The number of leading digits of [s]. *)
Fixpoint digits (s : string) : nat :=
  match s with
  | String c r => if isDigit s 0 then S (digits r) else O
  | EmptyString => O
  end.
Fixpoint atoi_digits (n : nat) (s : string) (acc : Z) : Z :=
  match n, s with
  | S n', String _ r => atoi_digits n' r (acc * 10 + digitVal s 0)
  | _, _ => acc
  end.
(** [parseNanoseconds(value, nbytes)] for a value that starts with a comma or
    period followed by [nbytes - 1] digits: at most nine digits count. *)
Definition parseNanoseconds (value : string) (nbytes : nat) : Z :=
  let nbytes := Nat.min nbytes 10 in
  atoi_digits (nbytes - 1) (fmt.string_skipn 1 value) 0 * 10 ^ Z.of_nat (10 - nbytes).

Definition rangeError (field : string) : error := field +:+ " out of range".

(** [time.Parse("2006-01-02 15:04:05 UTC", value)]. *)
Definition Parse_listing (value : string) : outcome Time :=
  '(year, value) ← longYear value;
  value ← skip 1 value "-";
  '(month, value) ← getnum value true;
  if (month <=? 0) || (12 <? month) then Err (rangeError "month") else
  value ← skip 1 value "-";
  '(day, value) ← getnum value true;
  value ← skip 1 value " ";
  '(hour, value) ← getnum value false;
  if (hour <? 0) || (24 <=? hour) then Err (rangeError "hour") else
  value ← skip 1 value ":";
  '(min, value) ← getnum value true;
  if (min <? 0) || (60 <=? min) then Err (rangeError "minute") else
  value ← skip 1 value ":";
  '(sec, value) ← getnum value true;
  if (sec <? 0) || (60 <=? sec) then Err (rangeError "second") else
  (* a fractional second the layout does not mention is accepted *)
  let '(nsec, value) :=
    if (2 <=? String.length value)%nat && commaOrPeriod value && isDigit value 1 then
      let n := S (digits (fmt.string_skipn 1 value)) in
      (parseNanoseconds value n, fmt.string_skipn n value)
    else (0, value) in
  value ← skip 4 value " UTC";
  if negb (String.eqb value "") then Err ("extra text: " +:+ value) else
  if (day <? 1) || (daysIn month year <? day) then Err (rangeError "day") else
  Ok (Date year month day hour min sec nsec).
End time.


(** ** github.com/bmatcuk/doublestar/v4: [Match] *)

Module doublestar.
Local Open Scope Z_scope.

Definition ErrBadPattern : error := "syntax error in pattern".
Definition separator : N := 47.

Definition len (s : string) : Z := Z.of_nat (String.length s).
(** [s[i]], [s[i:]], [s[:i]] and [s[i:j]] *)
Definition at_ (s : string) (i : Z) : N :=
  match String.get (Z.to_nat i) s with Some c => N_of_ascii c | None => 0%N end.
Definition from (s : string) (i : Z) : string := fmt.string_skipn (Z.to_nat i) s.
Definition upto (s : string) (i : Z) : string := String.substring 0 (Z.to_nat i) s.
Definition slice (s : string) (i j : Z) : string := String.substring (Z.to_nat i) (Z.to_nat (j - i)) s.
Definition rune_at (s : string) (i : Z) : N * Z :=
  let '(r, w) := utf8.DecodeRuneInString (from s i) in (r, Z.of_nat w).

Definition star : N := 42.       (* '*' *)
Definition question : N := 63.   (* '?' *)
Definition lbracket : N := 91.   (* '[' *)
Definition rbracket : N := 93.   (* ']' *)
Definition lbrace : N := 123.    (* '{' *)
Definition rbrace : N := 125.    (* '}' *)
Definition backslash : N := 92.
Definition comma : N := 44.
Definition bang : N := 33.
Definition caret : N := 94.
Definition dash : N := 45.
Definition MaxRune : N := 0x10FFFF.

(** [indexUnescapedByte(s, c, true)] *)
Fixpoint indexUnescapedByte_go (s : string) (c : N) (i : Z) (skip : bool) : Z :=
  match s with
  | EmptyString => -1
  | String x r =>
    if skip then indexUnescapedByte_go r c (i + 1) false
    else if (N_of_ascii x =? backslash)%N then indexUnescapedByte_go r c (i + 1) true
    else if (N_of_ascii x =? c)%N then i
    else indexUnescapedByte_go r c (i + 1) false
  end.
Definition indexUnescapedByte (s : string) (c : N) : Z := indexUnescapedByte_go s c 0 false.

(** [indexMatchedClosingAlt(s, true)] *)
Fixpoint indexMatchedClosingAlt_go (s : string) (alts : Z) (i : Z) (skip : bool) : Z :=
  match s with
  | EmptyString => -1
  | String x r =>
    let b := N_of_ascii x in
    if skip then indexMatchedClosingAlt_go r alts (i + 1) false
    else if (b =? backslash)%N then indexMatchedClosingAlt_go r alts (i + 1) true
    else if (b =? lbrace)%N then indexMatchedClosingAlt_go r (alts + 1) (i + 1) false
    else if (b =? rbrace)%N then
      if alts - 1 <=? 0 then i else indexMatchedClosingAlt_go r (alts - 1) (i + 1) false
    else indexMatchedClosingAlt_go r alts (i + 1) false
  end.
Definition indexMatchedClosingAlt (s : string) : Z := indexMatchedClosingAlt_go s 1 0 false.

(** [indexNextAlt(s, true)] *)
Fixpoint indexNextAlt_go (s : string) (alts : Z) (i : Z) (skip : bool) : Z :=
  match s with
  | EmptyString => -1
  | String x r =>
    let b := N_of_ascii x in
    if skip then indexNextAlt_go r alts (i + 1) false
    else if (b =? backslash)%N then indexNextAlt_go r alts (i + 1) true
    else if (b =? lbrace)%N then indexNextAlt_go r (alts + 1) (i + 1) false
    else if (b =? rbrace)%N then indexNextAlt_go r (alts - 1) (i + 1) false
    else if (b =? comma)%N && (alts =? 1) then i
    else indexNextAlt_go r alts (i + 1) false
  end.
Definition indexNextAlt (s : string) : Z := indexNextAlt_go s 1 0 false.

(** The alternatives of the text between two braces, split at the commas
    that are not nested. *)
Fixpoint alternatives (fuel : nat) (s : string) : list string :=
  match fuel with
  | O => [s]
  | S f =>
    let commaIdx := indexNextAlt s in
    if commaIdx =? -1 then [s]
    else upto s commaIdx :: alternatives f (from s (commaIdx + 1))
  end.

(** [doValidatePattern]: the scanner's states are plain text, just after a
    backslash, and inside a character class. *)
Inductive vstate := VText | VEscaped | VClassStart | VClassNeg | VClass | VClassEscaped.
Fixpoint doValidatePattern_go (s : string) (st : vstate) (altDepth : Z) : bool :=
  match s with
  | EmptyString =>
    match st with VText => altDepth =? 0 | _ => false end
  | String x r =>
    let b := N_of_ascii x in
    match st with
    | VEscaped => doValidatePattern_go r VText altDepth
    | VText =>
      if (b =? backslash)%N then doValidatePattern_go r VEscaped altDepth
      else if (b =? lbracket)%N then doValidatePattern_go r VClassStart altDepth
      else if (b =? lbrace)%N then doValidatePattern_go r VText (altDepth + 1)
      else if (b =? rbrace)%N then
        if altDepth =? 0 then false else doValidatePattern_go r VText (altDepth - 1)
      else doValidatePattern_go r VText altDepth
    | VClassStart =>
      if (b =? caret)%N || (b =? bang)%N then doValidatePattern_go r VClassNeg altDepth
      else if (b =? rbracket)%N then false
      else if (b =? backslash)%N then doValidatePattern_go r VClassEscaped altDepth
      else doValidatePattern_go r VClass altDepth
    | VClassNeg =>
      if (b =? rbracket)%N then false
      else if (b =? backslash)%N then doValidatePattern_go r VClassEscaped altDepth
      else doValidatePattern_go r VClass altDepth
    | VClass =>
      if (b =? backslash)%N then doValidatePattern_go r VClassEscaped altDepth
      else if (b =? rbracket)%N then doValidatePattern_go r VText altDepth
      else doValidatePattern_go r VClass altDepth
    | VClassEscaped => doValidatePattern_go r VClass altDepth
    end
  end.
Definition doValidatePattern (s : string) : bool := doValidatePattern_go s VText 0.

Definition sep_string : string := "/".

(** [isZeroLengthPattern]: can the rest of the pattern match the empty
    string?  [None] when the step bound is used up. *)
Fixpoint isZeroLengthPattern (fuel : nat) (pattern : string) : option (bool * option error) :=
  match fuel with
  | O => None
  | S f =>
    if String.eqb pattern "" || String.eqb pattern "*" || String.eqb pattern "**"
       || String.eqb pattern "/**" || String.eqb pattern "**/" || String.eqb pattern "/**/"
    then Some (true, None)
    else if (at_ pattern 0 =? lbrace)%N then
      let closingIdx := indexMatchedClosingAlt (from pattern 1) in
      if closingIdx =? -1 then Some (false, Some ErrBadPattern)
      else
        let closingIdx := closingIdx + 1 in
        (fix try (alts : list string) : option (bool * option error) :=
           match alts with
           | [] => Some (false, None)
           | [alt] => isZeroLengthPattern f (alt +:+ from pattern (closingIdx + 1))
           | alt :: rest =>
             match isZeroLengthPattern f (alt +:+ from pattern (closingIdx + 1)) with
             | Some (ret, err) => if ret || bool_decide (err <> None) then Some (ret, err) else try rest
             | None => None
             end
           end) (alternatives (String.length pattern) (slice pattern 1 closingIdx))
    else if negb (doValidatePattern pattern) then Some (false, Some ErrBadPattern)
    else Some (false, None)
  end.

(** The scan of a character class, from the current position in the pattern:
    whether the rune matched, and the position reached. *)
Fixpoint class_loop (fuel : nat) (pattern : string) (patIdx : Z) (nameRune last : N) : bool * Z :=
  match fuel with
  | O => (false, patIdx)
  | S f =>
    if (patIdx <? len pattern) && negb (at_ pattern patIdx =? rbracket)%N then
      let '(patRune, w) := rune_at pattern patIdx in
      let patIdx := patIdx + w in
      if (last <? MaxRune)%N && (patRune =? dash)%N && (patIdx <? len pattern)
         && negb (at_ pattern patIdx =? rbracket)%N then
        let patIdx := if (at_ pattern patIdx =? backslash)%N then patIdx + 1 else patIdx in
        let '(patRune, w) := rune_at pattern patIdx in
        let patIdx := patIdx + w in
        if (last <=? nameRune)%N && (nameRune <=? patRune)%N then (true, patIdx)
        else class_loop f pattern patIdx nameRune MaxRune
      else
        let '(patRune, patIdx) :=
          if (patRune =? backslash)%N then
            let '(r, w) := rune_at pattern patIdx in (r, patIdx + w)
          else (patRune, patIdx) in
        if (patRune =? nameRune)%N then (true, patIdx)
        else class_loop f pattern patIdx nameRune patRune
    else (false, patIdx)
  end.

(** The index just after the first separator of [name] at or after [i]. *)
Fixpoint after_separator (fuel : nat) (name : string) (i : Z) : option Z :=
  match fuel with
  | O => None
  | S f =>
    if i <? len name then
      let '(r, w) := rune_at name i in
      if (r =? separator)%N then Some (i + w) else after_separator f name (i + w)
    else None
  end.

(** [doMatchWithSeparator] with the separator [/] and validation on.  One
    unit of fuel is one turn of the matching loop or one recursive call. *)
Fixpoint doMatch (fuel : nat) (pattern name : string)
    (doublestarPatternBacktrack doublestarNameBacktrack starPatternBacktrack starNameBacktrack : Z)
    (patIdx nameIdx : Z) (startOfSegment : bool) : option (bool * option error) :=
  match fuel with
  | O => None
  | S f =>
    let patLen := len pattern in
    let nameLen := len name in
    if nameIdx <? nameLen then
      let continue dsPB dsNB sPB sNB p n sos := doMatch f pattern name dsPB dsNB sPB sNB p n sos in
      (* the statements after the switch: backtrack, or fail *)
      let break (patIdx : Z) :=
        let fail :=
          if (patIdx <? patLen) && negb (doValidatePattern (from pattern patIdx))
          then Some (false, Some ErrBadPattern) else Some (false, None) in
        let doublestar_backtrack :=
          if 0 <=? doublestarPatternBacktrack then
            match after_separator (String.length name) name doublestarNameBacktrack with
            | Some n => continue doublestarPatternBacktrack n starPatternBacktrack starNameBacktrack
                                 doublestarPatternBacktrack n true
            | None => fail
            end
          else fail in
        if 0 <=? starPatternBacktrack then
          let '(nameRune, w) := rune_at name starNameBacktrack in
          if negb (nameRune =? separator)%N then
            continue doublestarPatternBacktrack doublestarNameBacktrack
                     starPatternBacktrack (starNameBacktrack + w)
                     starPatternBacktrack (starNameBacktrack + w) false
          else doublestar_backtrack
        else doublestar_backtrack in
      let literal (patIdx : Z) :=
        let '(patRune, pw) := rune_at pattern patIdx in
        let '(nameRune, nw) := rune_at name nameIdx in
        if negb (patRune =? nameRune)%N then
          if (0 <? patIdx) && (at_ pattern (patIdx - 1) =? backslash)%N then break (patIdx - 1)
          else break patIdx
        else continue doublestarPatternBacktrack doublestarNameBacktrack
                      starPatternBacktrack starNameBacktrack
                      (patIdx + pw) (nameIdx + nw) (patRune =? separator)%N in
      if patIdx <? patLen then
        let c := at_ pattern patIdx in
        if (c =? star)%N then
          let single (p : Z) :=
            continue doublestarPatternBacktrack doublestarNameBacktrack p nameIdx p nameIdx false in
          if (patIdx + 1 <? patLen) && (at_ pattern (patIdx + 1) =? star)%N then
            if startOfSegment then
              if patLen <=? patIdx + 2 then Some (true, None)
              else
                let '(patRune, w) := rune_at pattern (patIdx + 2) in
                if (patRune =? separator)%N then
                  continue (patIdx + 2 + w) nameIdx (-1) (-1) (patIdx + 2 + w) nameIdx startOfSegment
                else single (patIdx + 2)
            else single (patIdx + 2)
          else single (patIdx + 1)
        else if (c =? question)%N then
          let '(nameRune, w) := rune_at name nameIdx in
          if (nameRune =? separator)%N then break patIdx
          else continue doublestarPatternBacktrack doublestarNameBacktrack
                        starPatternBacktrack starNameBacktrack (patIdx + 1) (nameIdx + w) false
        else if (c =? lbracket)%N then
          let patIdx := patIdx + 1 in
          if patLen <=? patIdx then Some (false, Some ErrBadPattern)
          else
            let '(nameRune, nw) := rune_at name nameIdx in
            let negate := (at_ pattern patIdx =? bang)%N || (at_ pattern patIdx =? caret)%N in
            let patIdx := if negate then patIdx + 1 else patIdx in
            if (patLen <=? patIdx) || (at_ pattern patIdx =? rbracket)%N
            then Some (false, Some ErrBadPattern)
            else
              let '(matched, patIdx) :=
                class_loop (String.length pattern) pattern patIdx nameRune MaxRune in
              if Bool.eqb matched negate then
                if patLen <=? patIdx then Some (false, Some ErrBadPattern) else break patIdx
              else
                let closingIdx := indexUnescapedByte (from pattern patIdx) rbracket in
                if closingIdx =? -1 then Some (false, Some ErrBadPattern)
                else continue doublestarPatternBacktrack doublestarNameBacktrack
                              starPatternBacktrack starNameBacktrack
                              (patIdx + closingIdx + 1) (nameIdx + nw) false
        else if (c =? lbrace)%N then
          let beforeIdx := patIdx in
          let patIdx := patIdx + 1 in
          let closingIdx := indexMatchedClosingAlt (from pattern patIdx) in
          if closingIdx =? -1 then Some (false, Some ErrBadPattern)
          else
            let closingIdx := closingIdx + patIdx in
            let sub alt :=
              doMatch f (upto pattern beforeIdx +:+ alt +:+ from pattern (closingIdx + 1)) name
                      doublestarPatternBacktrack doublestarNameBacktrack
                      starPatternBacktrack starNameBacktrack beforeIdx nameIdx true in
            (fix try (alts : list string) : option (bool * option error) :=
               match alts with
               | [] => Some (false, None)
               | [alt] => sub alt
               | alt :: rest =>
                 match sub alt with
                 | Some (result, err) =>
                   if result || bool_decide (err <> None) then Some (result, err) else try rest
                 | None => None
                 end
               end) (alternatives (String.length pattern) (slice pattern patIdx closingIdx))
        else if (c =? backslash)%N then
          if patLen <=? patIdx + 1 then Some (false, Some ErrBadPattern)
          else literal (patIdx + 1)
        else literal patIdx
      else break patIdx
    else isZeroLengthPattern (S (String.length pattern)) (from pattern patIdx)
  end.

(** The number of steps allowed to one match; the loop of the library makes
    fewer on every input. *)
Definition step_bound (pattern name : string) : nat :=
  8 * (S (String.length pattern)) * (S (String.length name)).

(** [doublestar.Match(pattern, name)] *)
Definition Match (pattern name : string) : bool * option error :=
  match doMatch (step_bound pattern name) pattern name (-1) (-1) (-1) (-1) 0 0 true with
  | Some r => r
  | None => (false, Some "doublestar: step bound exceeded")
  end.
End doublestar.


(** ** pkg/backup: exclusion and the archive walk *)

Module exclusion.

(** The parent-directory loop of [isExcluded]:
    [for dir != "." && dir != "/" { dir = Dir(dir); match ... }].  Each turn
    shortens [dir], so [fuel] turns suffice when [fuel] exceeds its length. *)
Fixpoint parentMatches (fuel : nat) (pattern dir : string) : bool :=
  match fuel with
  | O => false
  | S f =>
    if negb (String.eqb dir ".") && negb (String.eqb dir "/") then
      let dir := filepath.Dir dir in
      let dir := filepath.ToSlash dir in
      let '(matched, err) := doublestar.Match pattern dir in
      if bool_decide (err = None) && matched then true
      else parentMatches f pattern dir
    else false
  end.

(** isExcluded checks if a path matches any of the exclude patterns *)
Fixpoint isExcluded (path : string) (excludePatterns : list string) : bool :=
  (* Convert path separators to forward slashes for consistent matching *)
  let path := filepath.ToSlash path in
  match excludePatterns with
  | [] => false
  | pattern :: rest =>
    (* Convert pattern separators to forward slashes *)
    let pattern := filepath.ToSlash pattern in
    (* Try to match the pattern *)
    let '(matched, err) := doublestar.Match pattern path in
    if bool_decide (err = None) && matched then true
    (* Also check if any parent directory matches *)
    else if parentMatches (S (String.length path)) pattern path then true
    else isExcluded path rest
  end.

(** What the walk finds at a path: the objects of a directory tree. *)
#[local] Unset Elimination Schemes.
Inductive node :=
| regular (content : list byte)
| directory (entries : list (string * node))
| symlink (target : string).
#[local] Set Elimination Schemes.

(** An entry of the archive: of the header [tar.FileInfoHeader] builds, the
    name, which [createArchive] sets to the relative path, and the type;
    and the contents written after it. *)
Inductive Typeflag := TypeReg | TypeDir | TypeSymlink.
Record Header := { Name : string; Type_ : Typeflag; Body : list byte }.

(** The path of an entry of the directory at [rel], relative to the root of
    the walk ([filepath.Rel(sourcePath, path)] for a walked path). *)
Definition child (rel name : string) : string :=
  if String.eqb rel "." then name else rel +:+ "/" +:+ name.

(** The entries [createArchive] writes for the tree at [rel], walked as
    [filepath.Walk] does: a directory before what it holds, its entries in
    the order [ReadDir] lists them; an excluded directory is skipped with
    all it holds ([filepath.SkipDir]), an excluded file is left out. *)
Fixpoint walk (excludePatterns : list string) (rel : string) (n : node) : list Header :=
  if isExcluded rel excludePatterns then []
  else
    match n with
    | regular content => [{| Name := rel; Type_ := TypeReg; Body := content |}]
    | symlink _ => [{| Name := rel; Type_ := TypeSymlink; Body := [] |}]
    | directory entries =>
      {| Name := rel; Type_ := TypeDir; Body := [] |}
      :: (fix each (es : list (string * node)) : list Header :=
            match es with
            | [] => []
            | (name, c) :: es' => walk excludePatterns (child rel name) c ++ each es'
            end) entries
    end.

(** The parent of a directory, as the loop of [isExcluded] takes it. *)
Definition parent (dir : string) : string := filepath.ToSlash (filepath.Dir dir).

(** The parents of [dir] that the loop of [isExcluded] visits. *)
Fixpoint ancestors (fuel : nat) (dir : string) : list string :=
  match fuel with
  | O => []
  | S f =>
    if negb (String.eqb dir ".") && negb (String.eqb dir "/") then
      parent dir :: ancestors f (parent dir)
    else []
  end.
Definition matches (pattern name : string) : bool :=
  let '(matched, err) := doublestar.Match pattern name in bool_decide (err = None) && matched.
End exclusion.


(** The tree of the exclusion example. *)
Definition example_tree : exclusion.node :=
  exclusion.directory [
    (".git", exclusion.directory [("config", exclusion.regular [])]);
    ("node_modules", exclusion.directory
       [("pkg", exclusion.directory [("index.js", exclusion.regular [])])]);
    ("src", exclusion.directory [("code.js", exclusion.regular [])])].

(** The size of a list of path elements: each with its separator. *)
Definition weight (l : list string) : nat :=
  fold_right (fun e n => S (String.length e + n)) 0%nat l.


(** ** strings *)
Module strings.
Fixpoint HasPrefix (s prefix : string) : bool :=
  match prefix, s with
  | EmptyString, _ => true
  | String p prefix', String c s' => Ascii.eqb c p && HasPrefix s' prefix'
  | String _ _, EmptyString => false
  end.
Fixpoint Contains (s substr : string) : bool :=
  HasPrefix s substr || match s with String _ s' => Contains s' substr | EmptyString => false end.
End strings.

(** ** pkg/storage and pkg/config: the data the orchestrator works on *)

Module storage.
(** The two backends of the manager: [Manager.Synology], the primary, and
    [Manager.S3], the secondary. *)
Inductive Backend := Synology | S3.
#[global] Instance Backend_eq_dec : EqDecision Backend.
Proof. solve_decision. Defined.

Record BackupFile := { Name : string; Size : Z; ModTime : string }.
#[global] Instance BackupFile_eq_dec : EqDecision BackupFile.
Proof. solve_decision. Defined.
End storage.

Module config.
Record Docker := { Container : string }.
Record Command := {
  Command_ : string; WorkingDir : string; Environment : list (string * string); Timeout : string }.
Record Service := {
  Path : string;
  Schedule : string;
  Docker_ : option Docker;
  Exclude : list string;
  RetainBackups : option Z;
  PreBackup : option Command }.
Record BackupConfiguration := { Backup_RetainBackups : Z }.
Record Config := { Services : gmap string Service; Backup : BackupConfiguration }.
End config.

(** ** The calls that leave the process, and programs over them *)

Module effects.
Import storage.

(** Every call of the orchestrator whose result the environment decides:
    the storage backends, the file system, the clock, the random source, and
    the helpers of the manager that run commands, drive the container and
    read or write the directory tree. *)
Inductive call : Type -> Type :=
| Upload (b : Backend) (localPath remoteName : string) : call (option error)
| Download (b : Backend) (remoteName localPath : string) : call (option error)
| List_ (b : Backend) (namePrefix : string) : call (outcome (list BackupFile))
| Delete (b : Backend) (remoteName : string) : call (option error)
| MkdirAll (path : string) (perm : N) : call (option error)
| RemoveAll (path : string) : call (option error)
| WriteFile (name : string) (data : list byte) (perm : N) : call (option error)
| ReadFile (name : string) : call (outcome (list byte))
| NowUnix : call Z
| NowFormat (layout : string) : call string
| RandRead : call (list byte)
| executeCommand (cmd : config.Command) (servicePath : string) : call (option error)
| handleDockerContainer (containerName : string) (stop : bool) : call (option error)
| createArchive (sourcePath : string) : call (outcome (list byte))
| extractArchive (input : list byte) (destPath : string) : call (option error).

Inductive prog (A : Type) : Type :=
| Ret (a : A)
| Vis (X : Type) (c : call X) (k : X -> prog A).
Arguments Ret {A} a.
Arguments Vis {A X} c k.

Fixpoint bind {A B} (p : prog A) (f : A -> prog B) : prog B :=
  match p with
  | Ret a => f a
  | Vis c k => Vis c (fun x => bind (k x) f)
  end.
#[global] Instance prog_ret : MRet prog := fun A a => Ret a.
#[global] Instance prog_bind : MBind prog := fun A B f p => bind p f.
Definition perform {X} (c : call X) : prog X := Vis c Ret.

(** A call together with the answer it got. *)
Inductive event : Type :=
| Ev (X : Type) (c : call X) (r : X).
Arguments Ev {X} c r.

(** Running a program against an environment [h] with state [W]: the
    result, the calls made in order with their answers, the final state. *)
Fixpoint run {W A} (h : forall X, call X -> W -> X * W) (p : prog A) (w : W)
  : A * list event * W :=
  match p with
  | Ret a => (a, [], w)
  | Vis c k =>
    let '(r, w') := h _ c w in
    let '(a, t, w'') := run h (k r) w' in
    (a, Ev c r :: t, w'')
  end.

(** Readings of a trace. *)
Definition upload_of (e : event) : option (Backend * string * string * option error) :=
  match e with
  | Ev c r =>
    match c in call X return X -> option (Backend * string * string * option error) with
    | Upload b l n => fun r => Some (b, l, n, r)
    | _ => fun _ => None
    end r
  end.
Definition download_of (e : event) : option (Backend * string * string * option error) :=
  match e with
  | Ev c r =>
    match c in call X return X -> option (Backend * string * string * option error) with
    | Download b n l => fun r => Some (b, n, l, r)
    | _ => fun _ => None
    end r
  end.
Definition delete_of (e : event) : option (Backend * string * option error) :=
  match e with
  | Ev c r =>
    match c in call X return X -> option (Backend * string * option error) with
    | Delete b n => fun r => Some (b, n, r)
    | _ => fun _ => None
    end r
  end.
Definition list_of (e : event) : option (Backend * string * outcome (list BackupFile)) :=
  match e with
  | Ev c r =>
    match c in call X return X -> option (Backend * string * outcome (list BackupFile)) with
    | List_ b p => fun r => Some (b, p, r)
    | _ => fun _ => None
    end r
  end.
Definition read_of (e : event) : option string :=
  match e with
  | Ev c _ => match c with ReadFile name => Some name | _ => None end
  end.
Definition extract_of (e : event) : option (list byte * string) :=
  match e with
  | Ev c _ => match c with extractArchive input destPath => Some (input, destPath) | _ => None end
  end.
Definition container_of (e : event) : option (string * bool * option error) :=
  match e with
  | Ev c r =>
    match c in call X return X -> option (string * bool * option error) with
    | handleDockerContainer containerName stop => fun r => Some (containerName, stop, r)
    | _ => fun _ => None
    end r
  end.
Definition archive_of (e : event) : option (string * outcome (list byte)) :=
  match e with
  | Ev c r =>
    match c in call X return X -> option (string * outcome (list byte)) with
    | createArchive sourcePath => fun r => Some (sourcePath, r)
    | _ => fun _ => None
    end r
  end.
Definition command_of (e : event) : option (config.Command * string * option error) :=
  match e with
  | Ev c r =>
    match c in call X return X -> option (config.Command * string * option error) with
    | executeCommand cmd servicePath => fun r => Some (cmd, servicePath, r)
    | _ => fun _ => None
    end r
  end.
Definition write_of (e : event) : option (string * list byte * N * option error) :=
  match e with
  | Ev c r =>
    match c in call X return X -> option (string * list byte * N * option error) with
    | WriteFile name data perm => fun r => Some (name, data, perm, r)
    | _ => fun _ => None
    end r
  end.
Definition content_of (e : event) : option (string * outcome (list byte)) :=
  match e with
  | Ev c r =>
    match c in call X return X -> option (string * outcome (list byte)) with
    | ReadFile name => fun r => Some (name, r)
    | _ => fun _ => None
    end r
  end.
Definition mkdir_of (e : event) : option (string * N * option error) :=
  match e with
  | Ev c r =>
    match c in call X return X -> option (string * N * option error) with
    | MkdirAll path perm => fun r => Some (path, perm, r)
    | _ => fun _ => None
    end r
  end.
Definition remove_of (e : event) : option string :=
  match e with
  | Ev c _ => match c with RemoveAll path => Some path | _ => None end
  end.
Definition rand_of (e : event) : option (list byte) :=
  match e with
  | Ev c r =>
    match c in call X return X -> option (list byte) with
    | RandRead => fun r => Some r
    | _ => fun _ => None
    end r
  end.
Definition stamp_of (e : event) : option string :=
  match e with
  | Ev c r =>
    match c in call X return X -> option string with
    | NowFormat _ => fun r => Some r
    | _ => fun _ => None
    end r
  end.
End effects.


(** ** The container runtime, as [handleDockerContainer] observes it *)

Module docker.
(** [types.ContainerState]: the fields the manager reads; [Health] is the
    status of the health check when the container declares one. *)
Record ContainerState := { Running : bool; ExitCode : Z; Health : option string }.

(** What one turn of a polling loop finds: the time since the manager set
    its timer, in nanoseconds, and the answer of [ContainerInspect]. *)
Record observation := { elapsed : Z; inspect : outcome ContainerState }.

(** The daemon during one call of [handleDockerContainer]: the answers to
    [ContainerStop] and [ContainerStart], to the inspection made right
    after the start, and what the polling loop observes turn by turn. *)
Record daemon := {
  stop_error : option error;
  start_error : option error;
  started : outcome ContainerState;
  polls : list observation }.
End docker.

(** ** pkg/backup *)

Module backup.
Import storage config effects docker.
Local Open Scope Z_scope.

(** Manager handles backup operations.  The storage sessions and the Docker
    client belong to the environment; [has_S3] says whether [Manager.S3] is
    set. *)
Record Manager := {
  config_ : Config;
  key : list byte;
  backupRoot : string;
  has_S3 : bool }.

(** *** handleDockerContainer *)

(** [time.After(2 * time.Minute)] has fired. *)
Definition Minute : Z := 60 * 1000000000.
Definition timed_out (o : observation) : bool := 2 * Minute <=? elapsed o.

(** One turn of a polling loop either decides the call or sleeps and polls
    again. *)
Inductive turn := Done (r : outcome ()) | Again.

(** The loop [for { select { case <-timeout: ...; default: ... } }] over
    what it observes; [None] while the observations given do not decide. *)
Fixpoint poll (step : observation -> turn) (obs : list observation) : option (outcome ()) :=
  match obs with
  | [] => None
  | o :: rest => match step o with Done r => Some r | Again => poll step rest end
  end.

Definition stop_turn (containerName : string) (o : observation) : turn :=
  if timed_out o then
    Done (Err ("timeout waiting for container " +:+ containerName +:+ " to stop"))
  else
    match inspect o with
    | Ok info => if negb (Running info) then Done (Ok ()) else Again
    | Err err => Done (Err (wrap "failed to inspect container" err))
    | Panic msg => Done (Panic msg)
    end.

Definition nil_dereference : string :=
  "runtime error: invalid memory address or nil pointer dereference".

Definition health_turn (containerName : string) (o : observation) : turn :=
  if timed_out o then
    Done (Err ("timeout waiting for container " +:+ containerName +:+ " to become healthy"))
  else
    match inspect o with
    | Ok info =>
      match Health info with
      | Some status =>
        if String.eqb status "healthy" then Done (Ok ())
        else if String.eqb status "unhealthy" then
          Done (Err ("container " +:+ containerName +:+ " is unhealthy after start"))
        else Again
      | None => Done (Panic nil_dereference)
      end
    | Err err => Done (Err (wrap "failed to inspect container health" err))
    | Panic msg => Done (Panic msg)
    end.

Definition running_turn (containerName : string) (o : observation) : turn :=
  if timed_out o then
    Done (Err ("timeout waiting for container " +:+ containerName +:+ " to start"))
  else
    match inspect o with
    | Ok info =>
      if Running info then Done (Ok ())
      else if negb (ExitCode info =? 0) then
        Done (Err ("container " +:+ containerName +:+ " failed to start (exit code: "
                   +:+ pretty (ExitCode info) +:+ ")"))
      else Again
    | Err err => Done (Err (wrap "failed to inspect container" err))
    | Panic msg => Done (Panic msg)
    end.

Definition handleDockerContainer (d : daemon) (containerName : string) (stop : bool)
  : option (outcome ()) :=
  if stop then
    match stop_error d with
    | Some err => Some (Err (wrap "failed to stop container" err))
    | None =>
      (* Wait for container to actually stop *)
      poll (stop_turn containerName) (polls d)
    end
  else
    match start_error d with
    | Some err => Some (Err (wrap "failed to start container" err))
    | None =>
      (* Wait for container to be healthy if it has a healthcheck *)
      match started d with
      | Ok info =>
        match Health info with
        | Some _ => poll (health_turn containerName) (polls d)
        | None =>
          (* If no healthcheck, just wait for it to be running *)
          poll (running_turn containerName) (polls d)
        end
      | Err err => Some (Err (wrap "failed to inspect container" err))
      | Panic msg => Some (Panic msg)
      end
    end.

(** *** CreateBackup and RestoreBackup *)

Definition ok_or (prefix : string) (err : option error) (k : prog (outcome ())) : prog (outcome ()) :=
  match err with
  | Some err => Ret (Err (wrap prefix err))
  | None => k
  end.

(** [crypto.Encrypt(key, plaintext)] as a call of the manager: the nonce is
    read from [rand.Reader] once [aes.NewCipher] and [cipher.NewGCM] have
    accepted the key, not before. *)
Definition Encrypt (key plaintext : list byte) : prog (outcome (list byte)) :=
  match aes.NewCipher key with
  | Ok block =>
    match cipher.NewGCM block with
    | Ok _ =>
      rand ← perform RandRead;
      Ret (crypto.Encrypt rand key plaintext)
    | Err err => Ret (Err (wrap "failed to create GCM" err))
    | Panic msg => Ret (Panic msg)
    end
  | Err err => Ret (Err (wrap "failed to create cipher" err))
  | Panic msg => Ret (Panic msg)
  end.

(** The part of [CreateBackup] after the container was stopped. *)
Definition archiveAndUpload (m : Manager) (serviceName : string) (service : Service)
    (tmpDir : string) : prog (outcome ()) :=
  (* Create tar.gz archive in memory *)
  archiveData ← perform (effects.createArchive (Path service));
  match archiveData with
  | Err err => Ret (Err (wrap "failed to create archive" err))
  | Panic msg => Ret (Panic msg)
  | Ok archiveData =>
    (* Encrypt the archive *)
    encrypted ← Encrypt (key m) archiveData;
    match encrypted with
    | Err err => Ret (Err (wrap "failed to encrypt backup" err))
    | Panic msg => Ret (Panic msg)
    | Ok encrypted =>
      (* Create final backup name with timestamp *)
      timestamp ← perform (NowFormat "2006-01-02T15-04-05Z");
      let backupName := serviceName +:+ "-" +:+ timestamp +:+ ".enc" in
      (* Save temporary local copy *)
      let localPath := filepath.Join [tmpDir; backupName] in
      err ← perform (WriteFile localPath encrypted 384 (* 0600 *));
      ok_or "failed to save backup locally" err (
      (* Upload to Synology *)
      err ← perform (Upload Synology localPath backupName);
      ok_or "failed to upload to Synology" err (
      (* Upload to S3 if configured *)
      if has_S3 m then
        err ← perform (Upload S3 localPath backupName);
        ok_or "failed to upload to S3" err (Ret (Ok ()))
      else Ret (Ok ())))
    end
  end.

(** CreateBackup creates a backup of the specified service *)
Definition CreateBackup (m : Manager) (serviceName : string) : prog (outcome ()) :=
  match Services (config_ m) !! serviceName with
  | None => Ret (Err ("service " +:+ serviceName +:+ " not found in configuration"))
  | Some service =>
    (* Create temporary directory for the backup *)
    now ← perform NowUnix;
    let tmpDir := filepath.Join [backupRoot m; serviceName +:+ "-" +:+ pretty now] in
    err ← perform (MkdirAll tmpDir 448 (* 0700 *));
    ok_or "failed to create temporary directory" err (
    (* defer os.RemoveAll(tmpDir) *)
    result ← (
      (* Execute pre-backup command if specified *)
      err ← match PreBackup service with
            | Some cmd => perform (effects.executeCommand cmd (Path service))
            | None => Ret None
            end;
      ok_or "failed to execute pre-backup command" err (
      (* Handle Docker container if specified *)
      match Docker_ service with
      | Some d =>
        err ← perform (effects.handleDockerContainer (Container d) true);
        ok_or "failed to handle Docker container" err (
        (* defer m.handleDockerContainer(service.Docker.Container, false) *)
        result ← archiveAndUpload m serviceName service tmpDir;
        _ ← perform (effects.handleDockerContainer (Container d) false);
        Ret result)
      | None => archiveAndUpload m serviceName service tmpDir
      end));
    _ ← perform (RemoveAll tmpDir);
    Ret result)
  end.

(** The part of [RestoreBackup] after the download. *)
Definition decryptAndExtract (m : Manager) (service : Service) (encryptedPath : string)
  : prog (outcome ()) :=
  (* Read the encrypted backup *)
  encrypted ← perform (ReadFile encryptedPath);
  match encrypted with
  | Err err => Ret (Err (wrap "failed to read backup file" err))
  | Panic msg => Ret (Panic msg)
  | Ok encrypted =>
    (* Decrypt the backup *)
    match crypto.Decrypt (key m) encrypted with
    | Err err => Ret (Err (wrap "failed to decrypt backup" err))
    | Panic msg => Ret (Panic msg)
    | Ok decrypted =>
      let extract :=
        (* Extract the archive *)
        err ← perform (effects.extractArchive decrypted (Path service));
        ok_or "failed to extract archive" err (Ret (Ok ())) in
      (* Handle Docker container if specified *)
      match Docker_ service with
      | Some d =>
        err ← perform (effects.handleDockerContainer (Container d) true);
        ok_or "failed to handle Docker container" err (
        (* defer m.handleDockerContainer(service.Docker.Container, false) *)
        result ← extract;
        _ ← perform (effects.handleDockerContainer (Container d) false);
        Ret result)
      | None => extract
      end
    end
  end.

(** RestoreBackup restores a backup of the specified service *)
Definition RestoreBackup (m : Manager) (serviceName backupName : string) : prog (outcome ()) :=
  match Services (config_ m) !! serviceName with
  | None => Ret (Err ("service " +:+ serviceName +:+ " not found in configuration"))
  | Some service =>
    (* Create temporary directory for the restore *)
    now ← perform NowUnix;
    let tmpDir := filepath.Join [backupRoot m; serviceName +:+ "-restore-" +:+ pretty now] in
    err ← perform (MkdirAll tmpDir 448 (* 0700 *));
    ok_or "failed to create temporary directory" err (
    (* defer os.RemoveAll(tmpDir) *)
    result ← (
      (* Download the backup file *)
      let encryptedPath := filepath.Join [tmpDir; backupName] in
      (* Try to download from Synology first *)
      err ← perform (Download Synology backupName encryptedPath);
      match err with
      | Some err =>
        (* If not found in Synology and S3 is configured, try S3 *)
        if has_S3 m then
          err ← perform (Download S3 backupName encryptedPath);
          ok_or "failed to download backup from any storage" err
                (decryptAndExtract m service encryptedPath)
        else Ret (Err (wrap "failed to download backup from Synology" err))
      | None => decryptAndExtract m service encryptedPath
      end);
    _ ← perform (RemoveAll tmpDir);
    Ret result)
  end.

(** *** CleanupBackups *)

Definition parseBackupTime (timeStr : string) : time.Time :=
  match time.Parse_listing timeStr with
  | Ok t => t
  | _ => time.zero
  end.

(** The [less] function handed to [sort.Slice]: newest first. *)
Definition newer (a b : BackupFile) : bool :=
  time.After (parseBackupTime (ModTime a)) (parseBackupTime (ModTime b)).

Definition slice_out_of_range (low : Z) : string :=
  "runtime error: slice bounds out of range [" +:+ pretty low +:+ ":]".

(** [for _, backup := range synologyBackups[retainCount:]]: a delete that
    fails because the file does not exist is skipped. *)
Fixpoint deleteSynology (backups : list BackupFile) (deletedCount : Z) : prog (outcome Z) :=
  match backups with
  | [] => Ret (Ok deletedCount)
  | backup :: rest =>
    err ← perform (Delete Synology (Name backup));
    match err with
    | Some err =>
      (* If the file doesn't exist, that's fine - it might have been deleted already *)
      if strings.Contains err "file does not exist" then deleteSynology rest deletedCount
      else Ret (Err (wrap ("failed to delete Synology backup " +:+ Name backup) err))
    | None => deleteSynology rest (deletedCount + 1)
    end
  end.

(** [for _, backup := range s3Backups[retainCount:]] *)
Fixpoint deleteS3 (backups : list BackupFile) (deletedCount : Z) : prog (outcome Z) :=
  match backups with
  | [] => Ret (Ok deletedCount)
  | backup :: rest =>
    err ← perform (Delete S3 (Name backup));
    match err with
    | Some err => Ret (Err (wrap ("failed to delete S3 backup " +:+ Name backup) err))
    | None => deleteS3 rest (deletedCount + 1)
    end
  end.

Section Cleanup.
(** [sort.Slice(x, less)], and the order in which [range] visits a map:
    the runtime fixes neither beyond what the properties below use. *)
Variable sort_Slice : (BackupFile -> BackupFile -> bool) -> list BackupFile -> list BackupFile.
Variable range : gmap string Service -> list (string * Service).

(** Get retain count (service-specific or global default) *)
Definition retainCount (m : Manager) (service : Service) : Z :=
  match RetainBackups service with
  | Some r => r
  | None => Backup_RetainBackups (Backup (config_ m))
  end.

(** The artifacts beyond the retain count in a sorted listing; [None] when
    the slice expression panics. *)
Definition beyond (retainCount : Z) (backups : list BackupFile) : option (list BackupFile) :=
  if retainCount <? 0 then None else Some (drop (Z.to_nat retainCount) backups).

(** The body of the loop over the services. *)
Definition cleanupService (m : Manager) (name : string) (service : Service)
    (deletedCounts : gmap string Z) : prog (outcome (gmap string Z)) :=
  let retainCount := retainCount m service in
  (* Clean up Synology backups *)
  synologyBackups ← perform (List_ Synology (name +:+ "-"));
  match synologyBackups with
  | Err err => Ret (Err (wrap "failed to list Synology backups" err))
  | Panic msg => Ret (Panic msg)
  | Ok synologyBackups =>
    (* Sort backups by modification time (newest first) *)
    let synologyBackups := sort_Slice newer synologyBackups in
    (* Keep only the most recent backups in Synology *)
    r ← (if retainCount <? Z.of_nat (length synologyBackups) then
           match beyond retainCount synologyBackups with
           | None => Ret (Panic (slice_out_of_range retainCount))
           | Some old =>
             deletedCount ← deleteSynology old 0;
             match deletedCount with
             | Ok n => Ret (Ok (<[name +:+ "_synology" := n]> deletedCounts))
             | Err err => Ret (Err err)
             | Panic msg => Ret (Panic msg)
             end
           end
         else Ret (Ok deletedCounts));
    match r with
    | Err err => Ret (Err err)
    | Panic msg => Ret (Panic msg)
    | Ok deletedCounts =>
      (* Clean up S3 backups if configured *)
      if has_S3 m then
        s3Backups ← perform (List_ S3 (name +:+ "-"));
        match s3Backups with
        | Err err => Ret (Err (wrap "failed to list S3 backups" err))
        | Panic msg => Ret (Panic msg)
        | Ok s3Backups =>
          (* Sort backups by modification time (newest first) *)
          let s3Backups := sort_Slice newer s3Backups in
          (* Keep only the most recent backups in S3 *)
          if retainCount <? Z.of_nat (length s3Backups) then
            match beyond retainCount s3Backups with
            | None => Ret (Panic (slice_out_of_range retainCount))
            | Some old =>
              deletedCount ← deleteS3 old 0;
              match deletedCount with
              | Ok n => Ret (Ok (<[name +:+ "_s3" := n]> deletedCounts))
              | Err err => Ret (Err err)
              | Panic msg => Ret (Panic msg)
              end
            end
          else Ret (Ok deletedCounts)
        end
      else Ret (Ok deletedCounts)
    end
  end.

(** [for name, service := range services] *)
Fixpoint cleanupServices (m : Manager) (services : list (string * Service))
    (deletedCounts : gmap string Z) : prog (outcome (gmap string Z)) :=
  match services with
  | [] => Ret (Ok deletedCounts)
  | (name, service) :: rest =>
    r ← cleanupService m name service deletedCounts;
    match r with
    | Ok deletedCounts => cleanupServices m rest deletedCounts
    | Err err => Ret (Err err)
    | Panic msg => Ret (Panic msg)
    end
  end.

(** The services [CleanupBackups] visits: the one named, or all of them
    when no name is given; [None] for a name that is not configured. *)
Definition in_scope (m : Manager) (serviceName : string) : option (list (string * Service)) :=
  if String.eqb serviceName "" then Some (range (Services (config_ m)))
  else match Services (config_ m) !! serviceName with
       | Some service => Some (range {[ serviceName := service ]})
       | None => None
       end.

(** CleanupBackups removes old backups while keeping the most recent ones *)
Definition CleanupBackups (m : Manager) (serviceName : string) : prog (outcome (gmap string Z)) :=
  (* Get services to clean up *)
  match in_scope m serviceName with
  | None => Ret (Err ("service " +:+ serviceName +:+ " not found"))
  | Some services =>
    (* Clean up each service *)
    cleanupServices m services ∅
  end.
End Cleanup.
End backup.


(** ** sort.Slice and map iteration: what the runtime promises *)

Module sort.
(** An instance of [sort.Slice]: insertion sort.  The library sorts with
    another algorithm and is not stable; the proofs use [Slice_contract]
    only. *)
Fixpoint insert {A} (less : A -> A -> bool) (x : A) (l : list A) : list A :=
  match l with
  | [] => [x]
  | y :: l' => if less y x then y :: insert less x l' else x :: y :: l'
  end.
Definition Slice {A} (less : A -> A -> bool) (l : list A) : list A :=
  fold_right (insert less) [] l.
End sort.

(** [sort.Slice(x, less)] for the order of [CleanupBackups]: the elements
    are kept, and afterwards no element is newer than one before it. *)
Definition Slice_contract
    (sort_Slice : (storage.BackupFile -> storage.BackupFile -> bool) ->
                  list storage.BackupFile -> list storage.BackupFile) : Prop :=
  forall l, Permutation (sort_Slice backup.newer l) l /\
            StronglySorted (fun a b => backup.newer b a = false) (sort_Slice backup.newer l).

(** [for name, service := range services] visits every entry of the map
    once, in an order of its own. *)
Definition range_contract
    (range : gmap string config.Service -> list (string * config.Service)) : Prop :=
  forall g, Permutation (range g) (map_to_list g).

(** ** The storage double of the tests *)

Module mock.
Import storage effects.

(** MockStorage implements storage.Storage for testing *)
Record MockStorage := {
  files : list BackupFile;
  deleted : list string;
  listErr : option error;
  deleteErr : option error }.

Definition List (m : MockStorage) (prefix : string) : outcome (list BackupFile) :=
  match listErr m with
  | Some err => Err err
  | None => Ok (List.filter (fun f => strings.HasPrefix (Name f) prefix) (files m))
  end.

Definition Delete (m : MockStorage) (remoteName : string) : option error * MockStorage :=
  match deleteErr m with
  | Some err => (Some err, m)
  | None =>
    (None, {| files := List.filter (fun f => negb (String.eqb (Name f) remoteName)) (files m);
              deleted := deleted m ++ [remoteName];
              listErr := listErr m; deleteErr := deleteErr m |})
  end.

(** A manager with doubles for both backends. *)
Record world := { Synology_ : MockStorage; S3_ : MockStorage }.

Definition backend (b : Backend) (w : world) : MockStorage :=
  match b with Synology => Synology_ w | S3 => S3_ w end.
Definition set_backend (b : Backend) (s : MockStorage) (w : world) : world :=
  match b with
  | Synology => {| Synology_ := s; S3_ := S3_ w |}
  | S3 => {| Synology_ := Synology_ w; S3_ := s |}
  end.

(** The environment of a test: the doubles answer the storage calls; every
    other call succeeds with an empty answer. *)
Definition handle (X : Type) (c : call X) : world -> X * world :=
  match c in call X return world -> X * world with
  | Upload _ _ _ => fun w => (None, w)
  | Download _ _ _ => fun w => (None, w)
  | List_ b prefix => fun w => (List (backend b w) prefix, w)
  | effects.Delete b remoteName => fun w =>
      let '(err, s) := Delete (backend b w) remoteName in (err, set_backend b s w)
  | MkdirAll _ _ => fun w => (None, w)
  | RemoveAll _ => fun w => (None, w)
  | WriteFile _ _ _ => fun w => (None, w)
  | ReadFile _ => fun w => (Ok [], w)
  | NowUnix => fun w => (0%Z, w)
  | NowFormat _ => fun w => (EmptyString, w)
  | RandRead => fun w => ([], w)
  | executeCommand _ _ => fun w => (None, w)
  | handleDockerContainer _ _ => fun w => (None, w)
  | createArchive _ => fun w => (Ok [], w)
  | extractArchive _ _ => fun w => (None, w)
  end.

Definition storing (fs : list BackupFile) : MockStorage :=
  {| files := fs; deleted := []; listErr := None; deleteErr := None |}.
Definition failing_delete (fs : list BackupFile) (err : error) : MockStorage :=
  {| files := fs; deleted := []; listErr := None; deleteErr := Some err |}.
End mock.

(** ** What a cleanup leaves *)

Module retention.
Import storage config effects backup.

(** The names of the artifacts a trace asks backend [b] to delete. *)
Definition deletes_on (b : Backend) (trace : list event) : list string :=
  omap (fun e => match delete_of e with
                 | Some (b', n, _) => if decide (b' = b) then Some n else None
                 | None => None
                 end) trace.

(** [deleted] names exactly the artifacts of [listed] beyond the
    [retainCount] newest: the listing splits into the kept ones, as many as
    the count allows, and the deleted ones, none of them newer than a kept
    one. *)
Definition backend_cleaned (retainCount : Z) (listed : list BackupFile)
    (deleted : list string) : Prop :=
  exists kept due,
    Permutation (kept ++ due) listed /\
    length kept = min (Z.to_nat retainCount) (length listed) /\
    (forall k d, k ∈ kept -> d ∈ due -> newer d k = false) /\
    deleted = map Name due.

(** The calls made for one service: each configured backend is listed
    under the prefix of the service and cleaned by the count in force. *)
Definition service_cleaned (m : Manager) (s : string * Service) (seg : list event) : Prop :=
  exists synologyBackups s3Backups,
    omap list_of seg =
      (Synology, s.1 +:+ "-", Ok synologyBackups)
      :: (if has_S3 m then [(S3, s.1 +:+ "-", Ok s3Backups)] else []) /\
    backend_cleaned (retainCount m s.2) synologyBackups (deletes_on Synology seg) /\
    if has_S3 m then backend_cleaned (retainCount m s.2) s3Backups (deletes_on S3 seg)
    else deletes_on S3 seg = [].

Definition succeeded {A} (r : outcome A) : bool :=
  match r with Ok _ => true | _ => false end.
End retention.

(** ** The cleanup scenarios of the tests *)

Module scenario.
Import storage config backup mock.

Definition jan1 : BackupFile :=
  {| Name := "test-2024-01-01T00:00:00Z.enc"; Size := 0; ModTime := "2024-01-01 00:00:00 UTC" |}.
Definition jan2 : BackupFile :=
  {| Name := "test-2024-01-02T00:00:00Z.enc"; Size := 0; ModTime := "2024-01-02 00:00:00 UTC" |}.
Definition jan3 : BackupFile :=
  {| Name := "test-2024-01-03T00:00:00Z.enc"; Size := 0; ModTime := "2024-01-03 00:00:00 UTC" |}.
(** An artifact whose time does not parse, and one dated before year 1. *)
Definition undated : BackupFile :=
  {| Name := "test-undated.enc"; Size := 0; ModTime := "unknown" |}.
Definition year0 : BackupFile :=
  {| Name := "test-0000-12-31T23:59:59Z.enc"; Size := 0; ModTime := "0000-12-31 23:59:59 UTC" |}.

(** A manager for the one service [test] that keeps [retain] backups. *)
Definition manager (retain : Z) (secondary : bool) : Manager :=
  {| config_ :=
       {| Services :=
            {[ "test" := {| Path := ""; Schedule := ""; Docker_ := None; Exclude := [];
                            RetainBackups := Some retain; PreBackup := None |} ]};
          Backup := {| Backup_RetainBackups := 0 |} |};
     key := []; backupRoot := ""; has_S3 := secondary |}.

(** The service of that manager. *)
Definition service (retain : Z) : Service :=
  {| Path := ""; Schedule := ""; Docker_ := None; Exclude := [];
     RetainBackups := Some retain; PreBackup := None |}.

(** Both backends hold artifacts of the service. *)
Definition both : world :=
  {| Synology_ := storing [jan1; jan2; jan3]; S3_ := storing [jan2; jan3; year0; undated] |}.

(** [CleanupBackups] against the doubles: the result, the calls and the
    doubles afterwards. *)
Definition cleanup (retain : Z) (secondary : bool) (w : world) :=
  effects.run handle (CleanupBackups sort.Slice map_to_list (manager retain secondary) "test") w.
End scenario.


(** ** Inputs and notions the theorems are stated on *)

(** A 32-byte key and a key that differs from it in the last byte. *)
Definition key_A : list byte := list_byte_of_string "testkey0123456789012345678901234".
Definition key_B : list byte := list_byte_of_string "testkey0123456789012345678901235".
Definition zero_nonce : list byte := repeat x00 12.
Definition plaintext_A : list byte := hexB "01dbd2e9bbcd37001239e437d738cd50".
Definition plaintext_B : list byte := hexB "51a119080cc07d067e4fc9625fd5c3ca".

(** What [Encrypt] returns for [plaintext_A] under [key_A] and the zero nonce. *)
Definition sealed_A : list byte :=
  zero_nonce ++ hexB "480f363764f7a69fcc9ed2f2a52dc33b" ++ hexB "3171c0c775c16483021424e0e2c9944d".

(** All byte strings of a given length. *)
Definition all_bytes : list byte := map (fun i => byte_of_N (N.of_nat i)) (seq 0 256).
Fixpoint words (n : nat) : list (list byte) :=
  match n with
  | O => [[]]
  | S n' => w ← words n'; (fun b => b :: w) <$> all_bytes
  end.
Fixpoint pad (k : nat) : string :=
  match k with O => EmptyString | S k' => String "a"%char (pad k') end.

(** Input at which a hex string ends: the end of the text or a newline. *)
Definition stops (rest : string) : Prop :=
  rest = EmptyString \/ exists r, rest = String "010"%char r.

(** The in-memory file system is a file system. *)
#[global] Program Instance memfs_FileSystem : os.FileSystem os.memfs := {|
  os.MkdirAll := fun _ _ s => (None, s);
  os.WriteFile := fun name data _ s => (None, (name, data) :: s);
  os.ReadFile := os.mem_read
|}.
Next Obligation.
  intros name data perm s s' [= <-]. unfold os.mem_read. cbn [find fst snd].
  now rewrite String.eqb_refl.
Qed.

(** A salt of 16 bytes. *)
Definition salt_A : list byte := hexB "c638833f69bbfb3c267afa0a74434812".

(** A key of 2^29 bytes. *)
Definition huge_key : list byte := repeat x00 (N.to_nat 536870912).

(** A daemon whose container, without a health check, is seen running with
    the exit code of its previous run, and one whose container reports a
    healthy status with a nonzero exit code. *)
Definition daemon_running_exit1 : docker.daemon :=
  {| docker.stop_error := None; docker.start_error := None;
     docker.started := Ok {| docker.Running := false; docker.ExitCode := 1; docker.Health := None |};
     docker.polls := [ {| docker.elapsed := 0;
                          docker.inspect := Ok {| docker.Running := true; docker.ExitCode := 1;
                                                  docker.Health := None |} |} ] |}.
Definition daemon_healthy_exit137 : docker.daemon :=
  {| docker.stop_error := None; docker.start_error := None;
     docker.started := Ok {| docker.Running := true; docker.ExitCode := 0;
                             docker.Health := Some "starting" |};
     docker.polls := [ {| docker.elapsed := 1000000000;
                          docker.inspect := Ok {| docker.Running := false; docker.ExitCode := 137;
                                                  docker.Health := Some "healthy" |} |} ] |}.

(** The name by which an error names a backend. *)
Definition backend_name (b : storage.Backend) : string :=
  match b with storage.Synology => "Synology" | storage.S3 => "S3" end.

(** The uploads of one [CreateBackup], in order, against its result. *)
Definition upload_shape (m : backup.Manager)
    (ups : list (storage.Backend * string * string * option error)) (result : outcome ()) : Prop :=
  (ups = [] /\ result <> Ok ()) \/
  (exists l n e, ups = [(storage.Synology, l, n, Some e)]
                 /\ result = Err (wrap "failed to upload to Synology" e)) \/
  (exists l n, backup.has_S3 m = false /\ ups = [(storage.Synology, l, n, None)] /\ result = Ok ()) \/
  (exists l n e, backup.has_S3 m = true
                 /\ ups = [(storage.Synology, l, n, None); (storage.S3, l, n, Some e)]
                 /\ result = Err (wrap "failed to upload to S3" e)) \/
  (exists l n, backup.has_S3 m = true
               /\ ups = [(storage.Synology, l, n, None); (storage.S3, l, n, None)]
               /\ result = Ok ()).

(** The error with which the environment answered a call that
    [CreateBackup] makes before the uploads: creating the temporary
    directory, the pre-backup command, stopping the container, the archive
    and the local copy of the artifact. *)
Definition step_failure (e : effects.event) : option error :=
  match e with
  | effects.Ev c r =>
    match c in effects.call X return X -> option error with
    | effects.MkdirAll _ _ => fun r => r
    | effects.executeCommand _ _ => fun r => r
    | effects.handleDockerContainer _ stop => fun r => if stop then r else None
    | effects.createArchive _ =>
      fun r => match r with Ok _ => None | Err err => Some err | Panic msg => Some msg end
    | effects.WriteFile _ _ _ => fun r => r
    | _ => fun _ => None
    end r
  end.

(** The encryption of a run succeeds: the key of the manager is one AES
    accepts, and an archive made in the run encrypts under it with the
    random bytes read in the run. *)
Definition encrypts (m : backup.Manager) (trace : list effects.event) : Prop :=
  crypto.valid_key_length (backup.key m) /\
  forall rand sourcePath archive,
    rand ∈ omap effects.rand_of trace ->
    (sourcePath, Ok archive) ∈ omap effects.archive_of trace ->
    exists data, crypto.Encrypt rand (backup.key m) archive = Ok data.

(** A stand-in for [argon2.IDKey] in examples: [keyLen] zero bytes. *)
Definition zero_IDKey (password salt : list byte) (time memory threads : N) (keyLen : nat)
  : list byte := repeat x00 keyLen.


(** ** pkg/daemon: the job scheduled for a service *)

Module daemon.
Import effects backup.

Section Job.
Variable sort_Slice : (storage.BackupFile -> storage.BackupFile -> bool) ->
                      list storage.BackupFile -> list storage.BackupFile.
Variable range : gmap string config.Service -> list (string * config.Service).

(** The function [Start] hands to [cron.AddFunc] for a service: a backup
    and, when it succeeded, the cleanup of the old backups.  The result
    tells what the job logs: the error of the backup, the error of the
    cleanup, or the count it reads from the map under the service name. *)
Inductive report :=
| backup_failed (err : outcome ())
| cleanup_failed (err : outcome (gmap string Z))
| completed (count : Z).

Definition job (m : Manager) (serviceName : string) : prog report :=
  err ← CreateBackup m serviceName;
  match err with
  | Ok _ =>
    (* Clean up old backups *)
    deletedCounts ← CleanupBackups sort_Slice range m serviceName;
    match deletedCounts with
    | Ok deletedCounts => Ret (completed (default 0%Z (deletedCounts !! serviceName)))
    | _ => Ret (cleanup_failed deletedCounts)
    end
  | _ => Ret (backup_failed err)
  end.
End Job.
End daemon.

(** ** The window in which a container is down *)

Module window.
Import effects.

(** Where a run stands with the container of its service. *)
Inductive phase := before | down | restarted | refused.

(** The calls that must fall into the window: they read or write the
    directory tree of the service. *)
Definition touches_tree (e : event) : bool :=
  match e with
  | Ev c _ => match c with createArchive _ | extractArchive _ _ => true | _ => false end
  end.

(** One call, seen from a phase: [None] when the call is out of place. *)
Definition step (p : phase) (e : event) : option phase :=
  match container_of e with
  | Some (_, true, None) => match p with before => Some down | _ => None end
  | Some (_, true, Some _) => match p with before => Some refused | _ => None end
  | Some (_, false, _) => match p with down => Some restarted | _ => None end
  | None =>
    if touches_tree e then match p with down => Some down | _ => None end
    else Some p
  end.

Fixpoint phases (p : phase) (t : list event) : option phase :=
  match t with
  | [] => Some p
  | e :: t' => match step p e with Some p' => phases p' t' | None => None end
  end.

(** A trace keeps the window: the tree is touched only between a stop that
    succeeded and the start that follows it, and a container that was
    stopped is started again. *)
Definition kept (t : list event) : bool :=
  match phases before t with
  | Some before | Some restarted | Some refused => true
  | Some down | None => false
  end.
End window.

(** ** A service with a container, for examples *)

Module dockerized.
Import config backup.

Definition service : Service :=
  {| Path := "/srv/web"; Schedule := "0 2 * * *";
     Docker_ := Some {| Container := "web" |}; Exclude := [];
     RetainBackups := None; PreBackup := None |}.
Definition manager : Manager :=
  {| config_ := {| Services := {[ "web" := service ]};
                   Backup := {| Backup_RetainBackups := 7 |} |};
     key := repeat x00 32; backupRoot := "/tmp/packrat-backups"; has_S3 := true |}.
End dockerized.

(** ** Failures during a cleanup *)

Module failure.
Import storage effects.

(** The error [CleanupBackups] returns for a call that failed, if the
    failure is one it does not pass over. *)
Definition fatal (e : event) : option error :=
  match list_of e, delete_of e with
  | Some (b, _, Err err), _ =>
    Some (wrap ("failed to list " +:+ backend_name b +:+ " backups") err)
  | _, Some (Synology, remoteName, Some err) =>
    if strings.Contains err "file does not exist" then None
    else Some (wrap ("failed to delete Synology backup " +:+ remoteName) err)
  | _, Some (S3, remoteName, Some err) =>
    Some (wrap ("failed to delete S3 backup " +:+ remoteName) err)
  | _, _ => None
  end.

(** The first such failure of a trace, with the calls made after it. *)
Fixpoint first_fatal (t : list event) : option (error * list event) :=
  match t with
  | [] => None
  | e :: t' => match fatal e with Some msg => Some (msg, t') | None => first_fatal t' end
  end.

Definition list_or_delete (e : event) : bool :=
  match e with
  | Ev c _ => match c with List_ _ _ | Delete _ _ => true | _ => false end
  end.

(** The number of deletes on backend [b] that were answered without error. *)
Definition deleted_count (b : Backend) (t : list event) : Z :=
  Z.of_nat (length (omap (fun e => match delete_of e with
                                   | Some (b', n, None) => if decide (b' = b) then Some n else None
                                   | _ => None
                                   end) t)).
End failure.

(** A run stopped at its first failure: it made list and delete calls only,
    nothing after the first call that failed fatally, whose error it
    returns; without such a call it returns no error. *)
Definition stopped_at_failure {A} (result : outcome A) (trace : list effects.event) : Prop :=
  forallb failure.list_or_delete trace = true /\
  match failure.first_fatal trace with
  | Some (msg, post) => post = [] /\ result = Err msg
  | None => forall err, result <> Err err
  end.

(** ** Daemons for examples *)

(** A daemon whose container is seen running once and stopped at the next
    look, and one that cannot be reached when the loop inspects. *)
Definition daemon_stopping : docker.daemon :=
  {| docker.stop_error := None; docker.start_error := None;
     docker.started := Ok {| docker.Running := true; docker.ExitCode := 0; docker.Health := None |};
     docker.polls :=
       [ {| docker.elapsed := 0;
            docker.inspect := Ok {| docker.Running := true; docker.ExitCode := 0;
                                    docker.Health := None |} |};
         {| docker.elapsed := 100000000;
            docker.inspect := Ok {| docker.Running := false; docker.ExitCode := 0;
                                    docker.Health := None |} |} ] |}.
Definition daemon_unreachable : docker.daemon :=
  {| docker.stop_error := None; docker.start_error := None;
     docker.started := Ok {| docker.Running := false; docker.ExitCode := 0;
                             docker.Health := Some "starting" |};
     docker.polls :=
       [ {| docker.elapsed := 0; docker.inspect := Err "Cannot connect to the Docker daemon" |} ] |}.

(** ** The size of a directory tree *)

Fixpoint node_size (n : exclusion.node) : nat :=
  match n with
  | exclusion.directory entries =>
    S ((fix sum (es : list (string * exclusion.node)) : nat :=
          match es with
          | [] => 0
          | (_, c) :: es' => node_size c + sum es'
          end) entries)
  | _ => 1
  end.

(** ** An environment in memory, for examples *)

Module sandbox.
Import storage effects.

(** Local files, the objects of the backends, the bytes the archiver
    produces for the service, and what has been extracted where. *)
Record world := {
  files : list (string * list byte);
  stored : list (Backend * string * list byte);
  tree : list byte;
  extracted : list (list byte * string) }.

Definition read (name : string) (w : world) : outcome (list byte) :=
  match find (fun e => String.eqb e.1 name) (files w) with
  | Some e => Ok e.2
  | None => Err ("open " +:+ name +:+ ": no such file or directory")
  end.
Definition fetch (b : Backend) (remoteName : string) (w : world) : option (list byte) :=
  match find (fun e => bool_decide (e.1.1 = b) && String.eqb e.1.2 remoteName) (stored w) with
  | Some e => Some e.2
  | None => None
  end.

Definition handle (X : Type) (c : call X) : world -> X * world :=
  match c in call X return world -> X * world with
  | Upload b localPath remoteName => fun w =>
      match read localPath w with
      | Ok data =>
        (None, {| files := files w; stored := (b, remoteName, data) :: stored w;
                  tree := tree w; extracted := extracted w |})
      | Err err | Panic err => (Some (wrap "failed to open local file" err), w)
      end
  | Download b remoteName localPath => fun w =>
      match fetch b remoteName w with
      | Some data =>
        (None, {| files := (localPath, data) :: files w; stored := stored w;
                  tree := tree w; extracted := extracted w |})
      | None => (Some "failed to open remote file: file does not exist", w)
      end
  | List_ b prefix => fun w =>
      (Ok (omap (fun e => if bool_decide (e.1.1 = b) && strings.HasPrefix e.1.2 prefix
                          then Some {| Name := e.1.2; Size := Z.of_nat (length e.2);
                                       ModTime := "" |}
                          else None) (stored w)), w)
  | Delete b remoteName => fun w =>
      (None, {| files := files w;
                stored := List.filter (fun e => negb (bool_decide (e.1.1 = b)
                                                      && String.eqb e.1.2 remoteName))
                                      (stored w);
                tree := tree w; extracted := extracted w |})
  | MkdirAll _ _ => fun w => (None, w)
  | RemoveAll path => fun w =>
      (None, {| files := List.filter (fun e => negb (strings.HasPrefix e.1 (path +:+ "/")))
                                     (files w);
                stored := stored w; tree := tree w; extracted := extracted w |})
  | WriteFile name data _ => fun w =>
      (None, {| files := (name, data) :: files w; stored := stored w;
                tree := tree w; extracted := extracted w |})
  | ReadFile name => fun w => (read name w, w)
  | NowUnix => fun w => (1700000000%Z, w)
  | NowFormat _ => fun w => ("2023-11-14T22-13-20Z", w)
  | RandRead => fun w => (repeat x00 12, w)
  | executeCommand _ _ => fun w => (None, w)
  | handleDockerContainer _ _ => fun w => (None, w)
  | createArchive _ => fun w => (Ok (tree w), w)
  | extractArchive input destPath => fun w =>
      (None, {| files := files w; stored := stored w; tree := tree w;
                extracted := extracted w ++ [(input, destPath)] |})
  end.

(** Nothing stored yet; the archiver produces [plaintext_A]. *)
Definition fresh : world :=
  {| files := []; stored := []; tree := plaintext_A; extracted := [] |}.

(** The backup of the service [web], and its restore in what the backup
    left. *)
Definition backed_up := run handle (backup.CreateBackup dockerized.manager "web") fresh.
Definition restored :=
  run handle (backup.RestoreBackup dockerized.manager "web" "web-2023-11-14T22-13-20Z.enc")
      backed_up.2.
End sandbox.

(** ** cmd/packrat: what the list command shows for a service *)

Module cli.
Import storage effects.

Record backupInfo := { count : Z; latest : option BackupFile }.

Section Listing.
Variable sort_Slice : (BackupFile -> BackupFile -> bool) -> list BackupFile -> list BackupFile.

(** [getServiceBackupInfo(store, serviceName)]; [store] is [None] for a
    backend that is not configured.  The package has its own
    [parseBackupTime], the same function as the one of pkg/backup. *)
Definition getServiceBackupInfo (store : option Backend) (serviceName : string)
  : prog (outcome backupInfo) :=
  match store with
  | None => Ret (Ok {| count := 0; latest := None |})
  | Some store =>
    backups ← perform (List_ store (serviceName +:+ "-"));
    match backups with
    | Err err => Ret (Err err)
    | Panic msg => Ret (Panic msg)
    | Ok backups =>
      if (Z.of_nat (length backups) =? 0)%Z then Ret (Ok {| count := 0; latest := None |})
      else
        (* Sort backups by modification time (newest first) *)
        let backups := sort_Slice backup.newer backups in
        match backups with
        | first :: _ =>
          Ret (Ok {| count := Z.of_nat (length backups); latest := Some first |})
        | [] => Ret (Panic "runtime error: index out of range [0] with length 0")
        end
    end
  end.
End Listing.
End cli.

(** ** time: what [Format] prints for the layout of the listings *)

Module listing.
Local Open Scope Z_scope.

Definition digit (n : Z) : ascii := ascii_of_N (Z.to_N (48 + n)).
(** [appendInt(b, x, width)] for [0 <= x] with at most [width] digits. *)
Definition pad2 (x : Z) : string :=
  String (digit (x / 10)) (String (digit (x mod 10)) EmptyString).
Definition pad4 (x : Z) : string :=
  String (digit (x / 1000)) (String (digit (x / 100 mod 10)) (pad2 (x mod 100))).

(** [t.UTC().Format("2006-01-02 15:04:05 UTC")] for an instant whose date
    and clock in UTC are the given ones, the year from 0 to 9999. *)
Definition Format (year month day hour min sec : Z) : string :=
  pad4 year +:+ "-" +:+ pad2 month +:+ "-" +:+ pad2 day +:+ " "
  +:+ pad2 hour +:+ ":" +:+ pad2 min +:+ ":" +:+ pad2 sec +:+ " UTC".

(** A date and clock of the calendar. *)
Definition valid (year month day hour min sec : Z) : Prop :=
  0 <= year <= 9999 /\ 1 <= month <= 12 /\ 1 <= day <= time.daysIn month year /\
  0 <= hour < 24 /\ 0 <= min < 60 /\ 0 <= sec < 60.

(** The order of dates and clocks: field by field, the year first. *)
Definition later (a b : Z * Z * Z * Z * Z * Z) : Prop :=
  let '(y, mo, d, h, mi, s) := a in
  let '(y', mo', d', h', mi', s') := b in
  y' < y \/ (y = y' /\ (mo' < mo \/ (mo = mo' /\ (d' < d \/ (d = d' /\
    (h' < h \/ (h = h' /\ (mi' < mi \/ (mi = mi' /\ s' < s))))))))).
End listing.

Module cmd.
Import storage.
(** The [less] function [ListCmd] hands to [sort.Slice]:
    [backups[i].ModTime > backups[j].ModTime], the order of the strings byte
    by byte. *)
Definition listed_before (a b : BackupFile) : bool :=
  String.ltb (ModTime b) (ModTime a).
End cmd.


(** * Properties *)

(** * Authenticated encryption *)
Section ByteFacts.
Local Open Scope N_scope.

Lemma to_N_lt_256 (b : byte) : Byte.to_N b < 256.
Proof. pose proof (Byte.to_N_bounded b). lia. Qed.

Lemma byte_of_to_N (b : byte) : byte_of_N (Byte.to_N b) = b.
Proof.
  unfold byte_of_N. rewrite N.mod_small by apply to_N_lt_256.
  now rewrite Byte.of_to_N.
Qed.

Lemma to_N_byte_of_N (n : N) : n < 256 -> Byte.to_N (byte_of_N n) = n.
Proof.
  intros Hn. unfold byte_of_N. rewrite N.mod_small by assumption.
  destruct (Byte.of_N n) as [b|] eqn:E.
  - now apply Byte.to_of_N.
  - apply Byte.of_N_None_iff in E. lia.
Qed.

Lemma lxor_lt_256 (a b : N) : a < 256 -> b < 256 -> N.lxor a b < 256.
Proof.
  intros Ha Hb.
  destruct (N.eq_dec (N.lxor a b) 0) as [->|Hne]; [lia|].
  apply (N.log2_lt_pow2 _ 8); [lia|].
  eapply N.le_lt_trans; [apply N.log2_lxor|].
  apply N.max_lub_lt.
  - destruct (N.eq_dec a 0) as [->|?]; [reflexivity|]. apply N.log2_lt_pow2; lia.
  - destruct (N.eq_dec b 0) as [->|?]; [reflexivity|]. apply N.log2_lt_pow2; lia.
Qed.

Lemma byte_xor_involutive (b : byte) (k : N) : k < 256 -> byte_xor (byte_xor b k) k = b.
Proof.
  intros Hk. unfold byte_xor.
  rewrite to_N_byte_of_N by (apply lxor_lt_256; [apply to_N_lt_256|assumption]).
  rewrite N.lxor_assoc, N.lxor_nilpotent, N.lxor_0_r. apply byte_of_to_N.
Qed.

Lemma length_N_to_be n x : length (N_to_be n x) = n.
Proof. unfold N_to_be. now rewrite length_map, length_seq. Qed.

Lemma N_to_be_lt_256 n x : Forall (fun k => k < 256) (N_to_be n x).
Proof.
  unfold N_to_be. apply Forall_forall. intros k Hk.
  apply list_elem_of_fmap in Hk as (i & -> & _). apply N.mod_lt. lia.
Qed.
End ByteFacts.

Section GCMFacts.
Local Open Scope nat_scope.
Import cipher.

Lemma length_keystream g n c : length (keystream g n c) = 16 * n.
Proof.
  revert c. induction n as [|n IH]; intros c; cbn [keystream]; [reflexivity|].
  rewrite length_app, length_N_to_be, IH. lia.
Qed.

Lemma keystream_lt_256 g n c : Forall (fun k => (k < 256)%N) (keystream g n c).
Proof.
  revert c. induction n as [|n IH]; intros c; cbn [keystream]; [constructor|].
  apply Forall_app. split; [apply N_to_be_lt_256|apply IH].
Qed.

Lemma keystream_covers g (src : list byte) c :
  length src <= length (keystream g (length src / 16 + 1) c).
Proof.
  rewrite length_keystream.
  pose proof (Nat.div_mod_eq (length src) 16).
  pose proof (Nat.mod_upper_bound (length src) 16). lia.
Qed.

Lemma length_counterCrypt g src c : length (counterCrypt g src c) = length src.
Proof.
  unfold counterCrypt. rewrite length_zip_with.
  pose proof (keystream_covers g src c). lia.
Qed.

Lemma zip_with_byte_xor_involutive (src : list byte) (ks : list N) :
  Forall (fun k => (k < 256)%N) ks -> length src <= length ks ->
  zip_with byte_xor (zip_with byte_xor src ks) ks = src.
Proof.
  revert ks. induction src as [|b src IH]; intros [|k ks] Hks Hlen; simpl in *; try reflexivity; try lia.
  inversion Hks; subst. rewrite byte_xor_involutive by assumption.
  f_equal. apply IH; [assumption|lia].
Qed.

(** Counter mode is its own inverse. *)
Lemma counterCrypt_involutive g src c :
  counterCrypt g (counterCrypt g src c) c = src.
Proof.
  unfold counterCrypt at 1. rewrite length_counterCrypt. unfold counterCrypt.
  apply zip_with_byte_xor_involutive; [apply keystream_lt_256|apply keystream_covers].
Qed.

Lemma length_auth g ct ad mask : length (auth g ct ad mask) = gcmTagSize.
Proof. unfold auth, Ns_to_bytes. now rewrite length_map, length_N_to_be. Qed.
End GCMFacts.

(** What [Open] computes on a body followed by a 16-byte tag: the size
    check, then the tag comparison. *)
Lemma Open_body_tag g nonce body tag :
  length nonce = 12 -> length tag = 16 ->
  cipher.Open g [] nonce (body ++ tag) [] =
    if (cipher.maxPlaintext <? N.of_nat (length body))%N then Err cipher.errOpen
    else if bool_decide (cipher.auth g body [] (aes.Encrypt (cipher.cipher_block g) (cipher.deriveCounter nonce)) = tag)
    then Ok (cipher.counterCrypt g body (cipher.gcmInc32 (cipher.deriveCounter nonce)))
    else Err cipher.errOpen.
Proof.
  intros Hn Ht. unfold cipher.Open.
  rewrite Hn. change (negb (12 =? cipher.gcmStandardNonceSize)) with false. cbv iota.
  rewrite length_app, Ht.
  replace (length body + 16 <? cipher.gcmTagSize) with false
    by (symmetry; apply Nat.ltb_ge; unfold cipher.gcmTagSize; lia).
  replace (cipher.maxPlaintext + N.of_nat cipher.gcmTagSize <? N.of_nat (length body + 16))%N
    with (cipher.maxPlaintext <? N.of_nat (length body))%N.
  2:{ unfold cipher.gcmTagSize.
      destruct (N.ltb_spec cipher.maxPlaintext (N.of_nat (length body)));
        symmetry; [apply N.ltb_lt|apply N.ltb_ge]; lia. }
  destruct (_ <? _)%N; [reflexivity|]. cbv zeta.
  replace (length body + 16 - cipher.gcmTagSize) with (length body) by (unfold cipher.gcmTagSize; lia).
  rewrite take_app_length, drop_app_length.
  destruct (bool_decide _); reflexivity.
Qed.


Section Cipher.
Import crypto.

Lemma NewCipher_valid key :
  valid_key_length key -> aes.NewCipher key = Ok {| aes.block_key := key |}.
Proof. unfold aes.NewCipher. intros [->|[->| ->]]; reflexivity. Qed.

Lemma Open_split key nonce body tag :
  length nonce = 12 -> length tag = 16 ->
  cipher.Open (gcm_of key) [] nonce (body ++ tag) [] =
    if (cipher.maxPlaintext <? N.of_nat (length body))%N then Err cipher.errOpen
    else if bool_decide (sealed_tag key nonce body = tag)
    then Ok (keystream_xor key nonce body) else Err cipher.errOpen.
Proof. intros Hn Ht. unfold sealed_tag, keystream_xor. now apply Open_body_tag. Qed.

Lemma Decrypt_unfold key c :
  valid_key_length key ->
  Decrypt key c =
    if length c <? 12 then Err "ciphertext too short"
    else match cipher.Open (gcm_of key) [] (take 12 c) (drop 12 c) [] with
         | Ok plaintext => Ok plaintext
         | Err err => Err (wrap "failed to decrypt" err)
         | Panic msg => Panic msg
         end.
Proof. intros Hk. unfold Decrypt. now rewrite (NewCipher_valid _ Hk). Qed.

Lemma Decrypt_split_gen key nonce body tag :
  valid_key_length key -> length nonce = 12 -> length tag = 16 ->
  Decrypt key (nonce ++ body ++ tag) =
    if (cipher.maxPlaintext <? N.of_nat (length body))%N then Err errDecrypt
    else if bool_decide (sealed_tag key nonce body = tag)
    then Ok (keystream_xor key nonce body) else Err errDecrypt.
Proof.
  intros Hk Hn Ht. rewrite Decrypt_unfold by assumption.
  rewrite length_app, Hn.
  replace (12 + length (body ++ tag) <? 12) with false by (symmetry; apply Nat.ltb_ge; lia).
  rewrite <- Hn, take_app_length, drop_app_length, Open_split by assumption.
  destruct (_ <? _)%N; [reflexivity|]. destruct (bool_decide _); reflexivity.
Qed.

Lemma Decrypt_split key nonce body tag :
  valid_key_length key -> length nonce = 12 -> length tag = 16 ->
  (N.of_nat (length body) <= cipher.maxPlaintext)%N ->
  Decrypt key (nonce ++ body ++ tag) =
    if bool_decide (sealed_tag key nonce body = tag)
    then Ok (keystream_xor key nonce body) else Err errDecrypt.
Proof.
  intros Hk Hn Ht Hb. rewrite Decrypt_split_gen by assumption.
  replace (cipher.maxPlaintext <? N.of_nat (length body))%N with false
    by (symmetry; apply N.ltb_ge; lia).
  reflexivity.
Qed.

Lemma Encrypt_unfold rand key plaintext :
  valid_key_length key -> 12 <= length rand ->
  (N.of_nat (length plaintext) <= cipher.maxPlaintext)%N ->
  Encrypt rand key plaintext =
    Ok (take 12 rand ++ keystream_xor key (take 12 rand) plaintext
          ++ sealed_tag key (take 12 rand) (keystream_xor key (take 12 rand) plaintext)).
Proof.
  intros Hk Hr Hp. unfold Encrypt. rewrite (NewCipher_valid _ Hk).
  cbn [cipher.NewGCM]. unfold io.ReadFull.
  change (cipher.NonceSize _) with 12.
  replace (12 <=? length rand) with true by (symmetry; apply Nat.leb_le; lia).
  cbv iota. unfold cipher.Seal. rewrite length_take.
  replace (12 `min` length rand) with 12 by lia.
  change (negb (12 =? cipher.gcmStandardNonceSize)) with false. cbv iota.
  replace (cipher.maxPlaintext <? N.of_nat (length plaintext))%N with false
    by (symmetry; apply N.ltb_ge; lia).
  reflexivity.
Qed.

(** C1 (amended): a sealed message opens under its own key to the plaintext;
    under another key of valid length it opens exactly when the tag
    recomputed under that key agrees with the sealed one, and is otherwise
    refused with the decryption error. *)
Theorem Decrypt_Encrypt (rand key plaintext : list byte) :
  length key = 32 -> 12 <= length rand ->
  (N.of_nat (length plaintext) <= cipher.maxPlaintext)%N ->
  exists nonce body,
    nonce = take 12 rand /\
    Encrypt rand key plaintext = Ok (nonce ++ body ++ sealed_tag key nonce body) /\
    Decrypt key (nonce ++ body ++ sealed_tag key nonce body) = Ok plaintext /\
    forall key', valid_key_length key' -> key' <> key ->
      (sealed_tag key' nonce body <> sealed_tag key nonce body ->
       Decrypt key' (nonce ++ body ++ sealed_tag key nonce body) = Err errDecrypt) /\
      (sealed_tag key' nonce body = sealed_tag key nonce body ->
       Decrypt key' (nonce ++ body ++ sealed_tag key nonce body) = Ok (keystream_xor key' nonce body)).
Proof.
  intros Hk Hr Hp.
  assert (Hv : valid_key_length key) by (right; right; exact Hk).
  assert (Hn : length (take 12 rand) = 12) by (rewrite length_take; lia).
  exists (take 12 rand), (keystream_xor key (take 12 rand) plaintext).
  assert (Hb : (N.of_nat (length (keystream_xor key (take 12 rand) plaintext)) <= cipher.maxPlaintext)%N).
  { unfold keystream_xor. now rewrite length_counterCrypt. }
  assert (Ht : forall k, length (sealed_tag k (take 12 rand) (keystream_xor key (take 12 rand) plaintext)) = 16).
  { intros k. unfold sealed_tag. exact (length_auth _ _ _ _). }
  split; [reflexivity|]. split; [now apply Encrypt_unfold|]. split.
  - rewrite Decrypt_split by auto. rewrite bool_decide_eq_true_2 by reflexivity.
    f_equal. apply counterCrypt_involutive.
  - intros key' Hv' _. split; intros Htag; rewrite Decrypt_split by auto.
    + now rewrite bool_decide_eq_false_2.
    + now rewrite bool_decide_eq_true_2.
Qed.

(** C7: [Decrypt] under a 32-byte key refuses, without any plaintext, an
    input shorter than one nonce and every input whose authentication check
    fails (too short to hold a tag, or a tag that differs from the one
    recomputed over the body, as after a change of key, corruption or
    truncation); it returns a plaintext only for an input that passes the
    check. *)
Theorem Decrypt_rejects (key c : list byte) :
  length key = 32 ->
  (length c < 12 -> Decrypt key c = Err "ciphertext too short") /\
  (12 <= length c < 28 -> Decrypt key c = Err errDecrypt) /\
  (forall nonce body tag,
     c = nonce ++ body ++ tag -> length nonce = 12 -> length tag = 16 ->
     sealed_tag key nonce body <> tag -> Decrypt key c = Err errDecrypt) /\
  (forall e, 12 <= length c ->
     cipher.Open (gcm_of key) [] (take 12 c) (drop 12 c) [] = Err e ->
     Decrypt key c = Err (wrap "failed to decrypt" e)) /\
  (forall p, Decrypt key c = Ok p ->
     exists nonce body tag,
       c = nonce ++ body ++ tag /\ length nonce = 12 /\ length tag = 16 /\
       sealed_tag key nonce body = tag /\ p = keystream_xor key nonce body).
Proof.
  intros Hk.
  assert (Hv : valid_key_length key) by (right; right; exact Hk).
  split; [|split; [|split; [|split]]].
  - intros Hc. rewrite Decrypt_unfold by assumption.
    now replace (length c <? 12) with true by (symmetry; apply Nat.ltb_lt; lia).
  - intros Hc. rewrite Decrypt_unfold by assumption.
    replace (length c <? 12) with false by (symmetry; apply Nat.ltb_ge; lia).
    unfold cipher.Open. rewrite length_take, length_drop.
    replace (12 `min` length c) with 12 by lia.
    change (negb (12 =? cipher.gcmStandardNonceSize)) with false. cbv iota.
    now replace (length c - 12 <? cipher.gcmTagSize) with true
      by (symmetry; apply Nat.ltb_lt; unfold cipher.gcmTagSize; lia).
  - intros nonce body tag -> Hn Ht Hne. rewrite Decrypt_split_gen by assumption.
    destruct (_ <? _)%N; [reflexivity|]. now rewrite bool_decide_eq_false_2.
  - intros e Hc HO. rewrite Decrypt_unfold by assumption.
    replace (length c <? 12) with false by (symmetry; apply Nat.ltb_ge; lia).
    now rewrite HO.
  - intros p HD. rewrite Decrypt_unfold in HD by assumption.
    destruct (Nat.ltb_spec (length c) 12) as [|Hc]; [discriminate|].
    destruct (Nat.lt_ge_cases (length c) 28) as [Hs|Hl].
    { exfalso. revert HD. unfold cipher.Open. rewrite length_take, length_drop.
      replace (12 `min` length c) with 12 by lia.
      change (negb (12 =? cipher.gcmStandardNonceSize)) with false. cbv iota.
      now replace (length c - 12 <? cipher.gcmTagSize) with true
        by (symmetry; apply Nat.ltb_lt; unfold cipher.gcmTagSize; lia). }
    set (nonce := take 12 c) in *. set (rest := drop 12 c) in *.
    set (body := take (length rest - 16) rest). set (tag := drop (length rest - 16) rest).
    assert (Hrest : length rest = length c - 12) by (unfold rest; now rewrite length_drop).
    assert (Hn : length nonce = 12) by (unfold nonce; rewrite length_take; lia).
    assert (Ht : length tag = 16) by (unfold tag; rewrite length_drop; lia).
    assert (Hsplit : rest = body ++ tag) by (unfold body, tag; now rewrite take_drop).
    exists nonce, body, tag.
    rewrite Hsplit, Open_split in HD by assumption.
    split; [|split; [assumption|split; [assumption|]]].
    + rewrite <- Hsplit. unfold nonce, rest. now rewrite take_drop.
    + destruct (_ <? _)%N; [discriminate|].
      destruct (bool_decide_reflect (sealed_tag key nonce body = tag)); [|discriminate].
      split; [assumption|]. now injection HD.
Qed.
End Cipher.


Lemma Encrypt_key_A : crypto.Encrypt zero_nonce key_A plaintext_A = Ok sealed_A.
Proof. vm_compute. reflexivity. Qed.

Lemma Decrypt_Encrypt_witness : crypto.Decrypt key_A sealed_A = Ok plaintext_A.
Proof.
  destruct (Decrypt_Encrypt zero_nonce key_A plaintext_A) as (nonce & body & _ & HE & HD & _).
  - reflexivity.
  - vm_compute. lia.
  - vm_compute. discriminate.
  - rewrite Encrypt_key_A in HE. injection HE as HE. rewrite HE. exact HD.
Defined.

Lemma Decrypt_rejects_witness : crypto.Decrypt key_A [] = Err "ciphertext too short".
Proof.
  apply (Decrypt_rejects key_A []).
  - reflexivity.
  - cbn [length]. lia.
Defined.

Lemma Encrypt_oversize rand key plaintext :
  crypto.valid_key_length key -> 12 <= length rand ->
  (cipher.maxPlaintext < N.of_nat (length plaintext))%N ->
  crypto.Encrypt rand key plaintext = Panic "crypto/cipher: message too large for GCM".
Proof.
  intros Hk Hr Hp. unfold crypto.Encrypt. rewrite (NewCipher_valid _ Hk).
  cbn [cipher.NewGCM]. unfold io.ReadFull.
  change (cipher.NonceSize _) with 12.
  replace (12 <=? length rand) with true by (symmetry; apply Nat.leb_le; lia).
  cbv iota. unfold cipher.Seal. rewrite length_take.
  replace (12 `min` length rand) with 12 by lia.
  change (negb (12 =? cipher.gcmStandardNonceSize)) with false. cbv iota.
  replace (cipher.maxPlaintext <? N.of_nat (length plaintext))%N with true
    by (symmetry; apply N.ltb_lt; lia).
  reflexivity.
Qed.

(** C1 as stated fails: the message sealed under [key_A] opens under the
    different key [key_B], to a different plaintext; and a plaintext of 2^36
    bytes is not encrypted at all. *)
Lemma Decrypt_other_key_accepts :
  crypto.valid_key_length key_B /\ key_B <> key_A /\
  crypto.Encrypt zero_nonce key_A plaintext_A = Ok sealed_A /\
  crypto.Decrypt key_B sealed_A = Ok plaintext_B /\
  plaintext_B <> plaintext_A /\
  crypto.Encrypt zero_nonce key_A (repeat x00 (N.to_nat 68719476736))
    = Panic "crypto/cipher: message too large for GCM".
Proof.
  split; [right; right; reflexivity|].
  split; [intros Heq; vm_compute in Heq; discriminate Heq|].
  split; [exact Encrypt_key_A|].
  split; [vm_compute; reflexivity|].
  split; [intros Heq; vm_compute in Heq; discriminate Heq|].
  apply Encrypt_oversize.
  - right; right; reflexivity.
  - unfold zero_nonce. rewrite repeat_length. lia.
  - rewrite repeat_length, N2Nat.id. reflexivity.
Qed.


(** * Key derivation *)

Lemma length_Sum256 data : length (sha256.Sum256 data) = sha256.Size.
Proof.
  unfold sha256.Sum256, Ns_to_bytes. rewrite length_map.
  cbn [map concat]. now rewrite !length_app, !length_N_to_be.
Qed.

Lemma generateDeterministicSalt_prefix password :
  crypto.generateDeterministicSalt password
  = take 16 (sha256.Sum256 (list_byte_of_string password)).
Proof.
  unfold crypto.generateDeterministicSalt, copy, crypto.SaltSize.
  rewrite !length_take, length_Sum256, repeat_length. unfold sha256.Size.
  change (16 `min` 32) with 16. change (16 `min` 16) with 16.
  change (drop 16 (repeat "000"%byte 16)) with (@nil byte).
  rewrite app_nil_r. apply take_take.
Qed.

Lemma length_generateDeterministicSalt password :
  length (crypto.generateDeterministicSalt password) = crypto.SaltSize.
Proof.
  rewrite generateDeterministicSalt_prefix, length_take, length_Sum256. reflexivity.
Qed.


Lemma all_bytes_complete (b : byte) : b ∈ all_bytes.
Proof.
  unfold all_bytes. apply list_elem_of_fmap. exists (N.to_nat (Byte.to_N b)). split.
  - now rewrite N2Nat.id, byte_of_to_N.
  - apply elem_of_seq. pose proof (to_N_lt_256 b). lia.
Qed.

Lemma words_complete (l : list byte) : l ∈ words (length l).
Proof.
  induction l as [|b l IH]; cbn [length words]; [apply list_elem_of_singleton; reflexivity|].
  apply list_elem_of_bind. exists l. split; [|exact IH].
  apply list_elem_of_fmap. exists b. split; [reflexivity|apply all_bytes_complete].
Qed.

Lemma length_words n : length (words n) = 256 ^ n.
Proof.
  induction n as [|n IH]; [reflexivity|].
  cbn [words]. rewrite Nat.pow_succ_r', <- IH.
  generalize (words n). intros ws. induction ws as [|w ws IHws]; [reflexivity|].
  cbn [mbind list_bind]. change (mbind ?f ws) with (list_bind _ _ f ws) in *.
  rewrite length_app, length_fmap. unfold all_bytes at 1. rewrite length_map, length_seq.
  cbn [length]. rewrite IHws. lia.
Qed.

Lemma length_pad k : String.length (pad k) = k.
Proof. induction k; simpl; congruence. Qed.

(** A function from passwords to byte strings of one fixed length takes the
    same value at two different passwords. *)
Lemma fixed_length_collision (f : string -> list byte) (n : nat) :
  (forall W, length (f W) = n) ->
  ~ (forall W1 W2, W1 <> W2 -> f W1 <> f W2).
Proof.
  intros Hlen Hinj.
  set (D := pad <$> seq 0 (S (256 ^ n))).
  assert (HD : NoDup (f <$> D)).
  { apply NoDup_fmap_2_strong.
    - intros x y _ _ Hxy. destruct (decide (x = y)) as [|Hne]; [assumption|].
      now destruct (Hinj x y Hne).
    - unfold D. apply NoDup_fmap_2_strong; [|apply NoDup_seq].
      intros x y _ _ Hxy. apply (f_equal String.length) in Hxy. now rewrite !length_pad in Hxy. }
  assert (Hsub : f <$> D ⊆+ words n).
  { apply NoDup_submseteq; [exact HD|]. intros l Hl.
    apply list_elem_of_fmap in Hl as (W & -> & _). rewrite <- (Hlen W). apply words_complete. }
  apply submseteq_length in Hsub.
  rewrite length_fmap, length_words in Hsub. unfold D in Hsub.
  rewrite length_fmap, length_seq in Hsub. lia.
Qed.

(** C8 (amended): [DeriveKey] is a function of the password alone; its salt
    is the first 16 bytes of the SHA-256 hash of the password bytes and its
    key the Argon2id output for time cost 3, memory cost 64 MiB (65536 KiB),
    parallelism 2 and 32 bytes of output over (password, salt). *)
Theorem DeriveKey_deterministic
    (IDKey : list byte -> list byte -> N -> N -> N -> nat -> list byte) (password : string) :
  crypto.DeriveKey IDKey password
  = (IDKey (list_byte_of_string password)
           (take 16 (sha256.Sum256 (list_byte_of_string password))) 3%N 65536%N 2%N 32,
     take 16 (sha256.Sum256 (list_byte_of_string password)),
     None)
  /\ length (take 16 (sha256.Sum256 (list_byte_of_string password))) = 16.
Proof.
  split.
  - unfold crypto.DeriveKey. now rewrite generateDeterministicSalt_prefix.
  - now rewrite length_take, length_Sum256.
Qed.

(** C8 as stated fails: whatever 32-byte key Argon2id returns, two different
    passwords are mapped to the same (key, salt) pair. *)
Lemma DeriveKey_not_injective :
  ~ exists IDKey : list byte -> list byte -> N -> N -> N -> nat -> list byte,
      (forall p s t m th n, length (IDKey p s t m th n) = n) /\
      (forall W1 W2, W1 <> W2 -> crypto.DeriveKey IDKey W1 <> crypto.DeriveKey IDKey W2).
Proof.
  intros (IDKey & Hlen & Hinj).
  apply (fixed_length_collision
           (fun W => (crypto.DeriveKey IDKey W).1.1 ++ (crypto.DeriveKey IDKey W).1.2) 48).
  - intros W. cbn [crypto.DeriveKey fst snd].
    now rewrite length_app, Hlen, length_generateDeterministicSalt.
  - intros W1 W2 Hne Heq. apply (Hinj W1 W2 Hne).
    cbn [crypto.DeriveKey fst snd] in Heq. unfold crypto.DeriveKey.
    apply app_inj_1 in Heq as [-> ->]; [reflexivity|]. now rewrite !Hlen.
Qed.


(** * The key file *)
Section Scan.
Import fmt.
Local Open Scope N_scope.

Lemma digit_facts (k : N) :
  k < 16 ->
  N_of_ascii (digit k) < 128 /\ hexDigit (N_of_ascii (digit k)) = Some k /\
  isSpace (N_of_ascii (digit k)) = false /\ (N_of_ascii (digit k) =? newline) = false.
Proof.
  intros Hk. rewrite <- (N2Nat.id k). assert (Hn : (N.to_nat k < 16)%nat) by lia.
  generalize dependent (N.to_nat k). clear. intros n Hn.
  do 16 (destruct n as [|n]; [vm_compute; repeat split; reflexivity|]). lia.
Qed.

Lemma getRune_ascii c r cnt :
  N_of_ascii c < 128 -> cnt < hugeWid ->
  getRune {| rs := String c r; count := cnt |} = Some (N_of_ascii c, {| rs := r; count := cnt + 1 |}).
Proof.
  intros Hc Hcnt. unfold getRune. cbn [rs count].
  replace (hugeWid <=? cnt) with false by (symmetry; apply N.leb_gt; assumption).
  unfold utf8.DecodeRuneInString, utf8.RuneSelf.
  replace (N_of_ascii c <? 128) with true by (symmetry; apply N.ltb_lt; assumption).
  reflexivity.
Qed.

Lemma getRune_empty cnt : getRune {| rs := EmptyString; count := cnt |} = None.
Proof. unfold getRune. cbn [rs count]. destruct (hugeWid <=? cnt); reflexivity. Qed.

Lemma getRune_budget s : hugeWid <= count s -> getRune s = None.
Proof. intros H. unfold getRune. now replace (hugeWid <=? count s) with true by (symmetry; apply N.leb_le; assumption). Qed.


Lemma hexByte_stops rest cnt :
  stops rest ->
  hexByte {| rs := rest; count := cnt |} = Ok (None, {| rs := rest; count := cnt |}).
Proof.
  intros [->|[r ->]]; unfold hexByte.
  - now rewrite getRune_empty.
  - destruct (N.lt_ge_cases cnt hugeWid) as [Hlt|Hge].
    + rewrite getRune_ascii; [reflexivity|reflexivity|assumption].
    + now rewrite getRune_budget.
Qed.

Lemma fmtSbx_one (x : byte) r :
  fmtSbx [x] +:+ r = String (digit (Byte.to_N x / 16)) (String (digit (Byte.to_N x mod 16)) r).
Proof. reflexivity. Qed.

Lemma hexByte_digits (x : byte) r cnt :
  cnt + 2 <= hugeWid ->
  hexByte {| rs := fmtSbx [x] +:+ r; count := cnt |} = Ok (Some x, {| rs := r; count := cnt + 2 |}).
Proof.
  intros Hcnt. rewrite fmtSbx_one. unfold hexByte.
  pose proof (to_N_lt_256 x) as Hx.
  assert (H1 : Byte.to_N x / 16 < 16) by (apply N.Div0.div_lt_upper_bound; lia).
  assert (H2 : Byte.to_N x mod 16 < 16) by (apply N.mod_lt; lia).
  destruct (digit_facts _ H1) as (A1 & B1 & _). destruct (digit_facts _ H2) as (A2 & B2 & _).
  rewrite getRune_ascii, B1 by (assumption || lia).
  rewrite getRune_ascii, B2 by (assumption || lia).
  rewrite (N.mul_comm _ 16), <- N.div_mod by lia. rewrite byte_of_to_N.
  now rewrite <- N.add_assoc.
Qed.

Lemma fmtSbx_cons x bs : fmtSbx (x :: bs) = fmtSbx [x] +:+ fmtSbx bs.
Proof. reflexivity. Qed.

Lemma length_fmtSbx bs : String.length (fmtSbx bs) = (2 * length bs)%nat.
Proof. induction bs as [|x bs IH]; cbn [fmtSbx String.length length]; [reflexivity|]. rewrite IH. lia. Qed.

Lemma string_app_cons (x : ascii) (a b : string) : String x a +:+ b = String x (a +:+ b).
Proof. reflexivity. Qed.

Lemma string_app_assoc (a b c : string) : (a +:+ b) +:+ c = a +:+ (b +:+ c).
Proof.
  induction a as [|x a IH]; [reflexivity|].
  now rewrite !string_app_cons, IH.
Qed.

Lemma string_length_app (a b : string) : String.length (a +:+ b) = (String.length a + String.length b)%nat.
Proof.
  induction a as [|x a IH]; [reflexivity|].
  rewrite string_app_cons. cbn [String.length]. now rewrite IH.
Qed.

Lemma string_app_nil_r (a : string) : a +:+ EmptyString = a.
Proof.
  induction a as [|x a IH]; [reflexivity|].
  now rewrite string_app_cons, IH.
Qed.

(** The hex-string loop reads back what [fmtSbx] printed. *)
Lemma hexString_loop_fmtSbx bs : forall rest cnt buf fuel,
  stops rest -> cnt + 2 * N.of_nat (length bs) <= hugeWid -> (length bs < fuel)%nat ->
  hexString_loop fuel {| rs := fmtSbx bs +:+ rest; count := cnt |} buf
  = Ok (buf ++ bs, {| rs := rest; count := cnt + 2 * N.of_nat (length bs) |}).
Proof.
  induction bs as [|x bs IH]; intros rest cnt buf fuel Hstop Hcnt Hfuel.
  - destruct fuel as [|fuel]; [cbn in Hfuel; lia|].
    cbn [hexString_loop length]. change (fmtSbx [] +:+ rest) with rest.
    rewrite hexByte_stops by assumption.
    cbn. rewrite app_nil_r. do 3 f_equal. lia.
  - destruct fuel as [|fuel]; [cbn in Hfuel; lia|].
    cbn [length] in *. cbn [hexString_loop].
    rewrite fmtSbx_cons, string_app_assoc, hexByte_digits by lia.
    cbn [mbind outcome_bind]. rewrite IH by (assumption || lia).
    rewrite <- app_assoc. cbn [app]. do 3 f_equal. lia.
Qed.

Lemma head_digit (bs : list byte) rest :
  bs <> [] -> exists c r, fmtSbx bs +:+ rest = String c r /\ N_of_ascii c < 128 /\
                          isSpace (N_of_ascii c) = false /\ (N_of_ascii c =? newline) = false.
Proof.
  destruct bs as [|x bs]; [congruence|]. intros _.
  rewrite fmtSbx_cons, string_app_assoc, fmtSbx_one.
  pose proof (to_N_lt_256 x) as Hx.
  assert (H1 : Byte.to_N x / 16 < 16) by (apply N.Div0.div_lt_upper_bound; lia).
  destruct (digit_facts _ H1) as (A & _ & B & C). eauto 10.
Qed.

Lemma SkipSpace_digit bs rest cnt :
  bs <> [] -> cnt < hugeWid ->
  SkipSpace {| rs := fmtSbx bs +:+ rest; count := cnt |} = Ok {| rs := fmtSbx bs +:+ rest; count := cnt |}.
Proof.
  intros Hbs Hcnt. destruct (head_digit bs rest Hbs) as (c & r & -> & A & B & C).
  unfold SkipSpace. cbn [rs SkipSpace_loop]. rewrite getRune_ascii, C, B by assumption. reflexivity.
Qed.

Lemma notEOF_digit bs rest cnt :
  bs <> [] -> cnt < hugeWid ->
  notEOF {| rs := fmtSbx bs +:+ rest; count := cnt |} = Ok {| rs := fmtSbx bs +:+ rest; count := cnt |}.
Proof.
  intros Hbs Hcnt. destruct (head_digit bs rest Hbs) as (c & r & -> & A & B & C).
  unfold notEOF. now rewrite getRune_ascii by assumption.
Qed.

Lemma scanOne_x_fmtSbx bs rest cnt :
  bs <> [] -> stops rest -> cnt + 2 * N.of_nat (length bs) <= hugeWid ->
  scanOne_x {| rs := fmtSbx bs +:+ rest; count := cnt |}
  = Ok (bs, {| rs := rest; count := cnt + 2 * N.of_nat (length bs) |}).
Proof.
  intros Hbs Hstop Hcnt.
  assert (Hlt : cnt < hugeWid) by (destruct bs; [congruence|cbn [length] in Hcnt; lia]).
  unfold scanOne_x, hexString.
  rewrite SkipSpace_digit by assumption. cbn [mbind outcome_bind].
  rewrite notEOF_digit by assumption. cbn [mbind outcome_bind].
  rewrite notEOF_digit by assumption. cbn [mbind outcome_bind rs].
  rewrite hexString_loop_fmtSbx; [|assumption|assumption|].
  - cbn [mbind outcome_bind app]. destruct bs; [congruence|reflexivity].
  - rewrite string_length_app, length_fmtSbx. lia.
Qed.

(** Scanning what was printed returns the two byte strings, as long as the
    text fits the rune budget of one scan. *)
Lemma Sscanf_Sprintf (a b : list byte) :
  a <> [] -> b <> [] ->
  N.of_nat (String.length (Sprintf_x_nl_x a b)) <= hugeWid ->
  Sscanf_x_nl_x (Sprintf_x_nl_x a b) = Ok (a, b).
Proof.
  intros Ha Hb Hlen. unfold Sprintf_x_nl_x in *.
  rewrite !string_length_app, !length_fmtSbx in Hlen. cbn [nl String.length] in Hlen.
  assert (Hb1 : (1 <= length b)%nat) by (destruct b; [congruence|cbn; lia]).
  unfold Sscanf_x_nl_x.
  rewrite SkipSpace_digit by (assumption || (unfold hugeWid; lia)). cbn [mbind outcome_bind].
  rewrite scanOne_x_fmtSbx; [|assumption|right; eexists; reflexivity|lia].
  cbn [mbind outcome_bind]. unfold advance_nl. cbn [rs advance_nl_loop].
  change (nl +:+ fmtSbx b) with (String "010"%char (fmtSbx b)).
  rewrite getRune_ascii; [|reflexivity|lia].
  change (N_of_ascii "010" =? newline) with true. cbv iota. cbn [mbind outcome_bind].
  rewrite <- (string_app_nil_r (fmtSbx b)) at 1.
  rewrite SkipSpace_digit by (assumption || lia). cbn [mbind outcome_bind].
  rewrite scanOne_x_fmtSbx; [reflexivity|assumption|left; reflexivity|lia].
Qed.
End Scan.


Section KeyFile.
Context {fs : Type} `{os.FileSystem fs}.

(** C10 (amended): a key file that was saved is loaded back unchanged, for a
    non-empty key and salt whose hex text fits the rune budget of one scan. *)
Theorem LoadKey_SaveKey (key salt : list byte) (keyPath : string) (s s' : fs) :
  key <> [] -> salt <> [] ->
  (N.of_nat (String.length (fmt.Sprintf_x_nl_x key salt)) <= fmt.hugeWid)%N ->
  crypto.SaveKey key salt keyPath s = (None, s') ->
  crypto.LoadKey keyPath s' = Ok (key, salt).
Proof.
  intros Hk Hs Hlen Hsave. unfold crypto.SaveKey in Hsave.
  destruct (os.MkdirAll _ _ s) as [[e|] s1]; [discriminate|].
  apply os.ReadFile_WriteFile in Hsave. unfold crypto.LoadKey.
  now rewrite Hsave, string_of_list_byte_of_string, Sscanf_Sprintf.
Qed.
End KeyFile.


Lemma LoadKey_SaveKey_witness :
  crypto.LoadKey "/root/.config/packrat/key"
    (snd (crypto.SaveKey key_A salt_A "/root/.config/packrat/key" ([] : os.memfs)))
  = Ok (key_A, salt_A).
Proof.
  apply (LoadKey_SaveKey key_A salt_A "/root/.config/packrat/key" [] _).
  - vm_compute. discriminate.
  - vm_compute. discriminate.
  - vm_compute. discriminate.
  - reflexivity.
Defined.

(** A scan that has used up its rune budget before the second operand
    reports the end of input. *)
Lemma Sscanf_budget (a b : list byte) :
  a <> [] -> (2 * N.of_nat (length a) = fmt.hugeWid)%N ->
  fmt.Sscanf_x_nl_x (fmt.Sprintf_x_nl_x a b) = Err fmt.EOF.
Proof.
  intros Ha Hlen. unfold fmt.Sprintf_x_nl_x, fmt.Sscanf_x_nl_x.
  rewrite SkipSpace_digit by (assumption || (unfold fmt.hugeWid; lia)). cbn [mbind outcome_bind].
  rewrite scanOne_x_fmtSbx; [|assumption|right; eexists; reflexivity|lia].
  cbn [mbind outcome_bind]. rewrite N.add_0_l, Hlen.
  unfold fmt.advance_nl. cbn [fmt.rs fmt.advance_nl_loop].
  rewrite getRune_budget by (cbn [fmt.count]; lia). cbn [mbind outcome_bind].
  unfold fmt.SkipSpace. cbn [fmt.rs fmt.SkipSpace_loop].
  rewrite getRune_budget by (cbn [fmt.count]; lia). cbn [mbind outcome_bind].
  unfold fmt.scanOne_x, fmt.SkipSpace. cbn [fmt.rs fmt.SkipSpace_loop].
  rewrite getRune_budget by (cbn [fmt.count]; lia). cbn [mbind outcome_bind].
  unfold fmt.notEOF. rewrite getRune_budget by (cbn [fmt.count]; lia). reflexivity.
Qed.


(** C10 as stated fails for a key whose hex text uses up the rune budget:
    the file is written, and loading it reports a parse error. *)
Lemma LoadKey_SaveKey_huge :
  huge_key <> [] /\ [x01] <> [] /\
  exists s' : os.memfs,
    crypto.SaveKey huge_key [x01] "key" [] = (None, s') /\
    crypto.LoadKey "key" s' = Err "failed to parse key file: EOF".
Proof.
  assert (Hne : huge_key <> []).
  { unfold huge_key. intros Heq. apply (f_equal length) in Heq.
    rewrite repeat_length in Heq. cbn [length] in Heq. lia. }
  split; [exact Hne|]. split; [discriminate|].
  exists [("key", list_byte_of_string (fmt.Sprintf_x_nl_x huge_key [x01]))].
  split; [reflexivity|].
  unfold crypto.LoadKey. cbn [os.ReadFile memfs_FileSystem]. unfold os.mem_read.
  cbn [find fst snd]. rewrite String.eqb_refl. cbn [snd].
  rewrite string_of_list_byte_of_string, Sscanf_budget; [reflexivity|exact Hne|].
  unfold huge_key. rewrite repeat_length, N2Nat.id. reflexivity.
Qed.


(** * The container lifecycle *)
Section Lifecycle.
Import docker backup.
Local Open Scope Z_scope.

(** A polling loop returns what the first deciding observation decides. *)
Lemma poll_decides step before o after r :
  Forall (fun o' => step o' = Again) before -> step o = Done r ->
  poll step (before ++ o :: after) = Some r.
Proof.
  intros Hb Ho. induction Hb as [|o' before Ho' _ IH]; cbn [app poll].
  - now rewrite Ho.
  - now rewrite Ho'.
Qed.

Lemma poll_decided step obs r :
  poll step obs = Some r ->
  exists before o after,
    obs = before ++ o :: after /\ Forall (fun o' => step o' = Again) before /\ step o = Done r.
Proof.
  induction obs as [|o obs IH]; cbn [poll]; [discriminate|].
  destruct (step o) as [r'|] eqn:Ho.
  - intros [= <-]. exists [], o, obs. auto.
  - intros H. destruct (IH H) as (before & o' & after & -> & Hb & Ho').
    exists (o :: before), o', after. auto.
Qed.

Lemma timed_out_iff o : timed_out o = true <-> 2 * Minute <= elapsed o.
Proof. unfold timed_out. apply Z.leb_le. Qed.

Lemma health_turn_success name o :
  health_turn name o = Done (Ok ()) ->
  elapsed o < 2 * Minute /\ exists info, inspect o = Ok info /\ Health info = Some "healthy".
Proof.
  unfold health_turn. destruct (timed_out o) eqn:Ht; [discriminate|].
  assert (elapsed o < 2 * Minute) by (unfold timed_out in Ht; apply Z.leb_gt in Ht; exact Ht).
  destruct (inspect o) as [info|e|msg]; try discriminate.
  destruct (Health info) as [status|] eqn:Hs; [|discriminate].
  destruct (String.eqb_spec status "healthy") as [->|_].
  - intros _. split; [assumption|]. now exists info.
  - destruct (String.eqb status "unhealthy"); discriminate.
Qed.

Lemma running_turn_success name o :
  running_turn name o = Done (Ok ()) ->
  elapsed o < 2 * Minute /\ exists info, inspect o = Ok info /\ Running info = true.
Proof.
  unfold running_turn. destruct (timed_out o) eqn:Ht; [discriminate|].
  assert (elapsed o < 2 * Minute) by (unfold timed_out in Ht; apply Z.leb_gt in Ht; exact Ht).
  destruct (inspect o) as [info|e|msg]; try discriminate.
  destruct (Running info) eqn:Hr.
  - intros _. split; [assumption|]. now exists info.
  - destruct (negb (ExitCode info =? 0)); discriminate.
Qed.

(** C9 (amended): after a start request that succeeded, the resume loop is
    decided by the first observation that does not ask for another poll.
    With a health check declared it succeeds only on status healthy, fails
    on unhealthy and on the timer; without one it succeeds only on the
    running flag, fails on a nonzero exit code of a container that is not
    running and on the timer.  Success is never reported on an observation
    whose status is unhealthy, nor, without a health check, on one whose
    running flag is unset. *)
Theorem resume_outcome (d : daemon) (containerName : string) (info0 : ContainerState) :
  start_error d = None -> started d = Ok info0 ->
  (Health info0 <> None ->
     (handleDockerContainer d containerName false = Some (Ok ()) ->
      exists before o info after,
        polls d = before ++ o :: after /\
        Forall (fun o' => health_turn containerName o' = Again) before /\
        elapsed o < 2 * Minute /\ inspect o = Ok info /\ Health info = Some "healthy") /\
     (forall before o info after,
        polls d = before ++ o :: after ->
        Forall (fun o' => health_turn containerName o' = Again) before ->
        elapsed o < 2 * Minute -> inspect o = Ok info -> Health info = Some "unhealthy" ->
        handleDockerContainer d containerName false
        = Some (Err ("container " +:+ containerName +:+ " is unhealthy after start"))) /\
     (forall before o after,
        polls d = before ++ o :: after ->
        Forall (fun o' => health_turn containerName o' = Again) before ->
        2 * Minute <= elapsed o ->
        handleDockerContainer d containerName false
        = Some (Err ("timeout waiting for container " +:+ containerName +:+ " to become healthy")))) /\
  (Health info0 = None ->
     (handleDockerContainer d containerName false = Some (Ok ()) ->
      exists before o info after,
        polls d = before ++ o :: after /\
        Forall (fun o' => running_turn containerName o' = Again) before /\
        elapsed o < 2 * Minute /\ inspect o = Ok info /\ Running info = true) /\
     (forall before o info after,
        polls d = before ++ o :: after ->
        Forall (fun o' => running_turn containerName o' = Again) before ->
        elapsed o < 2 * Minute -> inspect o = Ok info ->
        Running info = false -> ExitCode info <> 0 ->
        handleDockerContainer d containerName false
        = Some (Err ("container " +:+ containerName +:+ " failed to start (exit code: "
                     +:+ pretty (ExitCode info) +:+ ")"))) /\
     (forall before o after,
        polls d = before ++ o :: after ->
        Forall (fun o' => running_turn containerName o' = Again) before ->
        2 * Minute <= elapsed o ->
        handleDockerContainer d containerName false
        = Some (Err ("timeout waiting for container " +:+ containerName +:+ " to start")))).
Proof.
  intros Hstart Hinfo. unfold handleDockerContainer. rewrite Hstart, Hinfo.
  split; intros Hh.
  - destruct (Health info0) as [s0|]; [clear Hh|congruence].
    split; [|split].
    + intros Hp. apply poll_decided in Hp as (before & o & after & Hpolls & Hb & Ho).
      apply health_turn_success in Ho as (Ht & info & Hi & Hs).
      exists before, o, info, after. auto.
    + intros before o info after -> Hb Ht Hi Hs. apply poll_decides; [assumption|].
      unfold health_turn.
      replace (timed_out o) with false by (symmetry; unfold timed_out; apply Z.leb_gt; lia).
      now rewrite Hi, Hs.
    + intros before o after -> Hb Ht. apply poll_decides; [assumption|].
      unfold health_turn. now replace (timed_out o) with true by (symmetry; apply timed_out_iff; lia).
  - rewrite Hh. split; [|split].
    + intros Hp. apply poll_decided in Hp as (before & o & after & Hpolls & Hb & Ho).
      apply running_turn_success in Ho as (Ht & info & Hi & Hr).
      exists before, o, info, after. auto.
    + intros before o info after -> Hb Ht Hi Hr He. apply poll_decides; [assumption|].
      unfold running_turn.
      replace (timed_out o) with false by (symmetry; unfold timed_out; apply Z.leb_gt; lia).
      rewrite Hi, Hr.
      now replace (ExitCode info =? 0) with false by (symmetry; apply Z.eqb_neq; assumption).
    + intros before o after -> Hb Ht. apply poll_decides; [assumption|].
      unfold running_turn. now replace (timed_out o) with true by (symmetry; apply timed_out_iff; lia).
Qed.
End Lifecycle.


(** C9 as stated fails: success is reported although the last observed exit
    code is nonzero. *)
Lemma resume_success_nonzero_exit :
  backup.handleDockerContainer daemon_running_exit1 "web" false = Some (Ok ()) /\
  backup.handleDockerContainer daemon_healthy_exit137 "web" false = Some (Ok ()).
Proof. split; reflexivity. Qed.

Lemma resume_outcome_witness :
  exists before o info after,
    docker.polls daemon_running_exit1 = before ++ o :: after /\
    Forall (fun o' => backup.running_turn "web" o' = backup.Again) before /\
    (docker.elapsed o < 2 * backup.Minute)%Z /\ docker.inspect o = Ok info /\
    docker.Running info = true.
Proof.
  refine (proj1 (proj2 (resume_outcome daemon_running_exit1 "web" _ _ _) _) _); reflexivity.
Defined.


(** * Upload and download across the backends *)
Section Orchestration.
Import storage config effects backup.
Context {W : Type} (h : forall X, call X -> W -> X * W).

Lemma run_bind {A B} (p : prog A) (f : A -> prog B) (w : W) :
  run h (bind p f) w =
    let '(a, t, w') := run h p w in
    let '(b, t', w'') := run h (f a) w' in
    (b, t ++ t', w'').
Proof.
  revert w. induction p as [a|X c k IH]; intros w; cbn [bind run].
  - destruct (run h (f a) w) as [[b t'] w'']. reflexivity.
  - destruct (h X c w) as [r w']. rewrite IH.
    destruct (run h (k r) w') as [[a t] w1]. destruct (run h (f a) w1) as [[b t'] w2]. reflexivity.
Qed.

(** Symbolic execution of a program: unfold the next call and split on its
    answer. *)
Ltac exec :=
  repeat first
    [ progress cbn [run bind mbind prog_bind mret prog_ret perform ok_or cipher.NewGCM
                    omap list_omap upload_of download_of delete_of list_of read_of extract_of
                    write_of rand_of archive_of mkdir_of step_failure head app fst snd]
    | match goal with
      | |- context [aes.NewCipher ?k] =>
        let E := fresh "HCipher" in destruct (aes.NewCipher k) as [?|?|?] eqn:E
      | |- context [h ?X ?c ?w] =>
        let r := fresh "r" in let w' := fresh "w" in
        destruct (h X c w) as [r w'];
        lazymatch type of r with
        | option _ => destruct r as [?|]
        | outcome _ => destruct r as [?|?|?]
        | _ => idtac
        end
      | |- context [crypto.Encrypt ?a ?b ?c] =>
        let E := fresh "HEnc" in destruct (crypto.Encrypt a b c) as [?|?|?] eqn:E
      | |- context [crypto.Decrypt ?a ?b] => destruct (crypto.Decrypt a b) as [?|?|?]
      end ].


Ltac shape :=
  split; [|reflexivity];
  first [ solve [left; split; [reflexivity|discriminate]]
        | solve [right; left; do 3 eexists; split; reflexivity]
        | solve [right; right; left; do 2 eexists; split; [first [assumption|reflexivity]|split; reflexivity]]
        | solve [right; right; right; left; do 3 eexists; split; [first [assumption|reflexivity]|split; reflexivity]]
        | solve [right; right; right; right; do 2 eexists; split; [first [assumption|reflexivity]|split; reflexivity]] ].

Lemma CreateBackup_shape m serviceName w :
  let '(result, trace, _) := run h (CreateBackup m serviceName) w in
  upload_shape m (omap upload_of trace) result /\ omap delete_of trace = [].
Proof.
  unfold CreateBackup, archiveAndUpload, Encrypt, upload_shape.
  destruct (Services (config_ m) !! serviceName) as [service|]; [|exec; shape].
  destruct (PreBackup service), (Docker_ service), (has_S3 m) eqn:HS3; exec; shape.
Qed.

(** The primary upload is attempted: with the file just written, and in
    every run in which nothing before it failed. *)
Lemma CreateBackup_attempts m serviceName w :
  let '(_, trace, _) := run h (CreateBackup m serviceName) w in
  (forall p d perm, (p, d, perm, None) ∈ omap write_of trace ->
     exists n r, head (omap upload_of trace) = Some (Synology, p, n, r)) /\
  (Services (config_ m) !! serviceName <> None ->
   omap step_failure trace = [] -> encrypts m trace ->
   exists l n r, head (omap upload_of trace) = Some (Synology, l, n, r)).
Proof.
  unfold CreateBackup, archiveAndUpload, Encrypt, encrypts.
  destruct (Services (config_ m) !! serviceName) as [service|];
    [|exec; split; [intros ? ? ? Hin; inversion Hin|congruence]].
  destruct (PreBackup service), (Docker_ service), (has_S3 m); exec;
    (split;
     [ intros xp xd xperm Hin;
       first [ solve [inversion Hin]
             | apply list_elem_of_singleton in Hin;
               first [discriminate Hin | injection Hin as -> -> ->; do 2 eexists; reflexivity] ]
     | intros _ Hfail [Hkey Hseal];
       first [ discriminate Hfail
             | solve [do 3 eexists; reflexivity]
             | rewrite (NewCipher_valid _ Hkey) in HCipher; discriminate HCipher
             | edestruct Hseal as [xdata Hdata];
               [left|left|rewrite Hdata in HEnc; discriminate HEnc] ] ]).
Qed.

(** C5: [CreateBackup] uploads to the primary backend first and to the
    secondary, when one is configured, only after the primary accepted the
    artifact; an upload that fails makes the whole call fail with an error
    naming that backend; no delete is issued, so a copy already uploaded
    stays; and success means every configured backend accepted the upload
    of the same local file under the same name.  The upload is attempted:
    the primary is asked for the file as soon as it is written, and it is
    asked in every run for a configured service in which no earlier step
    fails (the temporary directory, the pre-backup command, stopping the
    container, the archive, its encryption and the local copy). *)
Theorem CreateBackup_uploads (m : Manager) (serviceName : string) (w : W) :
  let '(result, trace, _) := run h (CreateBackup m serviceName) w in
  let uploads := omap upload_of trace in
  (uploads = [] \/
   (exists l n r, uploads = [(Synology, l, n, r)] /\ (r = None -> has_S3 m = false)) \/
   (exists l n r, has_S3 m = true /\ uploads = [(Synology, l, n, None); (S3, l, n, r)])) /\
  (forall b l n e, (b, l, n, Some e) ∈ uploads ->
     result = Err (wrap ("failed to upload to " +:+ backend_name b) e)) /\
  omap delete_of trace = [] /\
  (result = Ok () ->
     exists l n, (Synology, l, n, None) ∈ uploads /\
                 (has_S3 m = true -> (S3, l, n, None) ∈ uploads)) /\
  (forall p d perm, (p, d, perm, None) ∈ omap write_of trace ->
     exists n r, head uploads = Some (Synology, p, n, r)) /\
  (Services (config_ m) !! serviceName <> None ->
   omap step_failure trace = [] -> encrypts m trace ->
   exists l n r, head uploads = Some (Synology, l, n, r)).
Proof.
  pose proof (CreateBackup_shape m serviceName w) as H.
  pose proof (CreateBackup_attempts m serviceName w) as Ha.
  destruct (run h (CreateBackup m serviceName) w) as [[result trace] w'].
  destruct H as [Hs Hd]. cbv zeta.
  cut ((omap upload_of trace = [] \/
        (exists l n r, omap upload_of trace = [(Synology, l, n, r)] /\
                       (r = None -> has_S3 m = false)) \/
        (exists l n r, has_S3 m = true /\
                       omap upload_of trace = [(Synology, l, n, None); (S3, l, n, r)])) /\
       (forall b l n e, (b, l, n, Some e) ∈ omap upload_of trace ->
          result = Err (wrap ("failed to upload to " +:+ backend_name b) e)) /\
       omap delete_of trace = [] /\
       (result = Ok () ->
          exists l n, (Synology, l, n, None) ∈ omap upload_of trace /\
                      (has_S3 m = true -> (S3, l, n, None) ∈ omap upload_of trace))).
  { intros (H1 & H2 & H3 & H4). destruct Ha as [H5 H6].
    exact (conj H1 (conj H2 (conj H3 (conj H4 (conj H5 H6))))). }
  clear Ha. unfold upload_shape in Hs.
  destruct Hs as [[-> Hr]|[(l & n & e & -> & ->)|[(l & n & HS & -> & ->)|[(l & n & e & HS & -> & ->)|(l & n & HS & -> & ->)]]]].
  - split; [auto|]. split; [intros ? ? ? ? Hin; inversion Hin|]. split; [assumption|]. congruence.
  - split; [right; left; exists l, n, (Some e); split; [reflexivity|discriminate]|].
    split; [|split; [assumption|discriminate]].
    intros b l' n' e' Hin. apply list_elem_of_singleton in Hin. now injection Hin as -> -> -> ->.
  - split; [right; left; exists l, n, None; auto|].
    split; [|split; [assumption|]].
    + intros b l' n' e' Hin. apply list_elem_of_singleton in Hin. discriminate.
    + intros _. exists l, n. split; [apply list_elem_of_singleton; reflexivity|congruence].
  - split; [right; right; exists l, n, (Some e); auto|].
    split; [|split; [assumption|discriminate]].
    intros b l' n' e' Hin. apply elem_of_cons in Hin as [Hin|Hin]; [discriminate|].
    apply list_elem_of_singleton in Hin. now injection Hin as -> -> -> ->.
  - split; [right; right; exists l, n, None; auto|].
    split; [|split; [assumption|]].
    + intros b l' n' e' Hin. apply elem_of_cons in Hin as [Hin|Hin]; [discriminate|].
      apply list_elem_of_singleton in Hin. discriminate.
    + intros _. exists l, n. split; [left|intros _; right; left].
Qed.

(** C6: [RestoreBackup] asks the primary backend first, and it does ask in
    every run but the two that end before: the service is not configured,
    or the temporary directory cannot be created.  When that download
    fails, whatever the failure, and a secondary is configured, it asks the
    secondary for the same artifact and, on success, goes on to read the
    copy the secondary wrote.  When no secondary is configured or the
    secondary fails too, it returns a download error and neither reads (so
    decrypts) nor extracts anything. *)
Theorem RestoreBackup_downloads (m : Manager) (serviceName backupName : string) (w : W) :
  let '(result, trace, _) := run h (RestoreBackup m serviceName backupName) w in
  let downloads := omap download_of trace in
  let untouched := omap read_of trace = [] /\ omap extract_of trace = [] in
  (Services (config_ m) !! serviceName = None /\ trace = [] /\
   result = Err ("service " +:+ serviceName +:+ " not found in configuration")) \/
  (exists d e, omap mkdir_of trace = [(d, 448%N, Some e)] /\ downloads = [] /\
     result = Err (wrap "failed to create temporary directory" e) /\ untouched) \/
  (exists l, downloads = [(Synology, backupName, l, None)] /\ omap read_of trace = [l]) \/
  (exists l e, has_S3 m = false /\
     downloads = [(Synology, backupName, l, Some e)] /\
     result = Err (wrap "failed to download backup from Synology" e) /\ untouched) \/
  (exists l e, has_S3 m = true /\
     downloads = [(Synology, backupName, l, Some e); (S3, backupName, l, None)] /\
     omap read_of trace = [l]) \/
  (exists l e e', has_S3 m = true /\
     downloads = [(Synology, backupName, l, Some e); (S3, backupName, l, Some e')] /\
     result = Err (wrap "failed to download backup from any storage" e') /\ untouched).
Proof.
  unfold RestoreBackup, decryptAndExtract.
  destruct (Services (config_ m) !! serviceName) as [service|];
    [|exec; left; repeat split].
  destruct (Docker_ service), (has_S3 m) eqn:HS3; exec; cbn [mkdir_of];
    first [ solve [right; left; do 2 eexists; repeat split]
          | solve [right; right; left; eexists; split; reflexivity]
          | solve [right; right; right; left; do 2 eexists; repeat split]
          | solve [right; right; right; right; left; do 2 eexists; repeat split]
          | solve [right; right; right; right; right; do 3 eexists; repeat split] ].
Qed.
End Orchestration.

Lemma CreateBackup_uploads_witness :
  exists l n r,
    head (omap effects.upload_of sandbox.backed_up.1.2) = Some (storage.Synology, l, n, r).
Proof.
  assert (E : effects.run sandbox.handle (backup.CreateBackup dockerized.manager "web")
                sandbox.fresh
              = (sandbox.backed_up.1.1, sandbox.backed_up.1.2, sandbox.backed_up.2)).
  { unfold sandbox.backed_up. destruct (effects.run _ _ _) as [[? ?] ?]. reflexivity. }
  pose proof (CreateBackup_uploads sandbox.handle dockerized.manager "web" sandbox.fresh) as H.
  rewrite E in H. destruct H as (_ & _ & _ & _ & _ & H). apply H.
  - vm_compute. discriminate.
  - vm_compute. reflexivity.
  - split; [right; right; reflexivity|].
    intros rand sourcePath archive Hr Ha. vm_compute in Hr, Ha.
    apply list_elem_of_singleton in Hr. apply list_elem_of_singleton in Ha.
    injection Ha as _ ->. subst rand. eexists. vm_compute. reflexivity.
Defined.


(** * Lexical path processing *)
Section FilepathFacts.
Import filepath.

Lemma weight_cons e l : weight (e :: l) = S (String.length e + weight l).
Proof. reflexivity. Qed.
Lemma weight_nil : weight [] = 0%nat.
Proof. reflexivity. Qed.

Lemma split_nonempty s : split s <> [].
Proof.
  destruct s as [|c r]; cbn [split]; [discriminate|].
  destruct (Ascii.eqb c Separator); [discriminate|].
  destruct (split r); discriminate.
Qed.

Lemma weight_split s : weight (split s) = S (String.length s).
Proof.
  induction s as [|c r IH]; [reflexivity|].
  cbn [split String.length].
  destruct (Ascii.eqb c Separator).
  - rewrite weight_cons, IH. cbn [String.length]. lia.
  - pose proof (split_nonempty r) as Hne.
    destruct (split r) as [|e es]; [congruence|].
    rewrite weight_cons in *. cbn [String.length]. lia.
Qed.

Lemma weight_app l1 l2 : weight (l1 ++ l2) = (weight l1 + weight l2)%nat.
Proof.
  induction l1 as [|e l1 IH]; [reflexivity|].
  change (weight ((e :: l1) ++ l2)) with (S (String.length e + weight (l1 ++ l2))).
  change (weight (e :: l1)) with (S (String.length e + weight l1)).
  lia.
Qed.


Lemma weight_rev l : weight (rev l) = weight l.
Proof.
  induction l as [|e l IH]; [reflexivity|].
  cbn [rev]. rewrite weight_app, IH, !weight_cons, weight_nil. lia.
Qed.

Lemma length_join l : l <> [] -> S (String.length (join l)) = weight l.
Proof.
  induction l as [|e l IH]; [congruence|intros _].
  destruct l as [|e' l].
  - cbn [join]. rewrite weight_cons, weight_nil. lia.
  - change (join (e :: e' :: l)) with (e +:+ String Separator (join (e' :: l))).
    rewrite string_length_app. cbn [String.length].
    change (weight (e :: e' :: l)) with (S (String.length e + weight (e' :: l))).
    rewrite <- IH by discriminate. lia.
Qed.

Lemma weight_clean_step r out e :
  (weight (clean_step r out e) <= weight out + S (String.length e))%nat.
Proof.
  unfold clean_step.
  destruct (String.eqb e "" || String.eqb e "."); [lia|].
  destruct (String.eqb e "..") eqn:E.
  - apply String.eqb_eq in E as ->.
    destruct out as [|top rest].
    + destruct r; rewrite ?weight_cons, ?weight_nil; cbn [String.length]; lia.
    + destruct (String.eqb top ".."); rewrite ?weight_cons; cbn [String.length]; lia.
  - rewrite weight_cons. lia.
Qed.

Lemma weight_fold r es : forall out,
  (weight (fold_left (clean_step r) es out) <= weight out + weight es)%nat.
Proof.
  induction es as [|e es IH]; intros out; cbn [fold_left].
  - rewrite weight_nil. lia.
  - specialize (IH (clean_step r out e)).
    pose proof (weight_clean_step r out e).
    change (weight (e :: es)) with (S (String.length e + weight es)). lia.
Qed.

(** [Clean] never lengthens a path that is not empty. *)
Lemma length_Clean s : s <> "" -> (String.length (Clean s) <= String.length s)%nat.
Proof.
  intros Hs. unfold Clean.
  destruct (String.eqb s "") eqn:E; [apply String.eqb_eq in E; congruence|].
  destruct s as [|c s']; [congruence|].
  cbn [rooted]. destruct (Ascii.eqb c Separator) eqn:Ec.
  - cbn [split]. rewrite Ec. cbn [fold_left].
    change (clean_step true [] "") with (@nil string).
    pose proof (weight_fold true (split s') []) as Hw.
    rewrite weight_split, weight_nil in Hw.
    set (out := fold_left (clean_step true) (split s') []) in *.
    cbn [String.length].
    destruct (rev out) as [|e l] eqn:Er.
    + cbn. lia.
    + pose proof (length_join (e :: l) ltac:(discriminate)) as Hj.
      assert (weight (e :: l) = weight out) by (rewrite <- Er; apply weight_rev). lia.
  - pose proof (weight_fold false (split (String c s')) []) as Hw.
    rewrite weight_split, weight_nil in Hw.
    set (out := fold_left (clean_step false) (split (String c s')) []) in *.
    destruct (rev out) as [|e l] eqn:Er.
    + cbn. lia.
    + pose proof (length_join (e :: l) ltac:(discriminate)) as Hj.
      assert (weight (e :: l) = weight out) by (rewrite <- Er; apply weight_rev). lia.
Qed.

Lemma split_app_sep a b : split (a +:+ String Separator b) = split a ++ split b.
Proof.
  induction a as [|c a IH].
  - reflexivity.
  - rewrite string_app_cons. cbn [split]. rewrite IH.
    destruct (Ascii.eqb c Separator); [reflexivity|].
    pose proof (split_nonempty a) as Hne.
    destruct (split a) as [|e es]; [congruence|reflexivity].
Qed.

(** A separator at the end of a path does not change what [Clean] returns. *)
Lemma Clean_trailing_separator t :
  t <> "" -> Clean (t +:+ String Separator "") = Clean t.
Proof.
  intros Ht. destruct t as [|c t]; [congruence|].
  unfold Clean. rewrite string_app_cons.
  change (String.eqb (String c _) "") with false.
  cbn [rooted].
  rewrite <- string_app_cons, split_app_sep.
  rewrite fold_left_app. reflexivity.
Qed.

Lemma Dir_dot : Dir "." = ".".
Proof. reflexivity. Qed.
Lemma Dir_root : Dir "/" = "/".
Proof. reflexivity. Qed.

(** Each turn of the parent loop ends it or shortens the path. *)
Lemma Dir_shrinks d :
  Dir d = "." \/ Dir d = "/" \/ (String.length (Dir d) < String.length d)%nat.
Proof.
  unfold Dir, upto_last_separator.
  pose proof (weight_split d) as Hw.
  pose proof (split_nonempty d) as Hne.
  rewrite (app_removelast_last "" Hne), weight_app, weight_cons, weight_nil in Hw.
  destruct (removelast (split d)) as [|e es] eqn:Er; [left; reflexivity|].
  pose proof (length_join (e :: es) ltac:(discriminate)) as Hj.
  destruct (join (e :: es)) as [|c t] eqn:Ej.
  - right; left. reflexivity.
  - right; right. rewrite Clean_trailing_separator by discriminate.
    pose proof (length_Clean (String c t) ltac:(discriminate)). lia.
Qed.
End FilepathFacts.

(** * Exclusion *)
Section Exclusion.
Import exclusion.

Lemma parentMatches_ancestors fuel pattern : forall dir,
  parentMatches fuel pattern dir = existsb (matches pattern) (ancestors fuel dir).
Proof.
  induction fuel as [|f IH]; intros dir; [reflexivity|].
  cbn [parentMatches ancestors].
  destruct (negb (String.eqb dir ".") && negb (String.eqb dir "/")); [|reflexivity].
  cbn [existsb]. rewrite <- IH. unfold matches, parent.
  destruct (doublestar.Match pattern (filepath.ToSlash (filepath.Dir dir))) as [matched err].
  destruct (bool_decide (err = None) && matched); reflexivity.
Qed.

(** The loop visits iterated parents only. *)
Lemma ancestors_iter fuel : forall dir d,
  In d (ancestors fuel dir) -> exists k, d = Nat.iter (S k) parent dir.
Proof.
  induction fuel as [|f IH]; intros dir d; cbn [ancestors]; [intros []|].
  destruct (negb (String.eqb dir ".") && negb (String.eqb dir "/")); [|intros []].
  intros [<-|Hin].
  - exists 0%nat. reflexivity.
  - destruct (IH _ _ Hin) as [k ->]. exists (S k).
    rewrite (Nat.iter_succ_r (S k)). reflexivity.
Qed.

Lemma iter_fixed (f : string -> string) x k : f x = x -> Nat.iter k f x = x.
Proof. intros Hf. induction k as [|k IH]; [reflexivity|]. rewrite Nat.iter_succ. now rewrite IH. Qed.

(** With fuel beyond the length of the path the loop visits every iterated
    parent: it ends only at a path that is its own parent. *)
Lemma iter_ancestors fuel : forall dir,
  dir = "." \/ dir = "/" \/ (String.length dir < fuel)%nat ->
  forall k, Nat.iter k parent dir = dir \/ In (Nat.iter k parent dir) (ancestors fuel dir).
Proof.
  induction fuel as [|f IH]; intros dir Hdir k.
  - left. destruct Hdir as [->|[->|Hlt]]; [now apply iter_fixed..|lia].
  - destruct (String.eqb dir ".") eqn:E1; [apply String.eqb_eq in E1 as ->; left; now apply iter_fixed|].
    destruct (String.eqb dir "/") eqn:E2; [apply String.eqb_eq in E2 as ->; left; now apply iter_fixed|].
    destruct k as [|k]; [left; reflexivity|right].
    cbn [ancestors]. rewrite E1, E2. cbn [negb andb].
    rewrite Nat.iter_succ_r.
    assert (Hp : parent dir = "." \/ parent dir = "/" \/ (String.length (parent dir) < f)%nat).
    { destruct (Dir_shrinks dir) as [H|[H|H]]; [now left|now right; left|right; right].
      apply String.eqb_neq in E1, E2.
      destruct Hdir as [?|[?|Hlt]]; [congruence..|]. unfold parent, filepath.ToSlash. lia. }
    destruct (IH _ Hp k) as [->|Hin]; [left; reflexivity|right; assumption].
Qed.

Lemma isExcluded_cons path pattern rest :
  isExcluded path (pattern :: rest) =
    matches (filepath.ToSlash pattern) (filepath.ToSlash path)
    || existsb (matches (filepath.ToSlash pattern))
         (ancestors (S (String.length (filepath.ToSlash path))) (filepath.ToSlash path))
    || isExcluded path rest.
Proof.
  cbn [isExcluded]. rewrite <- parentMatches_ancestors. unfold matches.
  destruct (doublestar.Match _ _) as [matched err].
  destruct (bool_decide (err = None) && matched); [reflexivity|].
  cbn [orb]. destruct (parentMatches _ _ _); reflexivity.
Qed.

(** C4: a path is excluded exactly when the path itself, with forward
    slashes, matches one of the patterns under doublestar matching, or one
    of its ancestors does, an ancestor being what taking the parent one or
    more times gives.  So the archive of the example tree under the patterns
    [**/node_modules/**] and [**/.git/**] has an entry for [src/code.js]
    and none for [node_modules/pkg/index.js] or [.git/config]. *)
Theorem isExcluded_iff :
  (forall (path : string) (excludePatterns : list string),
     isExcluded path excludePatterns = true <->
     exists pattern, In pattern excludePatterns /\
       (matches (filepath.ToSlash pattern) (filepath.ToSlash path) = true \/
        exists k, matches (filepath.ToSlash pattern)
                    (Nat.iter (S k) parent (filepath.ToSlash path)) = true)) /\
  map Name (walk ["**/node_modules/**"; "**/.git/**"] "." example_tree)
    = ["."; "src"; "src/code.js"].
Proof.
  split; [|vm_compute; reflexivity].
  intros path excludePatterns.
  induction excludePatterns as [|pattern rest IH].
  - split; [discriminate|]. intros (pattern & [] & _).
  - rewrite isExcluded_cons, !orb_true_iff, IH, existsb_exists. split.
    + intros [[Hm|(d & Hin & Hm)]|(p & Hin & Hm)].
      * exists pattern. split; [now left|now left].
      * exists pattern. split; [now left|right].
        destruct (ancestors_iter _ _ _ Hin) as [k ->]. now exists k.
      * exists p. split; [now right|assumption].
    + intros (p & [<-|Hin] & Hm); [|right; now exists p].
      left. destruct Hm as [Hm|[k Hm]]; [now left|].
      destruct (iter_ancestors (S (String.length (filepath.ToSlash path))) (filepath.ToSlash path)
                  ltac:(right; right; lia) (S k)) as [Heq|Hin].
      * left. now rewrite Heq in Hm.
      * right. eauto.
Qed.
End Exclusion.


(** * Retention *)
Section Retention.
Import storage config effects backup retention.
Context {W : Type} (h : forall X, call X -> W -> X * W).
Variable sort_Slice : (BackupFile -> BackupFile -> bool) -> list BackupFile -> list BackupFile.
Variable range : gmap string Service -> list (string * Service).

Lemma deletes_on_Delete b b' n r t :
  deletes_on b (Ev (Delete b' n) r :: t)
  = if decide (b' = b) then n :: deletes_on b t else deletes_on b t.
Proof. unfold deletes_on. cbn [omap list_omap delete_of]. destruct (decide (b' = b)); reflexivity. Qed.

Lemma deletes_on_List b b' p r t :
  deletes_on b (Ev (List_ b' p) r :: t) = deletes_on b t.
Proof. reflexivity. Qed.

Lemma deletes_on_app b t1 t2 : deletes_on b (t1 ++ t2) = deletes_on b t1 ++ deletes_on b t2.
Proof. apply omap_app. Qed.

(** The loop over the artifacts due on the primary backend asks for them in
    order and for nothing else; when it ends without error it has asked for
    all of them. *)
Lemma deleteSynology_trace backups : forall deletedCount w r t w',
  run h (deleteSynology backups deletedCount) w = (r, t, w') ->
  omap list_of t = [] /\ deletes_on S3 t = [] /\
  deletes_on Synology t `prefix_of` map Name backups /\
  (succeeded r = true -> deletes_on Synology t = map Name backups).
Proof.
  induction backups as [|backup rest IH]; intros n w r t w'; cbn [deleteSynology].
  - intros [= <- <- <-]. repeat split; reflexivity.
  - unfold mbind, prog_bind. cbn [bind perform run].
    destruct (h _ (Delete Synology (Name backup)) w) as [err w1].
    destruct err as [err|]; [destruct (strings.Contains err "file does not exist")|].
    + specialize (IH n w1). destruct (run h (deleteSynology rest n) w1) as [[r' t'] w2].
      destruct (IH _ _ _ eq_refl) as (Hl & H3 & Hp & Hs). intros [= <- <- <-].
      rewrite !deletes_on_Delete. cbn [omap list_omap list_of map].
      destruct (decide (Synology = S3)) as [?|_]; [discriminate|].
      destruct (decide (Synology = Synology)) as [_|?]; [|congruence].
      repeat split; [assumption..|now apply prefix_cons|intros Hr; now rewrite Hs].
    + cbn [run]. intros [= <- <- <-].
      rewrite !deletes_on_Delete. cbn [omap list_omap list_of map].
      destruct (decide (Synology = S3)) as [?|_]; [discriminate|].
      destruct (decide (Synology = Synology)) as [_|?]; [|congruence].
      repeat split; [apply prefix_cons, prefix_nil|discriminate].
    + specialize (IH (n + 1)%Z w1). destruct (run h (deleteSynology rest (n + 1)) w1) as [[r' t'] w2].
      destruct (IH _ _ _ eq_refl) as (Hl & H3 & Hp & Hs). intros [= <- <- <-].
      rewrite !deletes_on_Delete. cbn [omap list_omap list_of map].
      destruct (decide (Synology = S3)) as [?|_]; [discriminate|].
      destruct (decide (Synology = Synology)) as [_|?]; [|congruence].
      repeat split; [assumption..|now apply prefix_cons|intros Hr; now rewrite Hs].
Qed.

Lemma deleteS3_trace backups : forall deletedCount w r t w',
  run h (deleteS3 backups deletedCount) w = (r, t, w') ->
  omap list_of t = [] /\ deletes_on Synology t = [] /\
  deletes_on S3 t `prefix_of` map Name backups /\
  (succeeded r = true -> deletes_on S3 t = map Name backups).
Proof.
  induction backups as [|backup rest IH]; intros n w r t w'; cbn [deleteS3].
  - intros [= <- <- <-]. repeat split; reflexivity.
  - unfold mbind, prog_bind. cbn [bind perform run].
    destruct (h _ (Delete S3 (Name backup)) w) as [err w1].
    destruct err as [err|].
    + cbn [run]. intros [= <- <- <-].
      rewrite !deletes_on_Delete. cbn [omap list_omap list_of map].
      destruct (decide (S3 = Synology)) as [?|_]; [discriminate|].
      destruct (decide (S3 = S3)) as [_|?]; [|congruence].
      repeat split; [apply prefix_cons, prefix_nil|discriminate].
    + specialize (IH (n + 1)%Z w1). destruct (run h (deleteS3 rest (n + 1)) w1) as [[r' t'] w2].
      destruct (IH _ _ _ eq_refl) as (Hl & H3 & Hp & Hs). intros [= <- <- <-].
      rewrite !deletes_on_Delete. cbn [omap list_omap list_of map].
      destruct (decide (S3 = Synology)) as [?|_]; [discriminate|].
      destruct (decide (S3 = S3)) as [_|?]; [|congruence].
      repeat split; [assumption..|now apply prefix_cons|intros Hr; now rewrite Hs].
Qed.

(** What lies beyond the count in a sorted listing is what
    [backend_cleaned] asks for. *)
Lemma sorted_beyond (retainCount : Z) (listed : list BackupFile) :
  Slice_contract sort_Slice ->
  backend_cleaned retainCount listed
    (map Name (drop (Z.to_nat retainCount) (sort_Slice newer listed))).
Proof.
  intros Hsort. destruct (Hsort listed) as [Hperm Hsorted].
  exists (take (Z.to_nat retainCount) (sort_Slice newer listed)),
         (drop (Z.to_nat retainCount) (sort_Slice newer listed)).
  rewrite take_drop. split; [assumption|]. split; [|split; [|reflexivity]].
  - rewrite length_take. now rewrite (Permutation_length Hperm).
  - intros k d Hk Hd.
    rewrite <- (take_drop (Z.to_nat retainCount) (sort_Slice newer listed)) in Hsorted.
    exact (StronglySorted_app_1_elem_of _ _ _ _ _ Hsorted Hk Hd).
Qed.

Lemma nothing_beyond (retainCount : Z) (listed : list BackupFile) :
  (Z.of_nat (length listed) <= retainCount)%Z ->
  backend_cleaned retainCount listed [].
Proof.
  intros Hle. exists listed, []. rewrite app_nil_r.
  split; [reflexivity|]. split; [lia|]. split; [|reflexivity].
  intros k d _ Hd. inversion Hd.
Qed.

(** One backend of one service: the listing is sorted and the loop [del]
    runs over what lies beyond the count. *)
Lemma backend_phase (del : list BackupFile -> Z -> prog (outcome Z)) (b b' : Backend)
    (retainCount : Z) (key : string) (deletedCounts : gmap string Z)
    (listed : list BackupFile) w a t w' :
  Slice_contract sort_Slice ->
  (forall backups n w r t w', run h (del backups n) w = (r, t, w') ->
     omap list_of t = [] /\ deletes_on b' t = [] /\
     (succeeded r = true -> deletes_on b t = map Name backups)) ->
  run h (if (retainCount <? Z.of_nat (length (sort_Slice newer listed)))%Z then
           match beyond retainCount (sort_Slice newer listed) with
           | None => Ret (Panic (slice_out_of_range retainCount))
           | Some old =>
             bind (del old 0%Z)
               (fun deletedCount =>
                  match deletedCount with
                  | Ok n => Ret (Ok (<[key := n]> deletedCounts))
                  | Err err => Ret (Err err)
                  | Panic msg => Ret (Panic msg)
                  end)
           end
         else Ret (Ok deletedCounts)) w = (a, t, w') ->
  succeeded a = true ->
  omap list_of t = [] /\ deletes_on b' t = [] /\
  backend_cleaned retainCount listed (deletes_on b t).
Proof.
  intros Hsort Hdel.
  rewrite (Permutation_length (proj1 (Hsort listed))).
  destruct (retainCount <? Z.of_nat (length listed))%Z eqn:Hlt.
  - unfold beyond. destruct (retainCount <? 0)%Z; [intros [= <- <- <-]; discriminate|].
    rewrite run_bind.
    destruct (run h (del _ 0%Z) w) as [[rd td] w2] eqn:Hrun.
    destruct (Hdel _ _ _ _ _ _ Hrun) as (Hl & Hb' & Hb).
    destruct rd as [n|err|msg]; cbn [run]; intros [= <- <- <-]; [intros _|discriminate..].
    rewrite app_nil_r. repeat split; [assumption..|].
    rewrite Hb by reflexivity. now apply sorted_beyond.
  - cbn [run]. intros [= <- <- <-] _. repeat split.
    apply nothing_beyond. lia.
Qed.

Lemma cleanupService_cleaned m name service deletedCounts w r t w' :
  Slice_contract sort_Slice ->
  run h (cleanupService sort_Slice m name service deletedCounts) w = (r, t, w') ->
  succeeded r = true ->
  service_cleaned m (name, service) t.
Proof.
  intros Hsort. unfold cleanupService, service_cleaned. cbn [fst snd].
  unfold mbind, prog_bind. cbn [bind perform run].
  destruct (h _ (List_ Synology (name +:+ "-")) w) as [listed w1].
  destruct listed as [synologyBackups|err|msg]; cbn [run];
    [|intros [= <- <- <-]; discriminate..].
  rewrite run_bind.
  match goal with |- context [run h ?p w1] =>
    destruct (run h p w1) as [[a t0] w2] eqn:Hsyn end.
  destruct a as [counts|err|msg]; cbn [run]; [|intros [= <- <- <-]; discriminate..].
  eapply (backend_phase deleteSynology Synology S3) in Hsyn as (Hl & H3 & Hc);
    [|assumption|intros; edestruct deleteSynology_trace as (?&?&?&?); eauto|reflexivity].
  destruct (has_S3 m).
  - cbn [run].
    destruct (h _ (List_ S3 (name +:+ "-")) w2) as [listed w3].
    destruct listed as [s3Backups|err|msg]; cbn [run];
      [|intros [= <- <- <-]; discriminate..].
    match goal with |- context [run h ?p w3] =>
      destruct (run h p w3) as [[a t1] w4] eqn:Hs3 end.
    intros [= <- <- <-] Hok.
    eapply (backend_phase deleteS3 S3 Synology) in Hs3 as (Hl' & H3' & Hc');
      [|assumption|intros; edestruct deleteS3_trace as (?&?&?&?); eauto|assumption].
    exists synologyBackups, s3Backups.
    change (Ev (List_ Synology (name +:+ "-")) (Ok synologyBackups)
              :: t0 ++ Ev (List_ S3 (name +:+ "-")) (Ok s3Backups) :: t1)
      with ([Ev (List_ Synology (name +:+ "-")) (Ok synologyBackups)] ++ t0
              ++ [Ev (List_ S3 (name +:+ "-")) (Ok s3Backups)] ++ t1).
    rewrite !deletes_on_app, !omap_app, Hl, Hl', H3, H3'.
    destruct Hc as (k & d & ? & ? & ? & ->).
    destruct Hc' as (k' & d' & ? & ? & ? & ->).
    split; [reflexivity|]. split; [exists k, d|exists k', d'];
      cbn [deletes_on omap list_omap delete_of app]; rewrite ?app_nil_r; auto.
  - cbn [run]. intros [= <- <- <-] _.
    exists synologyBackups, [].
    rewrite app_nil_r.
    change (Ev (List_ Synology (name +:+ "-")) (Ok synologyBackups) :: t0)
      with ([Ev (List_ Synology (name +:+ "-")) (Ok synologyBackups)] ++ t0).
    rewrite !deletes_on_app, !omap_app, Hl, H3.
    destruct Hc as (k & d & ? & ? & ? & ->).
    split; [reflexivity|]. split; [exists k, d|reflexivity].
    cbn [deletes_on omap list_omap delete_of app]. auto.
Qed.

Lemma cleanupServices_cleaned m services : forall deletedCounts w r t w',
  Slice_contract sort_Slice ->
  run h (cleanupServices sort_Slice m services deletedCounts) w = (r, t, w') ->
  succeeded r = true ->
  exists segments, t = concat segments /\ Forall2 (service_cleaned m) services segments.
Proof.
  induction services as [|[name service] rest IH]; intros dc w r t w' Hsort; cbn [cleanupServices].
  - intros [= <- <- <-] _. exists []. split; [reflexivity|constructor].
  - unfold mbind, prog_bind. rewrite run_bind.
    destruct (run h (cleanupService sort_Slice m name service dc) w) as [[a t0] w1] eqn:Hone.
    destruct a as [counts|err|msg]; cbn [run]; [|intros [= <- <- <-]; discriminate..].
    destruct (run h (cleanupServices sort_Slice m rest counts) w1) as [[b t1] w2] eqn:Hrest.
    intros [= <- <- <-] Hok.
    destruct (IH _ _ _ _ _ Hsort Hrest Hok) as (segments & -> & Hall).
    exists (t0 :: segments). split; [reflexivity|].
    constructor; [|assumption].
    eapply cleanupService_cleaned; eauto.
Qed.

(** The services in scope: the one named, or all when no name is given. *)
Lemma in_scope_services m serviceName services :
  range_contract range ->
  in_scope range m serviceName = Some services ->
  forall name service,
    (name, service) ∈ services <->
    Services (config_ m) !! name = Some service /\ (serviceName = "" \/ serviceName = name).
Proof.
  intros Hrange. unfold in_scope.
  destruct (String.eqb serviceName "") eqn:E.
  - apply String.eqb_eq in E as ->. intros [= <-] name service.
    rewrite (Hrange _), elem_of_map_to_list. intuition.
  - apply String.eqb_neq in E.
    destruct (Services (config_ m) !! serviceName) as [service0|] eqn:Hs; [|discriminate].
    intros [= <-] name service.
    rewrite (Hrange _), map_to_list_singleton, list_elem_of_singleton. split.
    + intros [= -> ->]. auto.
    + intros [Hl [?|<-]]; [congruence|]. congruence.
Qed.
End Retention.


Section CleanupFacts.
Import storage config effects backup retention.

Lemma After_asym t u : time.After t u = true -> time.After u t = false.
Proof.
  unfold time.After.
  destruct (Z.ltb_spec (time.sec u) (time.sec t)), (Z.ltb_spec (time.sec t) (time.sec u)),
    (Z.eqb_spec (time.sec t) (time.sec u)), (Z.eqb_spec (time.sec u) (time.sec t)),
    (Z.ltb_spec (time.nsec u) (time.nsec t)), (Z.ltb_spec (time.nsec t) (time.nsec u));
    cbn; (reflexivity || discriminate || lia).
Qed.

Lemma After_negtrans t u v :
  time.After u t = false -> time.After v u = false -> time.After v t = false.
Proof.
  unfold time.After.
  destruct (Z.ltb_spec (time.sec t) (time.sec u)), (Z.ltb_spec (time.sec u) (time.sec v)),
    (Z.ltb_spec (time.sec t) (time.sec v)),
    (Z.eqb_spec (time.sec u) (time.sec t)), (Z.eqb_spec (time.sec v) (time.sec u)),
    (Z.eqb_spec (time.sec v) (time.sec t)),
    (Z.ltb_spec (time.nsec t) (time.nsec u)), (Z.ltb_spec (time.nsec u) (time.nsec v)),
    (Z.ltb_spec (time.nsec t) (time.nsec v));
    cbn; (reflexivity || discriminate || lia).
Qed.

Section InsertionSort.
Context {A : Type} (less : A -> A -> bool).
Hypothesis less_asym : forall a b, less a b = true -> less b a = false.
Hypothesis less_negtrans : forall a b c, less b a = false -> less c b = false -> less c a = false.

Lemma insert_Permutation x l : Permutation (sort.insert less x l) (x :: l).
Proof.
  induction l as [|y l IH]; cbn [sort.insert]; [reflexivity|].
  destruct (less y x); [|reflexivity].
  rewrite IH. apply perm_swap.
Qed.

Lemma insert_sorted x l :
  StronglySorted (fun a b => less b a = false) l ->
  StronglySorted (fun a b => less b a = false) (sort.insert less x l).
Proof.
  induction 1 as [|y l Hl IH Hy]; cbn [sort.insert].
  - repeat constructor.
  - destruct (less y x) eqn:E.
    + constructor; [assumption|].
      rewrite Forall_forall in *. intros z Hz.
      rewrite insert_Permutation in Hz. apply elem_of_cons in Hz as [->|Hz]; [now apply less_asym|auto].
    + constructor; [now constructor|]. constructor; [assumption|].
      rewrite Forall_forall in *. intros z Hz. eapply less_negtrans; eauto.
Qed.

Lemma Slice_sorts l :
  Permutation (sort.Slice less l) l /\
  StronglySorted (fun a b => less b a = false) (sort.Slice less l).
Proof.
  induction l as [|x l [IHp IHs]]; cbn [sort.Slice fold_right].
  - split; constructor.
  - split; [|now apply insert_sorted].
    fold (sort.Slice less l). rewrite insert_Permutation. now constructor.
Qed.
End InsertionSort.

Lemma Slice_meets_contract : Slice_contract (@sort.Slice BackupFile).
Proof.
  intros l. apply Slice_sorts; unfold newer.
  - intros a b. apply After_asym.
  - intros a b c. apply After_negtrans.
Qed.

Lemma map_to_list_meets_contract : range_contract map_to_list.
Proof. intros g. reflexivity. Qed.

(** An artifact whose time does not parse is ordered as the zero time. *)
Lemma unparsed_newer a b :
  succeeded (time.Parse_listing (ModTime a)) = false ->
  newer a b = true ->
  exists t, time.Parse_listing (ModTime b) = Ok t /\ time.After time.zero t = true.
Proof.
  unfold newer, parseBackupTime.
  destruct (time.Parse_listing (ModTime a)); [discriminate|..]; intros _;
    (destruct (time.Parse_listing (ModTime b)) as [t| |]; [eauto|discriminate..]).
Qed.

Import mock scenario.

(** C2: in a run of [CleanupBackups] that returns no error, for every
    service in scope (the one named, or all) and for each configured backend
    on its own, the artifacts listed under the prefix of the service split
    into the newest ones, as many as the effective retain count allows, for
    which no delete is asked, and the others, for exactly which a delete is
    asked, none of them newer than a kept one.  An artifact whose time does
    not parse is ordered as the zero time: it is newer only than an artifact
    dated before it.  With the three artifacts of January 1 to 3 and a
    count of 2, exactly the one of January 1 is deleted. *)
Theorem CleanupBackups_retains {W : Type} (h : forall X, call X -> W -> X * W)
    (sort_Slice : (BackupFile -> BackupFile -> bool) -> list BackupFile -> list BackupFile)
    (range : gmap string Service -> list (string * Service))
    (m : Manager) (serviceName : string) (w : W)
    (result : outcome (gmap string Z)) (trace : list event) (w' : W) :
  Slice_contract sort_Slice ->
  range_contract range ->
  run h (CleanupBackups sort_Slice range m serviceName) w = (result, trace, w') ->
  succeeded result = true ->
  (exists services segments,
     (forall name service,
        (name, service) ∈ services <->
        Services (config_ m) !! name = Some service /\ (serviceName = "" \/ serviceName = name)) /\
     trace = concat segments /\
     Forall2 (service_cleaned m) services segments) /\
  (forall a b,
     succeeded (time.Parse_listing (ModTime a)) = false ->
     newer a b = true ->
     exists t, time.Parse_listing (ModTime b) = Ok t /\ time.After time.zero t = true) /\
  deleted (Synology_ (cleanup 2 false
             {| Synology_ := storing [jan1; jan2; jan3]; S3_ := storing [] |}).2)
    = [Name jan1].
Proof.
  intros Hsort Hrange Hrun Hok.
  split; [|split; [exact unparsed_newer|vm_compute; reflexivity]].
  unfold CleanupBackups in Hrun.
  destruct (in_scope range m serviceName) as [services|] eqn:Hscope.
  - destruct (cleanupServices_cleaned h sort_Slice m services _ _ _ _ _ Hsort Hrun Hok)
      as (segments & Ht & Hall).
    exists services, segments. split; [|split; assumption].
    now apply (in_scope_services range m serviceName).
  - cbn [run] in Hrun. injection Hrun as <- <- <-. discriminate.
Qed.

Lemma CleanupBackups_retains_witness :
  exists services segments,
    (forall name service,
       (name, service) ∈ services <->
       Services (config_ (manager 2 true)) !! name = Some service /\ ("test" = "" \/ "test" = name)) /\
    (cleanup 2 true both).1.2 = concat segments /\
    Forall2 (service_cleaned (manager 2 true)) services segments.
Proof.
  refine (proj1 (CleanupBackups_retains handle sort.Slice map_to_list (manager 2 true) "test" both
            (cleanup 2 true both).1.1 (cleanup 2 true both).1.2 (cleanup 2 true both).2
            Slice_meets_contract map_to_list_meets_contract _ _)).
  - unfold cleanup.
    destruct (run handle _ _) as [[r t] w']. reflexivity.
  - vm_compute. reflexivity.
Defined.

(** An artifact whose time does not parse outlives one dated before year 1,
    and a delete that fails leaves an artifact beyond the count in place. *)
Lemma CleanupBackups_keeps_unparsed :
  (succeeded (time.Parse_listing (ModTime undated)) = false /\
   succeeded (time.Parse_listing (ModTime year0)) = true /\
   deleted (Synology_ (cleanup 1 false
              {| Synology_ := storing [undated; year0]; S3_ := storing [] |}).2)
     = [Name year0]) /\
  ((cleanup 1 false
      {| Synology_ := failing_delete [jan1; jan2; jan3] "delete error"; S3_ := storing [] |}).1.1
     = Err "failed to delete Synology backup test-2024-01-02T00:00:00Z.enc: delete error" /\
   deletes_on Synology (cleanup 1 false
      {| Synology_ := failing_delete [jan1; jan2; jan3] "delete error"; S3_ := storing [] |}).1.2
     = [Name jan2]).
Proof. vm_compute. repeat split. Qed.

(** C3, at the input where the code departs from it: the secondary backend
    answers the delete of the artifact that is due with the error the
    primary path tolerates, and the cleanup stops with that error; the same
    answer from the primary backend is passed over. *)
Theorem CleanupBackups_S3_not_found_aborts :
  (cleanup 2 true {| Synology_ := storing [jan1; jan2; jan3];
                     S3_ := failing_delete [jan1; jan2; jan3] "file does not exist" |}).1.1
    = Err "failed to delete S3 backup test-2024-01-01T00:00:00Z.enc: file does not exist" /\
  (cleanup 2 true {| Synology_ := failing_delete [jan1; jan2; jan3] "file does not exist";
                     S3_ := storing [jan1; jan2; jan3] |}).1.1
    = Ok {[ "test_synology" := 0%Z; "test_s3" := 1%Z ]}.
Proof. vm_compute. split; reflexivity. Qed.
End CleanupFacts.


(** * More on pkg/crypto *)
Section CryptoEdges.
Import crypto.

Lemma NewCipher_invalid key :
  ~ valid_key_length key -> aes.NewCipher key = Err (aes.KeySizeError (length key)).
Proof.
  intros Hk. unfold aes.NewCipher.
  destruct (Nat.eqb_spec (length key) 16) as [E|_]; [exfalso; apply Hk; now left|].
  destruct (Nat.eqb_spec (length key) 24) as [E|_]; [exfalso; apply Hk; right; now left|].
  destruct (Nat.eqb_spec (length key) 32) as [E|_]; [exfalso; apply Hk; right; now right|].
  reflexivity.
Qed.

(** A key that is not 16, 24 or 32 bytes long is refused by [Encrypt] and
    by [Decrypt] alike, with the size named in the error, whatever the
    data. *)
Theorem invalid_key_size_refused (rand key data : list byte) :
  ~ valid_key_length key ->
  Encrypt rand key data
    = Err ("failed to create cipher: crypto/aes: invalid key size " +:+ pretty (length key)) /\
  Decrypt key data
    = Err ("failed to create cipher: crypto/aes: invalid key size " +:+ pretty (length key)).
Proof.
  intros Hk. unfold Encrypt, Decrypt. rewrite (NewCipher_invalid _ Hk). split; reflexivity.
Qed.

(** What [Encrypt] returns is the nonce, 12 bytes of the random source,
    followed by as many bytes as the plaintext has and a 16-byte tag. *)
Theorem Encrypt_layout (rand key plaintext : list byte) :
  valid_key_length key -> 12 <= length rand ->
  (N.of_nat (length plaintext) <= cipher.maxPlaintext)%N ->
  exists c, Encrypt rand key plaintext = Ok c /\
            length c = 12 + length plaintext + 16 /\
            take 12 c = take 12 rand.
Proof.
  intros Hk Hr Hp. eexists. split; [now apply Encrypt_unfold|].
  assert (Hn : length (take 12 rand) = 12) by (rewrite length_take; lia).
  split.
  - rewrite !length_app, Hn. unfold keystream_xor, sealed_tag.
    rewrite length_counterCrypt, length_auth. reflexivity.
  - now apply take_app_length'.
Qed.

(** Decryption undoes encryption for every key length AES accepts. *)
Theorem Decrypt_Encrypt_every_key_size (rand key plaintext : list byte) :
  valid_key_length key -> 12 <= length rand ->
  (N.of_nat (length plaintext) <= cipher.maxPlaintext)%N ->
  exists c, Encrypt rand key plaintext = Ok c /\ Decrypt key c = Ok plaintext.
Proof.
  intros Hk Hr Hp. eexists. split; [now apply Encrypt_unfold|].
  assert (Hn : length (take 12 rand) = 12) by (rewrite length_take; lia).
  rewrite Decrypt_split.
  - rewrite bool_decide_eq_true_2 by reflexivity. f_equal. apply counterCrypt_involutive.
  - assumption.
  - assumption.
  - unfold sealed_tag. exact (length_auth _ _ _ _).
  - unfold keystream_xor. now rewrite length_counterCrypt.
Qed.

End CryptoEdges.

Lemma invalid_key_size_refused_witness :
  crypto.Encrypt zero_nonce [x01] plaintext_A
    = Err ("failed to create cipher: crypto/aes: invalid key size " +:+ pretty (length [x01])) /\
  crypto.Decrypt [x01] plaintext_A
    = Err ("failed to create cipher: crypto/aes: invalid key size " +:+ pretty (length [x01])).
Proof.
  apply (invalid_key_size_refused zero_nonce [x01] plaintext_A).
  intros [H|[H|H]]; discriminate H.
Defined.

Lemma Encrypt_layout_witness :
  exists c, crypto.Encrypt zero_nonce key_A plaintext_A = Ok c /\
            length c = 12 + length plaintext_A + 16 /\
            take 12 c = take 12 zero_nonce.
Proof.
  apply (Encrypt_layout zero_nonce key_A plaintext_A).
  - right; right; reflexivity.
  - vm_compute. lia.
  - vm_compute. discriminate.
Defined.

Lemma Decrypt_Encrypt_every_key_size_witness :
  exists c, crypto.Encrypt zero_nonce (take 16 key_A) plaintext_A = Ok c /\
            crypto.Decrypt (take 16 key_A) c = Ok plaintext_A.
Proof.
  apply (Decrypt_Encrypt_every_key_size zero_nonce (take 16 key_A) plaintext_A).
  - left; reflexivity.
  - vm_compute. lia.
  - vm_compute. discriminate.
Defined.

Section KeyFiles.
Import crypto.
Context {fs : Type} `{os.FileSystem fs}.

Lemma SaveKey_written key salt keyPath (s s' : fs) :
  SaveKey key salt keyPath s = (None, s') ->
  os.ReadFile keyPath s' = Ok (list_byte_of_string (fmt.Sprintf_x_nl_x key salt)).
Proof.
  unfold SaveKey. destruct (os.MkdirAll _ _ s) as [[e|] s1]; [discriminate|].
  apply os.ReadFile_WriteFile.
Qed.

(** The key file that [GenerateAndSaveKey] writes for a password loads back
    as the key and salt [DeriveKey] computes for it, and [RecreateKey] on
    the password and the loaded salt gives the loaded key. *)
Theorem GenerateAndSaveKey_LoadKey
    (IDKey : list byte -> list byte -> N -> N -> N -> nat -> list byte)
    (password : list byte) (path : string) (s s' : fs) :
  (forall p sa t m th n, length (IDKey p sa t m th n) = n) ->
  GenerateAndSaveKey IDKey password path s = (None, s') ->
  exists key salt,
    LoadKey path s' = Ok (key, salt) /\
    DeriveKey IDKey (string_of_list_byte password) = (key, salt, None) /\
    RecreateKey IDKey (string_of_list_byte password) salt = key.
Proof.
  intros Hlen. unfold GenerateAndSaveKey, DeriveKey, RecreateKey.
  set (salt := generateDeterministicSalt (string_of_list_byte password)).
  set (key := IDKey _ salt Iterations Memory Parallelism KeySize).
  destruct (SaveKey key salt path s) as [[e|] s1] eqn:Hsave; [discriminate|].
  intros [= <-]. exists key, salt. split; [|split; reflexivity].
  assert (Hk : length key = 32) by apply Hlen.
  assert (Hs : length salt = 16) by apply length_generateDeterministicSalt.
  unfold LoadKey. rewrite (SaveKey_written _ _ _ _ _ Hsave), string_of_list_byte_of_string.
  rewrite Sscanf_Sprintf; [reflexivity|..].
  - intros ->. discriminate Hk.
  - intros E. rewrite E in Hs. discriminate Hs.
  - unfold fmt.Sprintf_x_nl_x. rewrite !string_length_app, !length_fmtSbx, Hk, Hs.
    vm_compute. discriminate.
Qed.

(** A key file written for an empty key cannot be loaded, whatever the
    salt; nor can one written for an empty salt. *)
Theorem SaveKey_empty_unloadable (key salt : list byte) (keyPath : string) (s s' : fs) :
  SaveKey key salt keyPath s = (None, s') ->
  (key = [] -> LoadKey keyPath s' = Err "failed to parse key file: unexpected newline") /\
  (key <> [] -> salt = [] -> (2 * N.of_nat (length key) < fmt.hugeWid)%N ->
   LoadKey keyPath s' = Err "failed to parse key file: EOF").
Proof.
  intros Hsave. unfold LoadKey.
  rewrite (SaveKey_written _ _ _ _ _ Hsave), string_of_list_byte_of_string.
  split.
  - intros ->. unfold fmt.Sprintf_x_nl_x.
    change (fmt.fmtSbx [] +:+ fmt.nl +:+ fmt.fmtSbx salt)
      with (String "010"%char (fmt.fmtSbx salt)).
    unfold fmt.Sscanf_x_nl_x, fmt.SkipSpace. cbn [fmt.rs String.length fmt.SkipSpace_loop].
    rewrite getRune_ascii; [|reflexivity|reflexivity]. reflexivity.
  - intros Hk -> Hlen. unfold fmt.Sprintf_x_nl_x.
    change (fmt.fmtSbx []) with EmptyString.
    unfold fmt.Sscanf_x_nl_x.
    rewrite SkipSpace_digit by (assumption || reflexivity). cbn [mbind outcome_bind].
    rewrite scanOne_x_fmtSbx; [|assumption|right; eexists; reflexivity|lia].
    cbn [mbind outcome_bind]. unfold fmt.advance_nl. cbn [fmt.rs fmt.advance_nl_loop].
    change (fmt.nl +:+ "") with (String "010"%char "").
    rewrite getRune_ascii; [|reflexivity|lia].
    change (N_of_ascii "010" =? fmt.newline)%N with true. cbv iota. cbn [mbind outcome_bind].
    unfold fmt.SkipSpace. cbn [fmt.rs String.length fmt.SkipSpace_loop].
    rewrite getRune_empty. cbn [mbind outcome_bind].
    unfold fmt.scanOne_x, fmt.SkipSpace. cbn [fmt.rs String.length fmt.SkipSpace_loop].
    rewrite getRune_empty. cbn [mbind outcome_bind].
    unfold fmt.notEOF. rewrite getRune_empty. reflexivity.
Qed.
End KeyFiles.

Lemma GenerateAndSaveKey_LoadKey_witness :
  exists key salt,
    crypto.LoadKey "/root/.config/packrat/key"
      (snd (crypto.GenerateAndSaveKey zero_IDKey (list_byte_of_string "secret")
              "/root/.config/packrat/key" ([] : os.memfs))) = Ok (key, salt) /\
    crypto.DeriveKey zero_IDKey (string_of_list_byte (list_byte_of_string "secret"))
      = (key, salt, None) /\
    crypto.RecreateKey zero_IDKey (string_of_list_byte (list_byte_of_string "secret")) salt = key.
Proof.
  apply (GenerateAndSaveKey_LoadKey zero_IDKey (list_byte_of_string "secret")
           "/root/.config/packrat/key" []).
  - intros. apply repeat_length.
  - reflexivity.
Defined.

Lemma SaveKey_empty_unloadable_witness :
  crypto.LoadKey "key" (snd (crypto.SaveKey [] salt_A "key" ([] : os.memfs)))
    = Err "failed to parse key file: unexpected newline".
Proof.
  refine (proj1 (SaveKey_empty_unloadable [] salt_A "key" [] _ _) _); reflexivity.
Defined.


(** * More on CreateBackup and RestoreBackup *)
Section Runs.
Import storage config effects backup.
Context {W : Type} (h : forall X, call X -> W -> X * W).

(** Symbolic execution of a run, call by call. *)
Ltac step_run :=
  repeat first
    [ progress cbn [run bind mbind prog_bind mret prog_ret perform ok_or cipher.NewGCM
                    omap list_omap upload_of download_of delete_of list_of read_of extract_of
                    container_of archive_of command_of write_of content_of mkdir_of remove_of
                    rand_of stamp_of app fst snd]
    | match goal with
      | |- context [aes.NewCipher ?k] =>
        let E := fresh "HCipher" in destruct (aes.NewCipher k) as [?|?|?] eqn:E
      | |- context [h ?X ?c ?w] =>
        let r := fresh "r" in let w' := fresh "w" in
        destruct (h X c w) as [r w'];
        lazymatch type of r with
        | option _ => destruct r as [?|]
        | outcome _ => destruct r as [?|?|?]
        | _ => idtac
        end
      | |- context [crypto.Encrypt ?a ?b ?c] =>
        let E := fresh "HEnc" in destruct (crypto.Encrypt a b c) as [?|?|?] eqn:E
      | |- context [crypto.Decrypt ?a ?b] =>
        let E := fresh "HDec" in destruct (crypto.Decrypt a b) as [?|?|?] eqn:E
      end ].

(** A service that is not configured is refused before anything is done:
    no call leaves the process.  For [CleanupBackups] the empty name stands
    for all services and is never refused. *)
Theorem unknown_service_refused
    (sort_Slice : (BackupFile -> BackupFile -> bool) -> list BackupFile -> list BackupFile)
    (range : gmap string Service -> list (string * Service))
    (m : Manager) (serviceName backupName : string) (w : W) :
  Services (config_ m) !! serviceName = None ->
  run h (CreateBackup m serviceName) w
    = (Err ("service " +:+ serviceName +:+ " not found in configuration"), [], w) /\
  run h (RestoreBackup m serviceName backupName) w
    = (Err ("service " +:+ serviceName +:+ " not found in configuration"), [], w) /\
  (serviceName <> "" ->
   run h (CleanupBackups sort_Slice range m serviceName) w
     = (Err ("service " +:+ serviceName +:+ " not found"), [], w)).
Proof.
  intros Hs. unfold CreateBackup, RestoreBackup, CleanupBackups, in_scope. rewrite Hs.
  split; [reflexivity|]. split; [reflexivity|].
  intros Hne. apply String.eqb_neq in Hne. rewrite Hne. reflexivity.
Qed.

(** The temporary directory of a backup or a restore is removed whenever it
    was created, as the last thing the operation does; the directories
    removed are exactly the ones created. *)
Theorem temporary_directory_removed (m : Manager) (serviceName backupName : string) (w : W) :
  (let '(_, trace, _) := run h (CreateBackup m serviceName) w in
   omap remove_of trace
     = omap (fun e => match mkdir_of e with Some (d, _, None) => Some d | _ => None end) trace /\
   (omap remove_of trace = [] \/ exists d r, last trace = Some (Ev (RemoveAll d) r))) /\
  (let '(_, trace, _) := run h (RestoreBackup m serviceName backupName) w in
   omap remove_of trace
     = omap (fun e => match mkdir_of e with Some (d, _, None) => Some d | _ => None end) trace /\
   (omap remove_of trace = [] \/ exists d r, last trace = Some (Ev (RemoveAll d) r))).
Proof.
  split.
  - unfold CreateBackup, archiveAndUpload, Encrypt.
    destruct (Services (config_ m) !! serviceName) as [service|]; [|step_run; auto].
    destruct (PreBackup service), (Docker_ service), (has_S3 m); step_run;
      (split; [reflexivity|]); first [left; reflexivity|right; do 2 eexists; reflexivity].
  - unfold RestoreBackup, decryptAndExtract.
    destruct (Services (config_ m) !! serviceName) as [service|]; [|step_run; auto].
    destruct (Docker_ service), (has_S3 m); step_run;
      (split; [reflexivity|]); first [left; reflexivity|right; do 2 eexists; reflexivity].
Qed.

(** For a service with a container, the directory tree is archived or
    extracted only between a stop of the container that succeeded and the
    start that follows it, and a container that was stopped is started
    again however the operation ends. *)
Theorem container_window_kept (m : Manager) (serviceName backupName : string)
    (service : Service) (d : Docker) (w : W) :
  Services (config_ m) !! serviceName = Some service ->
  Docker_ service = Some d ->
  window.kept (run h (CreateBackup m serviceName) w).1.2 = true /\
  window.kept (run h (RestoreBackup m serviceName backupName) w).1.2 = true.
Proof.
  intros Hs Hd. unfold CreateBackup, RestoreBackup, archiveAndUpload, Encrypt, decryptAndExtract.
  rewrite Hs, Hd. split.
  - destruct (PreBackup service), (has_S3 m); step_run; reflexivity.
  - destruct (has_S3 m); step_run; reflexivity.
Qed.

(** When the pre-backup command fails, [CreateBackup] returns its error and
    has neither stopped a container, nor archived, written or uploaded
    anything; the command handed to [executeCommand] is the one of the
    service, with the path of the service as the directory to run in when
    the command names none. *)
Theorem pre_backup_failure_aborts (m : Manager) (serviceName : string) (w : W) :
  let '(result, trace, _) := run h (CreateBackup m serviceName) w in
  forall cmd path,
    (forall err, (cmd, path, Some err) ∈ omap command_of trace ->
       result = Err (wrap "failed to execute pre-backup command" err) /\
       omap container_of trace = [] /\ omap archive_of trace = [] /\
       omap write_of trace = [] /\ omap upload_of trace = []) /\
    (forall r, (cmd, path, r) ∈ omap command_of trace ->
       exists service, Services (config_ m) !! serviceName = Some service /\
                       PreBackup service = Some cmd /\ path = Path service).
Proof.
  unfold CreateBackup, archiveAndUpload, Encrypt.
  destruct (Services (config_ m) !! serviceName) as [service|] eqn:Hs;
    [|step_run; intros xcmd xpath; split; intros ? Hin; inversion Hin].
  destruct (PreBackup service) as [c|] eqn:HP, (Docker_ service), (has_S3 m); step_run;
    intros xcmd xpath; (split; [intros xerr Hin|intros xr Hin]);
    first [ solve [inversion Hin]
          | solve [apply list_elem_of_singleton in Hin; injection Hin as -> -> ->; repeat split]
          | solve [apply list_elem_of_singleton in Hin; discriminate Hin]
          | solve [apply list_elem_of_singleton in Hin; injection Hin as -> -> ?;
                   exists service; repeat split; first [reflexivity|assumption]] ].
Qed.

(** What [CreateBackup] uploads is the file it wrote, and that file holds
    the encryption, under the key of the manager and the nonce read from
    the random source, of the archive of the service path; it is written
    for the owner only and named after the service and the time. *)
Theorem uploads_encrypted_archive (m : Manager) (serviceName : string) (w : W) :
  let '(_, trace, _) := run h (CreateBackup m serviceName) w in
  forall b localPath remoteName r,
    (b, localPath, remoteName, r) ∈ omap upload_of trace ->
    exists service archive rand stamp data,
      Services (config_ m) !! serviceName = Some service /\
      omap archive_of trace = [(Path service, Ok archive)] /\
      omap rand_of trace = [rand] /\
      crypto.Encrypt rand (key m) archive = Ok data /\
      omap stamp_of trace = [stamp] /\
      remoteName = serviceName +:+ "-" +:+ stamp +:+ ".enc" /\
      omap write_of trace = [(localPath, data, 384%N, None)].
Proof.
  unfold CreateBackup, archiveAndUpload, Encrypt.
  destruct (Services (config_ m) !! serviceName) as [service|] eqn:Hs;
    [|step_run; intros ? ? ? ? Hin; inversion Hin].
  destruct (PreBackup service) as [c|], (Docker_ service), (has_S3 m); step_run;
    intros xb xl xn xr Hin;
    first [ now inversion Hin
          | repeat (apply elem_of_cons in Hin as [Hin|Hin]; [injection Hin as -> -> -> ->; eauto 12|]);
            now inversion Hin ].
Qed.

(** What [RestoreBackup] extracts is the decryption, under the key of the
    manager, of the file it read, into the path of the service. *)
Theorem extracts_decrypted_backup (m : Manager) (serviceName backupName : string) (w : W) :
  let '(_, trace, _) := run h (RestoreBackup m serviceName backupName) w in
  forall input destPath,
    (input, destPath) ∈ omap extract_of trace ->
    exists service localPath data,
      Services (config_ m) !! serviceName = Some service /\
      destPath = Path service /\
      omap content_of trace = [(localPath, Ok data)] /\
      crypto.Decrypt (key m) data = Ok input /\
      exists b, (b, backupName, localPath, None) ∈ omap download_of trace.
Proof.
  unfold RestoreBackup, decryptAndExtract.
  destruct (Services (config_ m) !! serviceName) as [service|] eqn:Hs;
    [|step_run; intros ? ? Hin; inversion Hin].
  destruct (Docker_ service), (has_S3 m); step_run;
    intros xinput xdest Hin;
    first [ solve [inversion Hin]
          | solve [apply list_elem_of_singleton in Hin; injection Hin as -> ->;
                   exists service; do 2 eexists;
                   split; [reflexivity|]; split; [reflexivity|]; split; [reflexivity|];
                   split; [eassumption|];
                   first [ exists Synology; left | exists S3; right; left ] ] ].
Qed.

(** A backup that does not decrypt leaves the service as it is: the error
    is returned, the container is not stopped and nothing is extracted. *)
Theorem undecryptable_backup_untouched (m : Manager) (serviceName backupName : string) (w : W) :
  let '(result, trace, _) := run h (RestoreBackup m serviceName backupName) w in
  forall localPath data err,
    (localPath, Ok data) ∈ omap content_of trace ->
    crypto.Decrypt (key m) data = Err err ->
    result = Err (wrap "failed to decrypt backup" err) /\
    omap container_of trace = [] /\ omap extract_of trace = [].
Proof.
  unfold RestoreBackup, decryptAndExtract.
  destruct (Services (config_ m) !! serviceName) as [service|] eqn:Hs;
    [|step_run; intros ? ? ? Hin; inversion Hin].
  destruct (Docker_ service), (has_S3 m); step_run;
    intros xl xdata xerr Hin HD;
    first [ now inversion Hin
          | apply list_elem_of_singleton in Hin; first [discriminate Hin|injection Hin as -> ->];
            first [ congruence | rewrite HD in *; first [discriminate | injection HDec as ->; now repeat split] ] ].
Qed.
End Runs.

Lemma unknown_service_refused_witness :
  effects.run mock.handle (backup.CreateBackup (scenario.manager 2 false) "other") scenario.both
    = (Err ("service " +:+ "other" +:+ " not found in configuration"), [], scenario.both) /\
  effects.run mock.handle (backup.RestoreBackup (scenario.manager 2 false) "other" "b.enc")
    scenario.both
    = (Err ("service " +:+ "other" +:+ " not found in configuration"), [], scenario.both) /\
  ("other" <> "" ->
   effects.run mock.handle
     (backup.CleanupBackups sort.Slice map_to_list (scenario.manager 2 false) "other")
     scenario.both
     = (Err ("service " +:+ "other" +:+ " not found"), [], scenario.both)).
Proof.
  apply (unknown_service_refused mock.handle sort.Slice map_to_list
           (scenario.manager 2 false) "other" "b.enc").
  reflexivity.
Defined.

Lemma container_window_kept_witness :
  window.kept (effects.run mock.handle (backup.CreateBackup dockerized.manager "web")
                 scenario.both).1.2 = true /\
  window.kept (effects.run mock.handle (backup.RestoreBackup dockerized.manager "web" "b.enc")
                 scenario.both).1.2 = true.
Proof.
  apply (container_window_kept mock.handle dockerized.manager "web" "b.enc"
           dockerized.service {| config.Container := "web" |}); reflexivity.
Defined.

(** * The scheduled job *)
Section Job.
Import storage config effects backup retention.
Context {W : Type} (h : forall X, call X -> W -> X * W).
Variable sort_Slice : (BackupFile -> BackupFile -> bool) -> list BackupFile -> list BackupFile.
Variable range : gmap string Service -> list (string * Service).

(** The scheduled job deletes old backups only after the new backup has
    been uploaded to the primary backend: when the backup fails, the
    cleanup is not run and no delete is asked for. *)
Theorem job_deletes_after_upload (m : Manager) (serviceName : string) (w : W) :
  let '(report, trace, _) := run h (daemon.job sort_Slice range m serviceName) w in
  (omap delete_of trace = [] \/
   exists localPath remoteName, (Synology, localPath, remoteName, None) ∈ omap upload_of trace) /\
  (forall err, report = daemon.backup_failed err -> omap delete_of trace = []).
Proof.
  unfold daemon.job, mbind, prog_bind. rewrite run_bind.
  pose proof (CreateBackup_shape h m serviceName w) as Hshape.
  destruct (run h (CreateBackup m serviceName) w) as [[result t0] w1].
  destruct Hshape as [Hs Hd].
  destruct result as [[]|err|msg].
  - rewrite run_bind.
    destruct (run h (CleanupBackups sort_Slice range m serviceName) w1) as [[counts t1] w2].
    assert (Hup : exists l n, (Synology, l, n, None) ∈ omap upload_of (t0 ++ t1 ++ [])).
    { rewrite omap_app.
      destruct Hs as [[_ H]|[(l & n & e & _ & H)|[(l & n & _ & -> & _)|[(l & n & e & _ & _ & H)|(l & n & _ & -> & _)]]]];
        try congruence; exists l, n; apply elem_of_app; left; left. }
    destruct counts; cbn [run]; (split; [right; exact Hup|discriminate]).
  - cbn [run]. rewrite app_nil_r. split; [now left|intros; assumption].
  - cbn [run]. rewrite app_nil_r. split; [now left|intros; assumption].
Qed.
End Job.


(** * More on CleanupBackups *)
Section Failures.
Import storage config effects backup retention failure.
Context {W : Type} (h : forall X, call X -> W -> X * W).
Variable sort_Slice : (BackupFile -> BackupFile -> bool) -> list BackupFile -> list BackupFile.
Variable range : gmap string Service -> list (string * Service).

Lemma first_fatal_app t1 t2 :
  first_fatal (t1 ++ t2)
  = match first_fatal t1 with
    | Some (msg, post) => Some (msg, post ++ t2)
    | None => first_fatal t2
    end.
Proof.
  induction t1 as [|e t1 IH]; [reflexivity|].
  cbn [app first_fatal]. destruct (fatal e); [reflexivity|exact IH].
Qed.

(** Two parts of a run in sequence, the second made only when the first
    returned no error. *)
Lemma stopped_seq {A B} (r1 : outcome A) t1 (r2 : outcome B) t2 :
  stopped_at_failure r1 t1 ->
  match r1 with
  | Ok _ => stopped_at_failure r2 t2
  | Err e => r2 = Err e /\ t2 = []
  | Panic p => r2 = Panic p /\ t2 = []
  end ->
  stopped_at_failure r2 (t1 ++ t2).
Proof.
  intros [Hc1 Hf1] H2. unfold stopped_at_failure.
  rewrite forallb_app, first_fatal_app, Hc1.
  destruct (first_fatal t1) as [[msg post]|].
  - destruct Hf1 as [-> ->]. destruct H2 as [-> ->]. split; [reflexivity|]. now split.
  - destruct r1 as [a|e|p].
    + destruct H2 as [Hc2 Hf2]. split; [exact Hc2|exact Hf2].
    + now destruct (Hf1 e).
    + destruct H2 as [-> ->]. split; [reflexivity|]. cbn. discriminate.
Qed.

Lemma deleteSynology_stopped backups : forall deletedCount w r t w',
  run h (deleteSynology backups deletedCount) w = (r, t, w') ->
  stopped_at_failure r t.
Proof.
  induction backups as [|backup rest IH]; intros n w r t w'; cbn [deleteSynology].
  - intros [= <- <- <-]. split; [reflexivity|]. cbn. discriminate.
  - unfold mbind, prog_bind. cbn [bind perform run].
    destruct (h _ (Delete Synology (Name backup)) w) as [err w1].
    destruct err as [err|]; [destruct (strings.Contains err "file does not exist") eqn:Hc|].
    + specialize (IH n w1). destruct (run h (deleteSynology rest n) w1) as [[r' t'] w2].
      destruct (IH _ _ _ eq_refl) as [Hl Hf]. intros [= <- <- <-].
      split; [exact Hl|]. cbn [first_fatal fatal list_of delete_of]. rewrite Hc. exact Hf.
    + cbn [run]. intros [= <- <- <-].
      split; [reflexivity|]. cbn [first_fatal fatal list_of delete_of]. rewrite Hc. now split.
    + specialize (IH (n + 1)%Z w1). destruct (run h (deleteSynology rest (n + 1)) w1) as [[r' t'] w2].
      destruct (IH _ _ _ eq_refl) as [Hl Hf]. intros [= <- <- <-].
      split; [exact Hl|exact Hf].
Qed.

Lemma deleteS3_stopped backups : forall deletedCount w r t w',
  run h (deleteS3 backups deletedCount) w = (r, t, w') ->
  stopped_at_failure r t.
Proof.
  induction backups as [|backup rest IH]; intros n w r t w'; cbn [deleteS3].
  - intros [= <- <- <-]. split; [reflexivity|]. cbn. discriminate.
  - unfold mbind, prog_bind. cbn [bind perform run].
    destruct (h _ (Delete S3 (Name backup)) w) as [err w1].
    destruct err as [err|].
    + cbn [run]. intros [= <- <- <-]. split; [reflexivity|]. now split.
    + specialize (IH (n + 1)%Z w1). destruct (run h (deleteS3 rest (n + 1)) w1) as [[r' t'] w2].
      destruct (IH _ _ _ eq_refl) as [Hl Hf]. intros [= <- <- <-].
      split; [exact Hl|exact Hf].
Qed.

(** One backend of one service, after its listing. *)
Lemma backend_stopped (del : list BackupFile -> Z -> prog (outcome Z))
    (retainCount : Z) (key : string) (deletedCounts : gmap string Z)
    (sorted : list BackupFile) w a t w' :
  (forall backups n w r t w', run h (del backups n) w = (r, t, w') -> stopped_at_failure r t) ->
  run h (if (retainCount <? Z.of_nat (length sorted))%Z then
           match beyond retainCount sorted with
           | None => Ret (Panic (slice_out_of_range retainCount))
           | Some old =>
             bind (del old 0%Z)
               (fun deletedCount =>
                  match deletedCount with
                  | Ok n => Ret (Ok (<[key := n]> deletedCounts))
                  | Err err => Ret (Err err)
                  | Panic msg => Ret (Panic msg)
                  end)
           end
         else Ret (Ok deletedCounts)) w = (a, t, w') ->
  stopped_at_failure a t.
Proof.
  intros Hdel.
  destruct (retainCount <? Z.of_nat (length sorted))%Z.
  - unfold beyond. destruct (retainCount <? 0)%Z.
    + intros [= <- <- <-]. split; [reflexivity|]. cbn. discriminate.
    + rewrite run_bind.
      destruct (run h (del _ 0%Z) w) as [[rd td] w2] eqn:Hrun.
      pose proof (Hdel _ _ _ _ _ _ Hrun) as Hst.
      destruct rd as [n|err|msg]; cbn [run]; intros [= <- <- <-];
        (eapply stopped_seq; [exact Hst|]); cbn; [|now split..].
      split; [reflexivity|]. cbn. discriminate.
  - cbn [run]. intros [= <- <- <-]. split; [reflexivity|]. cbn. discriminate.
Qed.

Lemma cleanupService_stopped m name service deletedCounts w r t w' :
  run h (cleanupService sort_Slice m name service deletedCounts) w = (r, t, w') ->
  stopped_at_failure r t.
Proof.
  unfold cleanupService. unfold mbind, prog_bind. cbn [bind perform run].
  destruct (h _ (List_ Synology (name +:+ "-")) w) as [listed w1].
  destruct listed as [synologyBackups|err|msg]; cbn [run].
  2:{ intros [= <- <- <-]. split; [reflexivity|]. now split. }
  2:{ intros [= <- <- <-]. split; [reflexivity|]. cbn. discriminate. }
  rewrite run_bind.
  match goal with |- context [run h ?p w1] =>
    destruct (run h p w1) as [[a t0] w2] eqn:Hsyn end.
  apply (backend_stopped deleteSynology) in Hsyn; [|exact deleteSynology_stopped].
  assert (Hfirst : forall (r' : outcome (gmap string Z)) t',
            stopped_at_failure r' t' ->
            stopped_at_failure r'
              (Ev (List_ Synology (name +:+ "-")) (Ok synologyBackups) :: t')).
  { intros r' t' Hst.
    change (stopped_at_failure r'
              ([Ev (List_ Synology (name +:+ "-")) (Ok synologyBackups)] ++ t')).
    apply (stopped_seq (Ok ())); [split; [reflexivity|cbn; discriminate]|exact Hst]. }
  destruct a as [counts|err|msg]; cbn [run].
  2:{ intros [= <- <- <-]. apply Hfirst. rewrite app_nil_r. exact Hsyn. }
  2:{ intros [= <- <- <-]. apply Hfirst. rewrite app_nil_r. exact Hsyn. }
  destruct (has_S3 m).
  - cbn [run].
    destruct (h _ (List_ S3 (name +:+ "-")) w2) as [listed w3].
    destruct listed as [s3Backups|err|msg]; cbn [run].
    2:{ intros [= <- <- <-]. apply Hfirst. eapply stopped_seq; [exact Hsyn|].
        split; [reflexivity|]. now split. }
    2:{ intros [= <- <- <-]. apply Hfirst. eapply stopped_seq; [exact Hsyn|].
        split; [reflexivity|]. cbn. discriminate. }
    match goal with |- context [run h ?p w3] =>
      destruct (run h p w3) as [[a t1] w4] eqn:Hs3 end.
    apply (backend_stopped deleteS3) in Hs3; [|exact deleteS3_stopped].
    intros [= <- <- <-]. apply Hfirst.
    eapply stopped_seq; [exact Hsyn|].
    change (stopped_at_failure a ([Ev (List_ S3 (name +:+ "-")) (Ok s3Backups)] ++ t1)).
    apply (stopped_seq (Ok ())); [split; [reflexivity|cbn; discriminate]|exact Hs3].
  - cbn [run]. intros [= <- <- <-]. apply Hfirst. rewrite app_nil_r. exact Hsyn.
Qed.

Lemma cleanupServices_stopped m services : forall deletedCounts w r t w',
  run h (cleanupServices sort_Slice m services deletedCounts) w = (r, t, w') ->
  stopped_at_failure r t.
Proof.
  induction services as [|[name service] rest IH]; intros dc w r t w'; cbn [cleanupServices].
  - intros [= <- <- <-]. split; [reflexivity|]. cbn. discriminate.
  - unfold mbind, prog_bind. rewrite run_bind.
    destruct (run h (cleanupService sort_Slice m name service dc) w) as [[a t0] w1] eqn:Hone.
    apply cleanupService_stopped in Hone.
    destruct a as [counts|err|msg]; cbn [run].
    + destruct (run h (cleanupServices sort_Slice m rest counts) w1) as [[b t1] w2] eqn:Hrest.
      intros [= <- <- <-]. eapply stopped_seq; [exact Hone|]. eapply IH; eassumption.
    + intros [= <- <- <-]. eapply stopped_seq; [exact Hone|]. now split.
    + intros [= <- <- <-]. eapply stopped_seq; [exact Hone|]. now split.
Qed.

(** [CleanupBackups] makes list and delete calls only, and stops at the
    first one that fails, except a delete on the primary backend that fails
    because the file does not exist: that failure is the last call of the
    run and its error, naming the backend and for a delete the artifact, is
    what the run returns; nothing is undone.  A run in which no call fails
    so returns an error only for a service that is not configured, having
    made no call. *)
Theorem cleanup_stops_at_first_failure (m : Manager) (serviceName : string) (w : W) :
  let '(result, trace, _) := run h (CleanupBackups sort_Slice range m serviceName) w in
  (result = Err ("service " +:+ serviceName +:+ " not found") /\ trace = []) \/
  (forallb list_or_delete trace = true /\
   match first_fatal trace with
   | Some (msg, post) => post = [] /\ result = Err msg
   | None => forall err, result <> Err err
   end).
Proof.
  unfold CleanupBackups.
  destruct (in_scope range m serviceName) as [services|].
  - destruct (run h (cleanupServices sort_Slice m services ∅) w) as [[r t] w'] eqn:Hrun.
    right. exact (cleanupServices_stopped _ _ _ _ _ _ _ Hrun).
  - left. split; reflexivity.
Qed.
End Failures.

(** * One service in scope *)
Section OneService.
Import storage config effects backup retention failure.
Context {W : Type} (h : forall X, call X -> W -> X * W).
Variable sort_Slice : (BackupFile -> BackupFile -> bool) -> list BackupFile -> list BackupFile.
Variable range : gmap string Service -> list (string * Service).
Hypothesis sort_contract : Slice_contract sort_Slice.
Hypothesis visit_contract : range_contract range.

(** For a service named on the command line the loop over the services has
    one turn. *)
Lemma CleanupBackups_named m serviceName service w :
  serviceName <> "" ->
  Services (config_ m) !! serviceName = Some service ->
  run h (CleanupBackups sort_Slice range m serviceName) w
  = run h (cleanupService sort_Slice m serviceName service ∅) w.
Proof.
  intros Hne Hs. unfold CleanupBackups, in_scope.
  apply String.eqb_neq in Hne. rewrite Hne, Hs.
  pose proof (visit_contract {[ serviceName := service ]}) as Hp.
  rewrite map_to_list_singleton in Hp. apply Permutation_singleton_r in Hp. rewrite Hp.
  cbn [cleanupServices]. unfold mbind, prog_bind. rewrite run_bind.
  destruct (run h (cleanupService sort_Slice m serviceName service ∅) w) as [[r t] w1].
  destruct r; cbn [run]; now rewrite app_nil_r.
Qed.

Lemma deleted_count_app b t1 t2 :
  deleted_count b (t1 ++ t2) = (deleted_count b t1 + deleted_count b t2)%Z.
Proof. unfold deleted_count. rewrite omap_app, length_app. lia. Qed.

Lemma deleteSynology_count backups : forall deletedCount w n t w',
  run h (deleteSynology backups deletedCount) w = (Ok n, t, w') ->
  n = (deletedCount + deleted_count Synology t)%Z /\ deleted_count S3 t = 0%Z.
Proof.
  induction backups as [|backup rest IH]; intros c w n t w'; cbn [deleteSynology].
  - intros [= <- <- <-]. change (deleted_count Synology []) with 0%Z.
    change (deleted_count S3 []) with 0%Z. split; [lia|reflexivity].
  - unfold mbind, prog_bind. cbn [bind perform run].
    destruct (h _ (Delete Synology (Name backup)) w) as [err w1].
    destruct err as [err|]; [destruct (strings.Contains err "file does not exist")|].
    + specialize (IH c w1). destruct (run h (deleteSynology rest c) w1) as [[r' t'] w2].
      intros [= -> <- <-]. destruct (IH _ _ _ eq_refl) as [-> H3]. split; [reflexivity|exact H3].
    + cbn [run]. discriminate.
    + specialize (IH (c + 1)%Z w1). destruct (run h (deleteSynology rest (c + 1)) w1) as [[r' t'] w2].
      intros [= -> <- <-]. destruct (IH _ _ _ eq_refl) as [-> H3]. split; [|exact H3].
      change (Ev (Delete Synology (Name backup)) None :: t')
        with ([Ev (Delete Synology (Name backup)) (@None error)] ++ t').
      rewrite deleted_count_app. change (deleted_count Synology [_]) with 1%Z. lia.
Qed.

Lemma deleteS3_count backups : forall deletedCount w n t w',
  run h (deleteS3 backups deletedCount) w = (Ok n, t, w') ->
  n = (deletedCount + deleted_count S3 t)%Z /\ deleted_count Synology t = 0%Z.
Proof.
  induction backups as [|backup rest IH]; intros c w n t w'; cbn [deleteS3].
  - intros [= <- <- <-]. change (deleted_count Synology []) with 0%Z.
    change (deleted_count S3 []) with 0%Z. split; [lia|reflexivity].
  - unfold mbind, prog_bind. cbn [bind perform run].
    destruct (h _ (Delete S3 (Name backup)) w) as [err w1].
    destruct err as [err|].
    + cbn [run]. discriminate.
    + specialize (IH (c + 1)%Z w1). destruct (run h (deleteS3 rest (c + 1)) w1) as [[r' t'] w2].
      intros [= -> <- <-]. destruct (IH _ _ _ eq_refl) as [-> H3]. split; [|exact H3].
      change (Ev (Delete S3 (Name backup)) None :: t')
        with ([Ev (Delete S3 (Name backup)) (@None error)] ++ t').
      rewrite deleted_count_app. change (deleted_count S3 [_]) with 1%Z. lia.
Qed.

(** The entry one backend leaves in the map of counts. *)
Lemma backend_count (del : list BackupFile -> Z -> prog (outcome Z)) (b b' : Backend)
    (retainCount : Z) (key : string) (deletedCounts counts : gmap string Z)
    (listed : list BackupFile) w t w' :
  (forall backups c w n t w', run h (del backups c) w = (Ok n, t, w') ->
     n = (c + deleted_count b t)%Z /\ deleted_count b' t = 0%Z) ->
  run h (if (retainCount <? Z.of_nat (length (sort_Slice newer listed)))%Z then
           match beyond retainCount (sort_Slice newer listed) with
           | None => Ret (Panic (slice_out_of_range retainCount))
           | Some old =>
             bind (del old 0%Z)
               (fun deletedCount =>
                  match deletedCount with
                  | Ok n => Ret (Ok (<[key := n]> deletedCounts))
                  | Err err => Ret (Err err)
                  | Panic msg => Ret (Panic msg)
                  end)
           end
         else Ret (Ok deletedCounts)) w = (Ok counts, t, w') ->
  counts = (if (retainCount <? Z.of_nat (length listed))%Z
            then <[key := deleted_count b t]> deletedCounts else deletedCounts) /\
  deleted_count b' t = 0%Z.
Proof.
  intros Hdel.
  rewrite (Permutation_length (proj1 (sort_contract listed))).
  destruct (retainCount <? Z.of_nat (length listed))%Z.
  - unfold beyond. destruct (retainCount <? 0)%Z; [discriminate|].
    rewrite run_bind.
    destruct (run h (del _ 0%Z) w) as [[rd td] w2] eqn:Hrun.
    destruct rd as [n|err|msg]; cbn [run]; [|discriminate..].
    intros [= <- <- <-]. destruct (Hdel _ _ _ _ _ _ Hrun) as [-> H0].
    rewrite app_nil_r. split; [f_equal; lia|exact H0].
  - cbn [run]. intros [= <- <- <-]. split; reflexivity.
Qed.

Lemma string_app_inv_head (a b c : string) : a +:+ b = a +:+ c -> b = c.
Proof.
  induction a as [|x a IH]; [trivial|].
  rewrite !string_app_cons. intros [= E]. auto.
Qed.

Lemma string_app_neq_self (a b : string) : b <> "" -> a <> a +:+ b.
Proof.
  intros Hb E. apply (f_equal String.length) in E.
  rewrite string_length_app in E. destruct b; [congruence|cbn [String.length] in E; lia].
Qed.

(** The counts [CleanupBackups] returns for a named service: under the
    name with [_synology] or [_s3] appended, the number of deletes the
    backend answered without error (an artifact that was already gone is
    not counted), and no entry for a backend whose listing is within the
    retain count.  There is never an entry under the bare name of the
    service. *)
Theorem cleanup_counts (m : Manager) (serviceName : string) (service : Service) (w : W)
    (counts : gmap string Z) (trace : list event) (w' : W) :
  serviceName <> "" ->
  Services (config_ m) !! serviceName = Some service ->
  run h (CleanupBackups sort_Slice range m serviceName) w = (Ok counts, trace, w') ->
  exists synologyBackups s3Backups,
    omap list_of trace =
      (Synology, serviceName +:+ "-", Ok synologyBackups)
      :: (if has_S3 m then [(S3, serviceName +:+ "-", Ok s3Backups)] else []) /\
    counts !! (serviceName +:+ "_synology")
      = (if (retainCount m service <? Z.of_nat (length synologyBackups))%Z
         then Some (deleted_count Synology trace) else None) /\
    counts !! (serviceName +:+ "_s3")
      = (if has_S3 m && (retainCount m service <? Z.of_nat (length s3Backups))%Z
         then Some (deleted_count S3 trace) else None) /\
    counts !! serviceName = None.
Proof.
  intros Hne Hs. rewrite (CleanupBackups_named _ _ _ _ Hne Hs).
  assert (Hk1 : serviceName +:+ "_synology" <> serviceName +:+ "_s3")
    by (intros E; apply string_app_inv_head in E; discriminate E).
  assert (Hk2 : serviceName +:+ "_synology" <> serviceName)
    by (intros E; symmetry in E; revert E; now apply string_app_neq_self).
  assert (Hk3 : serviceName +:+ "_s3" <> serviceName)
    by (intros E; symmetry in E; revert E; now apply string_app_neq_self).
  assert (HdS : forall backups n w r t w', run h (deleteSynology backups n) w = (r, t, w') ->
            omap list_of t = [] /\ deletes_on S3 t = [] /\
            (succeeded r = true -> deletes_on Synology t = map Name backups))
    by (intros; edestruct (deleteSynology_trace h) as (?&?&?&?); eauto).
  assert (Hd3 : forall backups n w r t w', run h (deleteS3 backups n) w = (r, t, w') ->
            omap list_of t = [] /\ deletes_on Synology t = [] /\
            (succeeded r = true -> deletes_on S3 t = map Name backups))
    by (intros; edestruct (deleteS3_trace h) as (?&?&?&?); eauto).
  unfold cleanupService. unfold mbind, prog_bind. cbn [bind perform run].
  destruct (h _ (List_ Synology (serviceName +:+ "-")) w) as [listed w1].
  destruct listed as [synologyBackups|err|msg]; cbn [run]; [|discriminate..].
  rewrite run_bind.
  match goal with |- context [run h ?p w1] =>
    destruct (run h p w1) as [[a t0] w2] eqn:Hsyn end.
  destruct a as [counts0|err|msg]; cbn [run]; [|discriminate..].
  destruct (backend_phase h sort_Slice deleteSynology Synology S3 _ _ _ _ _ _ _ _
              sort_contract HdS Hsyn eq_refl) as (Hl0 & _ & _).
  apply (backend_count deleteSynology Synology S3) in Hsyn as [-> H3];
    [|exact deleteSynology_count].
  destruct (has_S3 m).
  - cbn [run].
    destruct (h _ (List_ S3 (serviceName +:+ "-")) w2) as [listed w3].
    destruct listed as [s3Backups|err|msg]; cbn [run]; [|discriminate..].
    match goal with |- context [run h ?p w3] =>
      destruct (run h p w3) as [[a t1] w4] eqn:Hs3 end.
    intros [= -> <- <-].
    destruct (backend_phase h sort_Slice deleteS3 S3 Synology _ _ _ _ _ _ _ _
                sort_contract Hd3 Hs3 eq_refl) as (Hl1 & _ & _).
    apply (backend_count deleteS3 S3 Synology) in Hs3 as [-> H0];
      [|exact deleteS3_count].
    exists synologyBackups, s3Backups.
    change (Ev (List_ Synology (serviceName +:+ "-")) (Ok synologyBackups)
              :: t0 ++ Ev (List_ S3 (serviceName +:+ "-")) (Ok s3Backups) :: t1)
      with ([Ev (List_ Synology (serviceName +:+ "-")) (Ok synologyBackups)] ++ t0
              ++ [Ev (List_ S3 (serviceName +:+ "-")) (Ok s3Backups)] ++ t1).
    rewrite !deleted_count_app, H3, H0, !omap_app, Hl0, Hl1.
    change (deleted_count Synology [_]) with 0%Z. change (deleted_count S3 [_]) with 0%Z.
    rewrite !Z.add_0_l, !Z.add_0_r.
    split; [reflexivity|]. cbn [andb].
    destruct (retainCount m service <? Z.of_nat (length synologyBackups))%Z,
             (retainCount m service <? Z.of_nat (length s3Backups))%Z;
      repeat first [ rewrite lookup_insert_eq
                   | rewrite lookup_insert_ne by (assumption || (apply not_eq_sym; assumption))
                   | rewrite lookup_empty ];
      auto.
  - cbn [run]. intros [= <- <- <-].
    exists synologyBackups, [].
    rewrite app_nil_r.
    change (Ev (List_ Synology (serviceName +:+ "-")) (Ok synologyBackups) :: t0)
      with ([Ev (List_ Synology (serviceName +:+ "-")) (Ok synologyBackups)] ++ t0).
    rewrite !deleted_count_app, !omap_app, Hl0.
    change (deleted_count Synology [_]) with 0%Z.
    rewrite !Z.add_0_l.
    split; [reflexivity|]. cbn [andb].
    destruct (retainCount m service <? Z.of_nat (length synologyBackups))%Z;
      repeat first [ rewrite lookup_insert_eq
                   | rewrite lookup_insert_ne by (assumption || (apply not_eq_sym; assumption))
                   | rewrite lookup_empty ];
      auto.
Qed.

(** A negative retain count makes the cleanup of a service panic at the
    slice expression as soon as the primary backend has listed its
    artifacts, before any delete. *)
Theorem negative_retain_panics (m : Manager) (serviceName : string) (service : Service)
    (w : W) (synologyBackups : list BackupFile) (w1 : W) :
  serviceName <> "" ->
  Services (config_ m) !! serviceName = Some service ->
  (retainCount m service < 0)%Z ->
  h _ (List_ Synology (serviceName +:+ "-")) w = (Ok synologyBackups, w1) ->
  run h (CleanupBackups sort_Slice range m serviceName) w
  = (Panic ("runtime error: slice bounds out of range [" +:+ pretty (retainCount m service)
            +:+ ":]"),
     [Ev (List_ Synology (serviceName +:+ "-")) (Ok synologyBackups)], w1).
Proof.
  intros Hne Hs Hneg Hlist. rewrite (CleanupBackups_named _ _ _ _ Hne Hs).
  unfold cleanupService. unfold mbind, prog_bind. cbn [bind perform run].
  rewrite Hlist. cbn [run]. rewrite run_bind.
  replace (retainCount m service <? Z.of_nat (length (sort_Slice newer synologyBackups)))%Z
    with true by (symmetry; apply Z.ltb_lt; lia).
  unfold beyond. replace (retainCount m service <? 0)%Z with true by (symmetry; now apply Z.ltb_lt).
  reflexivity.
Qed.

(** With a retain count of zero, which is what a configuration that sets
    none gets, a cleanup that returns no error has asked every configured
    backend to delete every artifact it listed for the service. *)
Theorem zero_retain_deletes_all (m : Manager) (serviceName : string) (service : Service)
    (w : W) (result : outcome (gmap string Z)) (trace : list event) (w' : W) :
  serviceName <> "" ->
  Services (config_ m) !! serviceName = Some service ->
  retainCount m service = 0%Z ->
  run h (CleanupBackups sort_Slice range m serviceName) w = (result, trace, w') ->
  succeeded result = true ->
  exists synologyBackups s3Backups,
    omap list_of trace =
      (Synology, serviceName +:+ "-", Ok synologyBackups)
      :: (if has_S3 m then [(S3, serviceName +:+ "-", Ok s3Backups)] else []) /\
    Permutation (deletes_on Synology trace) (map Name synologyBackups) /\
    (has_S3 m = true -> Permutation (deletes_on S3 trace) (map Name s3Backups)).
Proof.
  intros Hne Hs Hzero Hrun Hok. rewrite (CleanupBackups_named _ _ _ _ Hne Hs) in Hrun.
  destruct (cleanupService_cleaned h sort_Slice m _ _ _ _ _ _ _ sort_contract Hrun Hok)
    as (syn & s3 & Hl & Hc & Hc3).
  cbn [fst snd] in *. rewrite Hzero in *.
  assert (Hall : forall listed deleted, backend_cleaned 0 listed deleted ->
                   Permutation deleted (map Name listed)).
  { intros listed deleted (kept & due & Hp & Hlen & _ & ->).
    destruct kept; [|cbn in Hlen; lia]. cbn [app] in Hp. now rewrite Hp. }
  exists syn, s3. split; [exact Hl|]. split; [now apply Hall|].
  intros H3. rewrite H3 in Hc3. now apply Hall.
Qed.
End OneService.

Lemma cleanup_counts_witness :
  exists synologyBackups s3Backups,
    omap effects.list_of (scenario.cleanup 2 true scenario.both).1.2 =
      (storage.Synology, "test" +:+ "-", Ok synologyBackups)
      :: (if backup.has_S3 (scenario.manager 2 true)
          then [(storage.S3, "test" +:+ "-", Ok s3Backups)] else []) /\
    (default ∅ (match (scenario.cleanup 2 true scenario.both).1.1 with
                | Ok c => Some c | _ => None end)) !! ("test" +:+ "_synology")
      = (if (2 <? Z.of_nat (length synologyBackups))%Z
         then Some (failure.deleted_count storage.Synology
                      (scenario.cleanup 2 true scenario.both).1.2) else None) /\
    (default ∅ (match (scenario.cleanup 2 true scenario.both).1.1 with
                | Ok c => Some c | _ => None end)) !! ("test" +:+ "_s3")
      = (if backup.has_S3 (scenario.manager 2 true) && (2 <? Z.of_nat (length s3Backups))%Z
         then Some (failure.deleted_count storage.S3
                      (scenario.cleanup 2 true scenario.both).1.2) else None) /\
    (default ∅ (match (scenario.cleanup 2 true scenario.both).1.1 with
                | Ok c => Some c | _ => None end)) !! "test" = None.
Proof.
  refine (cleanup_counts mock.handle sort.Slice map_to_list Slice_meets_contract
            map_to_list_meets_contract (scenario.manager 2 true) "test" (scenario.service 2)
            scenario.both
            (default ∅ (match (scenario.cleanup 2 true scenario.both).1.1 with
                        | Ok c => Some c | _ => None end))
            (scenario.cleanup 2 true scenario.both).1.2
            (scenario.cleanup 2 true scenario.both).2 _ _ _).
  - discriminate.
  - reflexivity.
  - vm_compute. reflexivity.
Defined.

Lemma negative_retain_panics_witness :
  scenario.cleanup (-1) false scenario.both
  = (Panic ("runtime error: slice bounds out of range [" +:+ pretty (-1)%Z +:+ ":]"),
     [effects.Ev (effects.List_ storage.Synology ("test" +:+ "-"))
        (Ok [scenario.jan1; scenario.jan2; scenario.jan3])],
     scenario.both).
Proof.
  refine (negative_retain_panics mock.handle sort.Slice map_to_list map_to_list_meets_contract
            (scenario.manager (-1) false) "test" (scenario.service (-1)) scenario.both
            [scenario.jan1; scenario.jan2; scenario.jan3] scenario.both _ _ _ _).
  - discriminate.
  - reflexivity.
  - vm_compute. reflexivity.
  - reflexivity.
Defined.

Lemma zero_retain_deletes_all_witness :
  exists synologyBackups s3Backups,
    omap effects.list_of (scenario.cleanup 0 true scenario.both).1.2 =
      (storage.Synology, "test" +:+ "-", Ok synologyBackups)
      :: (if backup.has_S3 (scenario.manager 0 true)
          then [(storage.S3, "test" +:+ "-", Ok s3Backups)] else []) /\
    Permutation (retention.deletes_on storage.Synology (scenario.cleanup 0 true scenario.both).1.2)
                (map storage.Name synologyBackups) /\
    (backup.has_S3 (scenario.manager 0 true) = true ->
     Permutation (retention.deletes_on storage.S3 (scenario.cleanup 0 true scenario.both).1.2)
                 (map storage.Name s3Backups)).
Proof.
  refine (zero_retain_deletes_all mock.handle sort.Slice map_to_list Slice_meets_contract
            map_to_list_meets_contract (scenario.manager 0 true) "test" (scenario.service 0)
            scenario.both
            (scenario.cleanup 0 true scenario.both).1.1 (scenario.cleanup 0 true scenario.both).1.2
            (scenario.cleanup 0 true scenario.both).2 _ _ _ _ _).
  - discriminate.
  - reflexivity.
  - reflexivity.
  - unfold scenario.cleanup. destruct (effects.run _ _ _) as [[? ?] ?]. reflexivity.
  - vm_compute. reflexivity.
Defined.


(** * More on the container lifecycle *)
Section Quiesce.
Import docker backup.
Local Open Scope Z_scope.

Lemma stop_turn_success name o :
  stop_turn name o = Done (Ok ()) ->
  elapsed o < 2 * Minute /\ exists info, inspect o = Ok info /\ Running info = false.
Proof.
  unfold stop_turn. destruct (timed_out o) eqn:Ht; [discriminate|].
  assert (elapsed o < 2 * Minute) by (unfold timed_out in Ht; apply Z.leb_gt in Ht; exact Ht).
  destruct (inspect o) as [info|e|msg]; try discriminate.
  destruct (Running info) eqn:Hr; [discriminate|].
  intros _. split; [assumption|]. now exists info.
Qed.

Lemma stop_turn_again name o :
  stop_turn name o = Again ->
  elapsed o < 2 * Minute /\ exists info, inspect o = Ok info /\ Running info = true.
Proof.
  unfold stop_turn. destruct (timed_out o) eqn:Ht; [discriminate|].
  assert (elapsed o < 2 * Minute) by (unfold timed_out in Ht; apply Z.leb_gt in Ht; exact Ht).
  destruct (inspect o) as [info|e|msg]; try discriminate.
  destruct (Running info) eqn:Hr; [|discriminate].
  intros _. split; [assumption|]. now exists info.
Qed.

(** Quiesce: after a stop request that was accepted, the loop reports
    success only on an observation, made before the two minutes are over,
    of a container that is not running, every earlier observation having
    shown it running; once the two minutes are over it reports the timeout,
    whatever the container shows by then.  A stop request that is refused
    is reported without any polling. *)
Theorem stop_outcome (d : daemon) (containerName : string) :
  (forall err, stop_error d = Some err ->
     handleDockerContainer d containerName true
     = Some (Err ("failed to stop container: " +:+ err))) /\
  (stop_error d = None ->
   (handleDockerContainer d containerName true = Some (Ok ()) ->
    exists before o info after,
      polls d = before ++ o :: after /\
      Forall (fun o' => elapsed o' < 2 * Minute /\
                        exists info', inspect o' = Ok info' /\ Running info' = true) before /\
      elapsed o < 2 * Minute /\ inspect o = Ok info /\ Running info = false) /\
   (forall before o after,
      polls d = before ++ o :: after ->
      Forall (fun o' => stop_turn containerName o' = Again) before ->
      2 * Minute <= elapsed o ->
      handleDockerContainer d containerName true
      = Some (Err ("timeout waiting for container " +:+ containerName +:+ " to stop")))).
Proof.
  split.
  - intros err He. unfold handleDockerContainer. now rewrite He.
  - intros Hs. unfold handleDockerContainer. rewrite Hs. split.
    + intros Hp. apply poll_decided in Hp as (before & o & after & Hpolls & Hb & Ho).
      apply stop_turn_success in Ho as (Hlt & info & Hi & Hr).
      exists before, o, info, after. repeat split; try assumption.
      eapply Forall_impl; [exact Hb|]. intros o' Ho'. now apply (stop_turn_again containerName).
    + intros before o after Hpolls Hb Ht. rewrite Hpolls.
      apply poll_decides; [assumption|].
      unfold stop_turn. apply timed_out_iff in Ht. now rewrite Ht.
Qed.

(** An answer of the Docker daemon that is an error ends the call at once:
    a refused start, a failed inspection after the start, and a failed
    inspection in any of the three polling loops are returned, not
    retried. *)
Theorem daemon_errors_not_retried (d : daemon) (containerName : string)
    (before after : list observation) (o : observation) (err : error) :
  polls d = before ++ o :: after ->
  elapsed o < 2 * Minute ->
  inspect o = Err err ->
  (stop_error d = None ->
   Forall (fun o' => stop_turn containerName o' = Again) before ->
   handleDockerContainer d containerName true
   = Some (Err ("failed to inspect container: " +:+ err))) /\
  (start_error d = None ->
   forall info0, started d = Ok info0 ->
     (Health info0 <> None ->
      Forall (fun o' => health_turn containerName o' = Again) before ->
      handleDockerContainer d containerName false
      = Some (Err ("failed to inspect container health: " +:+ err))) /\
     (Health info0 = None ->
      Forall (fun o' => running_turn containerName o' = Again) before ->
      handleDockerContainer d containerName false
      = Some (Err ("failed to inspect container: " +:+ err)))) /\
  (forall err', start_error d = Some err' ->
     handleDockerContainer d containerName false
     = Some (Err ("failed to start container: " +:+ err'))) /\
  (forall err', start_error d = None -> started d = Err err' ->
     handleDockerContainer d containerName false
     = Some (Err ("failed to inspect container: " +:+ err'))).
Proof.
  intros Hpolls Hlt Hi.
  assert (Ht : timed_out o = false) by (unfold timed_out; apply Z.leb_gt; exact Hlt).
  unfold handleDockerContainer. repeat split.
  - intros -> Hb. rewrite Hpolls. apply poll_decides; [assumption|].
    unfold stop_turn. now rewrite Ht, Hi.
  - intros Hh Hb. rewrite H, H0. destruct (Health info0); [|congruence].
    rewrite Hpolls. apply poll_decides; [assumption|].
    unfold health_turn. now rewrite Ht, Hi.
  - intros Hh Hb. rewrite H, H0, Hh.
    rewrite Hpolls. apply poll_decides; [assumption|].
    unfold running_turn. now rewrite Ht, Hi.
  - intros err' ->. reflexivity.
  - intros err' -> ->. reflexivity.
Qed.
End Quiesce.

Lemma stop_outcome_witness :
  exists before o info after,
    docker.polls daemon_stopping = before ++ o :: after /\
    Forall (fun o' => (docker.elapsed o' < 2 * backup.Minute)%Z /\
                      exists info', docker.inspect o' = Ok info' /\ docker.Running info' = true)
           before /\
    (docker.elapsed o < 2 * backup.Minute)%Z /\ docker.inspect o = Ok info /\
    docker.Running info = false.
Proof.
  refine (proj1 (proj2 (stop_outcome daemon_stopping "web") _) _); reflexivity.
Defined.

Lemma daemon_errors_not_retried_witness :
  backup.handleDockerContainer daemon_unreachable "web" true
  = Some (Err ("failed to inspect container: " +:+ "Cannot connect to the Docker daemon")).
Proof.
  refine (proj1 (daemon_errors_not_retried daemon_unreachable "web" [] []
                   {| docker.elapsed := 0;
                      docker.inspect := Err "Cannot connect to the Docker daemon" |}
                   "Cannot connect to the Docker daemon" _ _ _) _ _).
  - reflexivity.
  - reflexivity.
  - reflexivity.
  - reflexivity.
  - constructor.
Defined.


(** * More on exclusion *)
Section ExclusionFacts.
Import exclusion.

(** A path is excluded exactly when the path or one of its iterated parents
    matches a pattern. *)
Lemma isExcluded_spec path excludePatterns :
  isExcluded path excludePatterns = true <->
  exists pattern k, In pattern excludePatterns /\
                    matches pattern (Nat.iter k parent path) = true.
Proof.
  induction excludePatterns as [|pattern rest IH].
  - split; [discriminate|]. intros (pattern & k & [] & _).
  - rewrite isExcluded_cons, !orb_true_iff, IH, existsb_exists.
    unfold filepath.ToSlash. split.
    + intros [[Hm|(d & Hin & Hm)]|(p & k & Hin & Hm)].
      * exists pattern, 0%nat. split; [now left|exact Hm].
      * destruct (ancestors_iter _ _ _ Hin) as [k ->].
        exists pattern, (S k). split; [now left|exact Hm].
      * exists p, k. split; [now right|assumption].
    + intros (p & k & [<-|Hin] & Hm); [|right; now exists p, k].
      left.
      destruct (iter_ancestors (S (String.length path)) path ltac:(right; right; lia) k)
        as [Heq|Hin].
      * left. now rewrite Heq in Hm.
      * right. eauto.
Qed.

Lemma walk_excluded excludePatterns rel n :
  isExcluded rel excludePatterns = true -> walk excludePatterns rel n = [].
Proof. intros H. destruct n; cbn [walk]; now rewrite H. Qed.

Lemma walk_entries excludePatterns : forall k n rel,
  (node_size n <= k)%nat ->
  Forall (fun hd => isExcluded (Name hd) excludePatterns = false)
         (walk excludePatterns rel n).
Proof.
  induction k as [|k IH]; intros n rel Hk; [destruct n; cbn in Hk; lia|].
  destruct n as [content|entries|target]; cbn [walk];
    destruct (isExcluded rel excludePatterns) eqn:E; try constructor; try assumption;
    try constructor.
  cbn [node_size] in Hk. apply le_S_n in Hk.
  induction entries as [|[name c] es IHes]; [constructor|].
  apply Forall_app. split.
  - apply IH. lia.
  - apply IHes. lia.
Qed.

(** No entry of the archive is an excluded path: neither the path of an
    entry nor any of its parents matches a pattern. *)
Theorem archive_holds_no_excluded_path (excludePatterns : list string) (rel : string) (n : node) :
  Forall (fun hd =>
            isExcluded (Name hd) excludePatterns = false /\
            forall pattern k, In pattern excludePatterns ->
              matches pattern (Nat.iter k parent (Name hd)) = false)
         (walk excludePatterns rel n).
Proof.
  eapply Forall_impl; [exact (walk_entries excludePatterns _ n rel (le_n _))|].
  intros hd Hx. split; [exact Hx|]. intros pattern k Hin.
  destruct (matches pattern (Nat.iter k parent (Name hd))) eqn:Hm; [|reflexivity].
  assert (isExcluded (Name hd) excludePatterns = true) by (apply isExcluded_spec; eauto).
  congruence.
Qed.

(** ** The parent loop *)

Lemma ancestors_at_end fuel dir : dir = "." \/ dir = "/" -> ancestors fuel dir = [].
Proof. intros [-> | ->]; destruct fuel; reflexivity. Qed.

Lemma parent_shrinks dir :
  dir <> "." -> dir <> "/" ->
  parent dir = "." \/ parent dir = "/" \/ (String.length (parent dir) < String.length dir)%nat.
Proof. intros _ _. exact (Dir_shrinks dir). Qed.

Lemma ancestors_stable fuel : forall dir,
  dir = "." \/ dir = "/" \/ (String.length dir < fuel)%nat ->
  ancestors (S fuel) dir = ancestors fuel dir.
Proof.
  induction fuel as [|f IH]; intros dir Hdir.
  - destruct Hdir as [->|[->|Hlt]]; [reflexivity..|lia].
  - destruct (String.eqb dir ".") eqn:E1;
      [apply String.eqb_eq in E1 as ->; reflexivity|].
    destruct (String.eqb dir "/") eqn:E2;
      [apply String.eqb_eq in E2 as ->; reflexivity|].
    cbn [ancestors]. rewrite E1, E2. cbn [negb andb]. f_equal.
    change (ancestors (S f) (parent dir) = ancestors f (parent dir)).
    apply IH. apply String.eqb_neq in E1, E2.
    destruct (parent_shrinks dir E1 E2) as [H|[H|H]]; [now left|now right; left|right; right].
    destruct Hdir as [?|[?|Hlt]]; [congruence..|lia].
Qed.

Lemma ancestors_enough fuel dir :
  (String.length dir < fuel)%nat -> ancestors fuel dir = ancestors (S (String.length dir)) dir.
Proof.
  intros Hlt. replace fuel with ((fuel - S (String.length dir)) + S (String.length dir))%nat by lia.
  induction (fuel - S (String.length dir))%nat as [|d IH]; [reflexivity|].
  cbn [Nat.add]. rewrite ancestors_stable; [exact IH|right; right; lia].
Qed.

Lemma ancestors_last fuel : forall dir,
  (String.length dir < fuel)%nat -> dir <> "." -> dir <> "/" ->
  exists visited, ancestors fuel dir = visited ++ ["."] \/ ancestors fuel dir = visited ++ ["/"].
Proof.
  induction fuel as [|f IH]; intros dir Hlt H1 H2; [lia|].
  cbn [ancestors].
  destruct (String.eqb_spec dir ".") as [?|_]; [congruence|].
  destruct (String.eqb_spec dir "/") as [?|_]; [congruence|].
  cbn [negb andb].
  destruct (parent_shrinks dir H1 H2) as [H|[H|H]].
  - exists []. left. now rewrite H, ancestors_at_end by now left.
  - exists []. right. now rewrite H, ancestors_at_end by now right.
  - destruct (String.eqb_spec (parent dir) ".") as [E|E1];
      [exists []; left; now rewrite E, ancestors_at_end by now left|].
    destruct (String.eqb_spec (parent dir) "/") as [E|E2];
      [exists []; right; now rewrite E, ancestors_at_end by now right|].
    destruct (IH (parent dir) ltac:(lia) E1 E2) as [visited [Hv|Hv]];
      exists (parent dir :: visited); [left|right]; now rewrite Hv.
Qed.

Lemma length_ancestors fuel : forall dir, (length (ancestors fuel dir) <= fuel)%nat.
Proof.
  induction fuel as [|f IH]; intros dir; cbn [ancestors]; [cbn; lia|].
  destruct (negb (String.eqb dir ".") && negb (String.eqb dir "/")); [|cbn; lia].
  cbn [length]. specialize (IH (parent dir)). lia.
Qed.

(** The loop over the parents of a path ends: it reaches [.] or [/] within
    as many turns as the path has characters and one more, and more turns
    would visit nothing else and decide nothing else. *)
Theorem parent_loop_ends (pattern dir : string) (fuel : nat) :
  (String.length dir < fuel)%nat ->
  ancestors fuel dir = ancestors (S (String.length dir)) dir /\
  parentMatches fuel pattern dir = parentMatches (S (String.length dir)) pattern dir /\
  (length (ancestors fuel dir) <= S (String.length dir))%nat /\
  (dir <> "." -> dir <> "/" ->
   exists visited, ancestors fuel dir = visited ++ ["."] \/ ancestors fuel dir = visited ++ ["/"]).
Proof.
  intros Hlt. pose proof (ancestors_enough fuel dir Hlt) as He.
  split; [exact He|]. split; [now rewrite !parentMatches_ancestors, He|]. split.
  - rewrite He. apply length_ancestors.
  - intros H1 H2. now apply ancestors_last.
Qed.

(** ** Children of an excluded directory *)

Lemma join_split s : filepath.join (filepath.split s) = s.
Proof.
  induction s as [|c r IH]; [reflexivity|].
  cbn [filepath.split]. destruct (Ascii.eqb_spec c filepath.Separator) as [->|Hc].
  - pose proof (split_nonempty r) as Hne.
    destruct (filepath.split r) as [|e es] eqn:E; [congruence|].
    change (filepath.join ("" :: e :: es))
      with ("" +:+ String filepath.Separator (filepath.join (e :: es))).
    now rewrite IH.
  - pose proof (split_nonempty r) as Hne.
    destruct (filepath.split r) as [|e es] eqn:E; [congruence|].
    destruct es as [|e' es].
    + cbn [filepath.join] in *. now rewrite IH.
    + change (filepath.join (String c e :: e' :: es))
        with (String c e +:+ String filepath.Separator (filepath.join (e' :: es))).
      change (filepath.join (e :: e' :: es))
        with (e +:+ String filepath.Separator (filepath.join (e' :: es))) in IH.
      now rewrite string_app_cons, IH.
Qed.

(** The parent of [rel/name], for a clean [rel] and a single element
    [name], is [rel]. *)
Lemma Dir_child rel name :
  rel <> "" -> filepath.Clean rel = rel -> filepath.split name = [name] ->
  filepath.Dir (rel +:+ String filepath.Separator name) = rel.
Proof.
  intros Hne Hclean Hname. unfold filepath.Dir, filepath.upto_last_separator.
  rewrite split_app_sep, Hname, removelast_last.
  pose proof (split_nonempty rel) as Hs.
  destruct (filepath.split rel) as [|e es] eqn:E; [congruence|].
  rewrite <- E, join_split, Clean_trailing_separator by assumption. exact Hclean.
Qed.

(** Exclusion is inherited: whatever lies in an excluded directory is
    excluded as well, so that skipping the directory leaves out nothing
    that the walk would have archived. *)
Theorem excluded_directory_excludes_children
    (excludePatterns : list string) (rel name : string) :
  rel <> "" -> filepath.Clean rel = rel -> filepath.split name = [name] ->
  isExcluded rel excludePatterns = true ->
  isExcluded (rel +:+ String filepath.Separator name) excludePatterns = true.
Proof.
  intros Hne Hclean Hname Hx.
  apply isExcluded_spec in Hx as (pattern & k & Hin & Hm).
  apply isExcluded_spec. exists pattern, (S k). split; [exact Hin|].
  rewrite Nat.iter_succ_r. unfold parent at 2. unfold filepath.ToSlash.
  now rewrite Dir_child.
Qed.
End ExclusionFacts.

Lemma parent_loop_ends_witness :
  exclusion.ancestors 40 "src/app/code.js"
    = exclusion.ancestors (S (String.length "src/app/code.js")) "src/app/code.js" /\
  exclusion.parentMatches 40 "**/node_modules/**" "src/app/code.js"
    = exclusion.parentMatches (S (String.length "src/app/code.js")) "**/node_modules/**"
        "src/app/code.js" /\
  (length (exclusion.ancestors 40 "src/app/code.js") <= S (String.length "src/app/code.js"))%nat /\
  ("src/app/code.js" <> "." -> "src/app/code.js" <> "/" ->
   exists visited,
     exclusion.ancestors 40 "src/app/code.js" = visited ++ ["."] \/
     exclusion.ancestors 40 "src/app/code.js" = visited ++ ["/"]).
Proof.
  apply (parent_loop_ends "**/node_modules/**" "src/app/code.js" 40).
  vm_compute. lia.
Defined.

Lemma excluded_directory_excludes_children_witness :
  exclusion.isExcluded ("node_modules/pkg" +:+ String filepath.Separator "index.js")
    ["**/node_modules/**"; "**/.git/**"] = true.
Proof.
  apply (excluded_directory_excludes_children ["**/node_modules/**"; "**/.git/**"]
           "node_modules/pkg" "index.js").
  - discriminate.
  - reflexivity.
  - reflexivity.
  - vm_compute. reflexivity.
Defined.

(** * The order of the backups *)
Section Order.
Import storage backup.

(** The comparison handed to [sort.Slice] is a strict weak order, as
    sorting requires: no backup is newer than itself, of two backups at most
    one is newer than the other, and both being newer and not being newer
    carry over a backup in between. *)
Theorem newer_strict_weak_order :
  (forall a, newer a a = false) /\
  (forall a b, newer a b = true -> newer b a = false) /\
  (forall a b c, newer a b = true -> newer b c = true -> newer a c = true) /\
  (forall a b c, newer b a = false -> newer c b = false -> newer c a = false).
Proof.
  split; [|split; [|split]].
  - intros a. destruct (newer a a) eqn:E; [|reflexivity].
    unfold newer in *. pose proof (After_asym _ _ E). congruence.
  - intros a b. apply After_asym.
  - intros a b c Hab Hbc. unfold newer in *.
    destruct (time.After (parseBackupTime (ModTime a)) (parseBackupTime (ModTime c))) eqn:E;
      [reflexivity|].
    pose proof (After_asym _ _ Hbc) as Hcb.
    pose proof (After_negtrans _ _ _ Hcb E). congruence.
  - intros a b c. apply After_negtrans.
Qed.
End Order.


(** * From a backup to its restore *)

(** Whatever [Encrypt] returns, [Decrypt] opens under the same key. *)
Lemma Decrypt_of_Encrypt (rand key plaintext c : list byte) :
  crypto.valid_key_length key ->
  crypto.Encrypt rand key plaintext = Ok c ->
  crypto.Decrypt key c = Ok plaintext.
Proof.
  intros Hk HE.
  destruct (le_lt_dec 12 (length rand)) as [Hr|Hr].
  - destruct (N.le_gt_cases (N.of_nat (length plaintext)) cipher.maxPlaintext) as [Hp|Hp].
    + rewrite Encrypt_unfold in HE by assumption. injection HE as <-.
      assert (Hn : length (take 12 rand) = 12) by (rewrite length_take; lia).
      rewrite Decrypt_split.
      * rewrite bool_decide_eq_true_2 by reflexivity. f_equal. apply counterCrypt_involutive.
      * assumption.
      * assumption.
      * unfold crypto.sealed_tag. exact (length_auth _ _ _ _).
      * unfold crypto.keystream_xor. now rewrite length_counterCrypt.
    + rewrite Encrypt_oversize in HE by (assumption || lia). discriminate HE.
  - unfold crypto.Encrypt in HE. rewrite (NewCipher_valid _ Hk) in HE.
    cbn [cipher.NewGCM] in HE. unfold io.ReadFull in HE.
    change (cipher.NonceSize _) with 12 in HE.
    replace (12 <=? length rand) with false in HE by (symmetry; apply Nat.leb_gt; lia).
    discriminate HE.
Qed.

Section Flow.
Import storage config effects backup.
Context {W : Type} (h : forall X, call X -> W -> X * W).

Ltac step_flow :=
  repeat first
    [ progress cbn [run bind mbind prog_bind mret prog_ret perform ok_or cipher.NewGCM
                    omap list_omap extract_of archive_of write_of content_of app fst snd]
    | match goal with
      | |- context [aes.NewCipher ?k] =>
        let E := fresh "HCipher" in destruct (aes.NewCipher k) as [?|?|?] eqn:E
      | |- context [h ?X ?c ?w] =>
        let r := fresh "r" in let w' := fresh "w" in
        destruct (h X c w) as [r w'];
        lazymatch type of r with
        | option _ => destruct r as [?|]
        | outcome _ => destruct r as [?|?|?]
        | _ => idtac
        end
      | |- context [crypto.Encrypt ?a ?b ?c] =>
        let E := fresh "HEnc" in destruct (crypto.Encrypt a b c) as [?|?|?] eqn:E
      | |- context [crypto.Decrypt ?a ?b] =>
        let E := fresh "HDec" in destruct (crypto.Decrypt a b) as [?|?|?] eqn:E
      end ].

(** A backup that succeeded archived the service path once and wrote one
    file, the encryption of that archive. *)
Lemma CreateBackup_success_flow (m : Manager) (serviceName : string) (w : W) :
  let '(result, trace, _) := run h (CreateBackup m serviceName) w in
  result = Ok () ->
  exists service archive rand data localPath,
    Services (config_ m) !! serviceName = Some service /\
    omap archive_of trace = [(Path service, Ok archive)] /\
    crypto.Encrypt rand (key m) archive = Ok data /\
    omap write_of trace = [(localPath, data, 384%N, None)].
Proof.
  unfold CreateBackup, archiveAndUpload, Encrypt.
  destruct (Services (config_ m) !! serviceName) as [service|] eqn:Hs;
    [|step_flow; discriminate].
  destruct (PreBackup service) as [c|], (Docker_ service), (has_S3 m); step_flow;
    intros Hok; first [discriminate Hok | eauto 12].
Qed.

Lemma RestoreBackup_extract_flow (m : Manager) (serviceName backupName : string) (w : W) :
  let '(_, trace, _) := run h (RestoreBackup m serviceName backupName) w in
  forall input destPath,
    (input, destPath) ∈ omap extract_of trace ->
    exists service localPath data,
      Services (config_ m) !! serviceName = Some service /\
      destPath = Path service /\
      omap content_of trace = [(localPath, Ok data)] /\
      crypto.Decrypt (key m) data = Ok input.
Proof.
  unfold RestoreBackup, decryptAndExtract.
  destruct (Services (config_ m) !! serviceName) as [service|] eqn:Hs;
    [|step_flow; intros ? ? Hin; inversion Hin].
  destruct (Docker_ service), (has_S3 m); step_flow;
    intros xinput xdest Hin;
    first [ solve [inversion Hin]
          | solve [apply list_elem_of_singleton in Hin; injection Hin as -> ->; eauto 10] ].
Qed.
End Flow.

(** What a restore extracts is the archive the backup made: when the file
    the restore reads holds what a successful backup wrote, under the same
    key, then the restore extracts, into the path of the service, exactly
    the bytes the backup archived. *)
Theorem restore_extracts_backed_up_archive
    {W1 W2 : Type} (h1 : forall X, effects.call X -> W1 -> X * W1)
    (h2 : forall X, effects.call X -> W2 -> X * W2)
    (m : backup.Manager) (serviceName backupName : string) (w1 w1' : W1) (w2 w2' : W2)
    (t1 t2 : list effects.event) (r2 : outcome ()) :
  crypto.valid_key_length (backup.key m) ->
  effects.run h1 (backup.CreateBackup m serviceName) w1 = (Ok (), t1, w1') ->
  effects.run h2 (backup.RestoreBackup m serviceName backupName) w2 = (r2, t2, w2') ->
  (forall localPath data,
     (localPath, Ok data) ∈ omap effects.content_of t2 ->
     exists written, (written, data, 384%N, None) ∈ omap effects.write_of t1) ->
  forall input destPath,
    (input, destPath) ∈ omap effects.extract_of t2 ->
    exists service,
      config.Services (backup.config_ m) !! serviceName = Some service /\
      destPath = config.Path service /\
      omap effects.archive_of t1 = [(config.Path service, Ok input)].
Proof.
  intros Hk H1 H2 Hsame input dest Hin.
  pose proof (CreateBackup_success_flow h1 m serviceName w1) as F1. rewrite H1 in F1.
  destruct (F1 eq_refl) as (service & archive & rand & data & l1 & Hs & Ha & HE & Hw).
  pose proof (RestoreBackup_extract_flow h2 m serviceName backupName w2) as F2. rewrite H2 in F2.
  destruct (F2 _ _ Hin) as (service' & l2 & d2 & Hs' & -> & Hc & HD).
  assert (service' = service) by congruence. subst service'.
  exists service. split; [exact Hs|]. split; [reflexivity|].
  destruct (Hsame l2 d2) as [written Hwr]; [rewrite Hc; now left|].
  rewrite Hw in Hwr. apply list_elem_of_singleton in Hwr. injection Hwr as _ <-.
  rewrite (Decrypt_of_Encrypt _ _ _ _ Hk HE) in HD. injection HD as <-. exact Ha.
Qed.

Lemma restore_extracts_backed_up_archive_witness :
  exists service,
    config.Services (backup.config_ dockerized.manager) !! "web" = Some service /\
    "/srv/web" = config.Path service /\
    omap effects.archive_of sandbox.backed_up.1.2 = [(config.Path service, Ok plaintext_A)].
Proof.
  refine (restore_extracts_backed_up_archive sandbox.handle sandbox.handle dockerized.manager
            "web" "web-2023-11-14T22-13-20Z.enc" sandbox.fresh sandbox.backed_up.2
            sandbox.backed_up.2 sandbox.restored.2 sandbox.backed_up.1.2 sandbox.restored.1.2
            sandbox.restored.1.1 _ _ _ _ plaintext_A "/srv/web" _).
  - right; right; reflexivity.
  - vm_compute. reflexivity.
  - unfold sandbox.restored. destruct (effects.run _ _ _) as [[? ?] ?]. reflexivity.
  - intros localPath data Hin. vm_compute in Hin.
    apply list_elem_of_singleton in Hin. injection Hin as -> ->.
    eexists. vm_compute. left.
  - vm_compute. left.
Defined.


(** * The list command *)
Section Listing.
Import storage effects backup cli.
Context {W : Type} (h : forall X, call X -> W -> X * W).
Variable sort_Slice : (BackupFile -> BackupFile -> bool) -> list BackupFile -> list BackupFile.

(** What the list command reports for a service on a backend: nothing for
    a backend that is not configured, without asking; the error of the
    listing; and else the number of artifacts listed under the prefix of
    the service together with one of them than which none is newer (none
    when there is no artifact). *)
Theorem getServiceBackupInfo_latest (store : option Backend) (serviceName : string) (w : W) :
  Slice_contract sort_Slice ->
  let '(result, trace, _) := run h (getServiceBackupInfo sort_Slice store serviceName) w in
  match store with
  | None => result = Ok {| count := 0; latest := None |} /\ trace = []
  | Some b =>
    exists answer, trace = [Ev (List_ b (serviceName +:+ "-")) answer] /\
      match answer with
      | Ok backups =>
        exists info, result = Ok info /\ count info = Z.of_nat (length backups) /\
          match latest info with
          | None => backups = []
          | Some f => f ∈ backups /\ forall g, g ∈ backups -> newer g f = false
          end
      | Err err => result = Err err
      | Panic msg => result = Panic msg
      end
  end.
Proof.
  intros Hsort. unfold getServiceBackupInfo.
  destruct store as [b|]; [|split; reflexivity].
  unfold mbind, prog_bind. cbn [bind perform run].
  destruct (h _ (List_ b (serviceName +:+ "-")) w) as [answer w1].
  destruct answer as [backups|err|msg]; cbn [run].
  2:{ eexists. split; reflexivity. }
  2:{ eexists. split; reflexivity. }
  destruct (Hsort backups) as [Hperm Hsorted].
  destruct (Z.eqb_spec (Z.of_nat (length backups)) 0) as [Hz|Hnz]; cbn [run].
  - eexists. split; [reflexivity|]. eexists. split; [reflexivity|].
    cbn [count latest]. split; [lia|]. destruct backups; [reflexivity|cbn in Hz; lia].
  - destruct (sort_Slice newer backups) as [|first rest] eqn:E.
    + apply Permutation_length in Hperm. cbn in Hperm. lia.
    + cbn [run]. eexists. split; [reflexivity|]. eexists. split; [reflexivity|].
      cbn [count latest]. split; [now rewrite (Permutation_length Hperm)|]. split.
      * rewrite <- Hperm. now left.
      * intros g Hg. rewrite <- Hperm in Hg. apply elem_of_cons in Hg as [->|Hg].
        -- destruct (newer first first) eqn:Hn; [|reflexivity].
           unfold newer in *. pose proof (After_asym _ _ Hn). congruence.
        -- apply StronglySorted_inv in Hsorted as [_ Hall].
           rewrite Forall_forall in Hall. now apply Hall.
Qed.
End Listing.

Lemma getServiceBackupInfo_latest_witness :
  exists answer,
    (effects.run mock.handle
       (cli.getServiceBackupInfo sort.Slice (Some storage.Synology) "test") scenario.both).1.2
      = [effects.Ev (effects.List_ storage.Synology ("test" +:+ "-")) answer] /\
    match answer with
    | Ok backups =>
      exists info,
        (effects.run mock.handle
           (cli.getServiceBackupInfo sort.Slice (Some storage.Synology) "test")
           scenario.both).1.1 = Ok info /\
        cli.count info = Z.of_nat (length backups) /\
        match cli.latest info with
        | None => backups = []
        | Some f => f ∈ backups /\ forall g, g ∈ backups -> backup.newer g f = false
        end
    | Err err =>
        (effects.run mock.handle
           (cli.getServiceBackupInfo sort.Slice (Some storage.Synology) "test")
           scenario.both).1.1 = Err err
    | Panic msg =>
        (effects.run mock.handle
           (cli.getServiceBackupInfo sort.Slice (Some storage.Synology) "test")
           scenario.both).1.1 = Panic msg
    end.
Proof.
  pose proof (getServiceBackupInfo_latest mock.handle sort.Slice (Some storage.Synology) "test"
                scenario.both Slice_meets_contract) as H.
  destruct (effects.run mock.handle _ scenario.both) as [[result trace] w'].
  exact H.
Defined.


(** * The times of the listings *)
Section Stamps.
Import time listing.
Local Open Scope Z_scope.

Ltac zdiv := Z.div_mod_to_equations; lia.

Lemma digit_code a : 0 <= a <= 9 -> Z.of_N (N_of_ascii (digit a)) = 48 + a.
Proof.
  intros Ha. unfold digit. rewrite N_ascii_embedding by lia. lia.
Qed.

Lemma isDigit_0 a r : 0 <= a <= 9 -> isDigit (String (digit a) r) 0 = true.
Proof.
  intros Ha. unfold isDigit. cbn [String.get]. rewrite digit_code by assumption.
  apply andb_true_intro. split; apply Z.leb_le; lia.
Qed.

Lemma digitVal_0 a r : 0 <= a <= 9 -> digitVal (String (digit a) r) 0 = a.
Proof.
  intros Ha. unfold digitVal. cbn [String.get]. rewrite digit_code by assumption. lia.
Qed.

Lemma isDigit_S c r i : isDigit (String c r) (S i) = isDigit r i.
Proof. reflexivity. Qed.
Lemma digitVal_S c r i : digitVal (String c r) (S i) = digitVal r i.
Proof. reflexivity. Qed.

Lemma digit_not_space a : 0 <= a <= 9 -> Ascii.eqb (digit a) " " = false.
Proof.
  intros Ha. apply Ascii.eqb_neq. intros E. apply (f_equal N_of_ascii) in E.
  apply (f_equal Z.of_N) in E. rewrite digit_code in E by assumption. cbn in E. lia.
Qed.

Lemma getnum_pad2 x rest fixed :
  0 <= x < 100 -> getnum (pad2 x +:+ rest) fixed = Ok (x, rest).
Proof.
  intros Hx. unfold pad2. rewrite !string_app_cons.
  assert (Ha : 0 <= x / 10 <= 9) by zdiv.
  assert (Hb : 0 <= x mod 10 <= 9) by zdiv.
  unfold getnum.
  rewrite isDigit_0, isDigit_S, isDigit_0, digitVal_0, digitVal_S, digitVal_0 by assumption.
  cbn [negb fmt.string_skipn]. change ("" +:+ rest) with rest.
  do 2 f_equal. zdiv.
Qed.

Lemma longYear_pad4 x rest :
  0 <= x <= 9999 -> longYear (pad4 x +:+ rest) = Ok (x, rest).
Proof.
  intros Hx. unfold pad4, pad2. rewrite !string_app_cons.
  assert (Ha : 0 <= x / 1000 <= 9) by zdiv.
  assert (Hb : 0 <= x / 100 mod 10 <= 9) by zdiv.
  assert (Hc : 0 <= x mod 100 / 10 <= 9) by zdiv.
  assert (Hd : 0 <= x mod 100 mod 10 <= 9) by zdiv.
  unfold longYear. cbn [String.length Nat.ltb Nat.leb].
  repeat first [rewrite isDigit_0 by assumption | rewrite isDigit_S].
  repeat first [rewrite digitVal_0 by assumption | rewrite digitVal_S].
  cbn [andb fmt.string_skipn]. change ("" +:+ rest) with rest.
  do 2 f_equal. zdiv.
Qed.

Lemma cutspace_pad2 x rest :
  0 <= x < 100 -> cutspace (String " " (pad2 x +:+ rest)) = pad2 x +:+ rest.
Proof.
  intros Hx. unfold pad2. rewrite !string_app_cons. cbn [cutspace].
  change (Ascii.eqb " " " ") with true. cbv iota.
  rewrite digit_not_space by zdiv. reflexivity.
Qed.

Lemma out_of_range_false lo hi x : lo <= x <= hi -> (x <? lo) || (hi <? x) = false.
Proof.
  intros Hx. apply orb_false_intro; apply Z.ltb_ge; lia.
Qed.

Lemma skip_literal c rest :
  Ascii.eqb c " " = false -> skip 1 (String c rest) (String c "") = Ok rest.
Proof.
  intros Hc. cbn [skip]. rewrite Hc, Ascii.eqb_refl. reflexivity.
Qed.

Lemma skip_space x rest :
  0 <= x < 100 -> skip 1 (String " " (pad2 x +:+ rest)) " " = Ok (pad2 x +:+ rest).
Proof.
  intros Hx. change (skip 1 (String " " (pad2 x +:+ rest)) " ")
    with (@Ok string (cutspace (String " " (pad2 x +:+ rest)))).
  now rewrite cutspace_pad2.
Qed.

Lemma at_or_above_false lo hi x : lo <= x < hi -> (x <? lo) || (hi <=? x) = false.
Proof.
  intros Hx. apply orb_false_intro; [apply Z.ltb_ge|apply Z.leb_gt]; lia.
Qed.

Lemma Format_eq year month day hour min sec :
  Format year month day hour min sec
  = pad4 year +:+ String "-" (pad2 month +:+ String "-" (pad2 day +:+ String " "
     (pad2 hour +:+ String ":" (pad2 min +:+ String ":" (pad2 sec +:+ " UTC"))))).
Proof. reflexivity. Qed.

(** A time in the format of the listings parses to the instant it
    denotes. *)
Lemma Parse_Format year month day hour min sec :
  valid year month day hour min sec ->
  Parse_listing (Format year month day hour min sec)
  = Ok (Date year month day hour min sec 0).
Proof.
  intros (Hy & Hmo & Hd & Hh & Hmi & Hs).
  assert (Hdd : 0 <= day < 100).
  { unfold daysIn in Hd.
    destruct (month =? 2); [destruct (isLeap year)|destruct (_ || _)]; lia. }
  rewrite Format_eq. unfold Parse_listing.
  rewrite longYear_pad4 by assumption. cbn [mbind outcome_bind].
  rewrite skip_literal by reflexivity. cbn [mbind outcome_bind].
  rewrite getnum_pad2 by lia. cbn [mbind outcome_bind].
  replace ((month <=? 0) || (12 <? month)) with false
    by (symmetry; apply orb_false_intro; [apply Z.leb_gt|apply Z.ltb_ge]; lia).
  cbv iota.
  rewrite skip_literal by reflexivity. cbn [mbind outcome_bind].
  rewrite getnum_pad2 by lia. cbn [mbind outcome_bind].
  rewrite skip_space by lia. cbn [mbind outcome_bind].
  rewrite getnum_pad2 by lia. cbn [mbind outcome_bind].
  rewrite (at_or_above_false 0 24) by lia. cbv iota.
  rewrite skip_literal by reflexivity. cbn [mbind outcome_bind].
  rewrite getnum_pad2 by lia. cbn [mbind outcome_bind].
  rewrite (at_or_above_false 0 60) by lia. cbv iota.
  rewrite skip_literal by reflexivity. cbn [mbind outcome_bind].
  rewrite getnum_pad2 by lia. cbn [mbind outcome_bind].
  rewrite (at_or_above_false 0 60) by lia. cbv iota.
  change (String.length " UTC") with 4%nat.
  change (commaOrPeriod " UTC") with false.
  rewrite andb_false_r. cbn [andb]. cbv iota beta.
  change (skip 4 " UTC" " UTC") with (@Ok string "").
  cbn [mbind outcome_bind]. change (negb (String.eqb "" "")) with false. cbv iota.
  rewrite out_of_range_false by lia. reflexivity.
Qed.
Lemma isLeap_cases y :
  (isLeap y = true /\ y mod 4 = 0 /\ (y mod 100 <> 0 \/ y mod 400 = 0)) \/
  (isLeap y = false /\ (y mod 4 <> 0 \/ (y mod 100 = 0 /\ y mod 400 <> 0))).
Proof.
  unfold isLeap.
  destruct (Z.eqb_spec (y mod 4) 0), (Z.eqb_spec (y mod 100) 0),
    (Z.eqb_spec (y mod 400) 0); cbn; intuition lia.
Qed.

Lemma month_cases mo : 1 <= mo <= 12 ->
  mo = 1 \/ mo = 2 \/ mo = 3 \/ mo = 4 \/ mo = 5 \/ mo = 6 \/ mo = 7 \/ mo = 8 \/
  mo = 9 \/ mo = 10 \/ mo = 11 \/ mo = 12.
Proof. lia. Qed.

(** The day of the year, counted from the first of January. *)
Lemma day_of_year y mo d :
  1 <= mo <= 12 ->
  daysSinceYear1 y mo d - daysSinceYear1 y 1 1
  = (if mo <=? 2 then 31 * (mo - 1)
     else (153 * (mo - 3) + 2) / 5 + 59 + (if isLeap y then 1 else 0)) + d - 1.
Proof.
  intros Hmo. unfold daysSinceYear1.
  destruct (Z.leb_spec mo 2) as [Hle|Hgt].
  - replace (2 <? mo) with false by (symmetry; apply Z.ltb_ge; lia).
    change (1 <=? 2) with true. change (2 <? 1) with false. cbv iota zeta.
    assert (mo = 1 \/ mo = 2) as [-> | ->] by lia; zdiv.
  - replace (2 <? mo) with true by (symmetry; apply Z.ltb_lt; lia).
    change (1 <=? 2) with true. change (2 <? 1) with false. cbv iota zeta.
    change ((153 * (1 + 9) + 2) / 5) with 306.
    generalize ((153 * (mo - 3) + 2) / 5). intros k.
    destruct (isLeap_cases y) as [(-> & H4 & H100)|(-> & H)]; zdiv.
Qed.

Lemma next_year y y' :
  y < y' ->
  daysSinceYear1 y 1 1 + 365 + (if isLeap y then 1 else 0) <= daysSinceYear1 y' 1 1.
Proof.
  intros Hlt. unfold daysSinceYear1.
  change (1 <=? 2) with true. change (2 <? 1) with false. cbv iota zeta.
  change ((153 * (1 + 9) + 2) / 5) with 306.
  destruct (isLeap_cases y) as [(-> & H4 & H100)|(-> & H)]; zdiv.
Qed.

Lemma days_lt y mo d y' mo' d' :
  1 <= mo <= 12 -> 1 <= d <= daysIn mo y ->
  1 <= mo' <= 12 -> 1 <= d' <= daysIn mo' y' ->
  y < y' \/ (y = y' /\ (mo < mo' \/ (mo = mo' /\ d < d'))) ->
  daysSinceYear1 y mo d < daysSinceYear1 y' mo' d'.
Proof.
  intros Hmo Hd Hmo' Hd' Hlt.
  pose proof (day_of_year y mo d Hmo) as E.
  pose proof (day_of_year y' mo' d' Hmo') as E'.
  assert (Hoff : forall yy m dd, 1 <= m <= 12 -> 1 <= dd <= daysIn m yy ->
    0 <= (if m <=? 2 then 31 * (m - 1)
          else (153 * (m - 3) + 2) / 5 + 59 + (if isLeap yy then 1 else 0)) + dd - 1
      < (if m + 1 <=? 2 then 31 * (m + 1 - 1)
          else (153 * (m + 1 - 3) + 2) / 5 + 59 + (if isLeap yy then 1 else 0))).
  { intros yy m dd Hm Hdd. unfold daysIn in Hdd.
    destruct (month_cases m Hm) as [->|[->|[->|[->|[->|[->|[->|[->|[->|[->|[->| ->]]]]]]]]]]];
      cbn in Hdd; destruct (isLeap yy);
      match goal with |- context [?a <=? ?b] => destruct (Z.leb_spec a b) end;
      match goal with |- context [?a <=? ?b] => destruct (Z.leb_spec a b) end; zdiv. }
  assert (Hmono : forall yy m m', 1 <= m -> m <= m' -> m' <= 13 ->
    (if m <=? 2 then 31 * (m - 1)
     else (153 * (m - 3) + 2) / 5 + 59 + (if isLeap yy then 1 else 0))
    <= (if m' <=? 2 then 31 * (m' - 1)
        else (153 * (m' - 3) + 2) / 5 + 59 + (if isLeap yy then 1 else 0))).
  { intros yy m m' H1 H2 H3.
    destruct (Z.leb_spec m 2), (Z.leb_spec m' 2); destruct (isLeap yy); zdiv. }
  pose proof (Hoff y mo d Hmo Hd) as B. pose proof (Hoff y' mo' d' Hmo' Hd') as B'.
  destruct Hlt as [Hy|[<- [Hm|[<- Hdlt]]]].
  - pose proof (next_year y y' Hy) as N.
    pose proof (Hmono y (mo + 1) 13 ltac:(lia) ltac:(lia) ltac:(lia)) as M.
    change (13 <=? 2) with false in M. cbv iota in M.
    change ((153 * (13 - 3) + 2) / 5) with 306 in M. lia.
  - pose proof (Hmono y (mo + 1) mo' ltac:(lia) ltac:(lia) ltac:(lia)) as M. lia.
  - lia.
Qed.

Lemma Date_After y mo d h mi s y' mo' d' h' mi' s' :
  valid y mo d h mi s -> valid y' mo' d' h' mi' s' ->
  After (Date y mo d h mi s 0) (Date y' mo' d' h' mi' s' 0) = true
  <-> later (y, mo, d, h, mi, s) (y', mo', d', h', mi', s').
Proof.
  intros (Hy & Hmo & Hd & Hh & Hmi & Hs) (Hy' & Hmo' & Hd' & Hh' & Hmi' & Hs').
  unfold After, Date, later. cbn [time.sec time.nsec].
  change (0 <? 0) with false. rewrite andb_false_r, orb_false_r, Z.ltb_lt.
  pose proof (days_lt y mo d y' mo' d' Hmo Hd Hmo' Hd') as L.
  pose proof (days_lt y' mo' d' y mo d Hmo' Hd' Hmo Hd) as L'.
  split.
  - intros Hlt.
    destruct (Z.lt_trichotomy y y') as [Hc|[Hc|Hc]]; [lia| |lia].
    destruct (Z.lt_trichotomy mo mo') as [Hm|[Hm|Hm]]; [lia| |lia].
    destruct (Z.lt_trichotomy d d') as [Hdd|[Hdd|Hdd]]; [lia| |lia].
    subst. lia.
  - intros [Hc|[<- [Hm|[<- [Hdd|[<- Hc]]]]]]; lia.
Qed.

(** The time of a listing entry, as the storage writes it, is read back as
    the instant it denotes. *)
Theorem parseBackupTime_Format year month day hour min sec :
  valid year month day hour min sec ->
  backup.parseBackupTime (Format year month day hour min sec)
  = Date year month day hour min sec 0.
Proof.
  intros Hv. unfold backup.parseBackupTime. now rewrite Parse_Format.
Qed.

Lemma parseBackupTime_Format_witness :
  backup.parseBackupTime "2024-02-29 23:59:07 UTC" = Date 2024 2 29 23 59 7 0.
Proof.
  apply (parseBackupTime_Format 2024 2 29 23 59 7).
  unfold valid. repeat split; vm_compute; congruence.
Defined.

(** Backups whose listed times are well formed are ordered by the calendar:
    one sorts before another exactly when its date and clock are later. *)
Theorem newer_is_calendar_order (a b : storage.BackupFile)
    y mo d h mi s y' mo' d' h' mi' s' :
  valid y mo d h mi s -> valid y' mo' d' h' mi' s' ->
  storage.ModTime a = Format y mo d h mi s ->
  storage.ModTime b = Format y' mo' d' h' mi' s' ->
  backup.newer a b = true <-> later (y, mo, d, h, mi, s) (y', mo', d', h', mi', s').
Proof.
  intros Hv Hv' Ea Eb. unfold backup.newer, backup.parseBackupTime.
  rewrite Ea, Eb, !Parse_Format by assumption. now apply Date_After.
Qed.

Lemma newer_is_calendar_order_witness :
  backup.newer
    {| storage.Name := "web-1.tar.gz.enc"; storage.Size := 1;
       storage.ModTime := "2024-03-01 00:00:00 UTC" |}
    {| storage.Name := "web-0.tar.gz.enc"; storage.Size := 1;
       storage.ModTime := "2024-02-29 23:59:59 UTC" |} = true
  <-> later (2024, 3, 1, 0, 0, 0) (2024, 2, 29, 23, 59, 59).
Proof.
  apply (newer_is_calendar_order _ _ 2024 3 1 0 0 0 2024 2 29 23 59 59).
  - unfold valid. repeat split; vm_compute; congruence.
  - unfold valid. repeat split; vm_compute; congruence.
  - reflexivity.
  - reflexivity.
Defined.

Lemma compare_digit a b :
  0 <= a <= 9 -> 0 <= b <= 9 -> Ascii.compare (digit a) (digit b) = (a ?= b).
Proof.
  intros Ha Hb. unfold Ascii.compare.
  rewrite <- N2Z.inj_compare, !digit_code by assumption.
  apply Z.add_compare_mono_l.
Qed.

Lemma compare_pad2 x x' r r' :
  0 <= x < 100 -> 0 <= x' < 100 ->
  String.compare (pad2 x +:+ r) (pad2 x' +:+ r')
  = match x ?= x' with Eq => String.compare r r' | c => c end.
Proof.
  intros Hx Hx'. unfold pad2. rewrite !string_app_cons. cbn [String.compare].
  change ("" +:+ r) with r. change ("" +:+ r') with r'.
  rewrite !compare_digit by zdiv.
  destruct (Z.compare_spec (x / 10) (x' / 10)), (Z.compare_spec (x mod 10) (x' mod 10)),
    (Z.compare_spec x x'); try reflexivity; exfalso; zdiv.
Qed.

Lemma compare_pad4 x x' r r' :
  0 <= x <= 9999 -> 0 <= x' <= 9999 ->
  String.compare (pad4 x +:+ r) (pad4 x' +:+ r')
  = match x ?= x' with Eq => String.compare r r' | c => c end.
Proof.
  intros Hx Hx'. unfold pad4. rewrite !string_app_cons. cbn [String.compare].
  rewrite !compare_digit, !compare_pad2 by zdiv.
  destruct (Z.compare_spec (x / 1000) (x' / 1000)),
    (Z.compare_spec (x / 100 mod 10) (x' / 100 mod 10)),
    (Z.compare_spec (x mod 100) (x' mod 100)),
    (Z.compare_spec x x'); try reflexivity; exfalso; zdiv.
Qed.

Lemma compare_literal c r r' :
  String.compare (String c r) (String c r') = String.compare r r'.
Proof.
  cbn [String.compare]. unfold Ascii.compare. now rewrite N.compare_refl.
Qed.

Lemma Format_ltb y mo d h mi s y' mo' d' h' mi' s' :
  valid y mo d h mi s -> valid y' mo' d' h' mi' s' ->
  String.ltb (Format y' mo' d' h' mi' s') (Format y mo d h mi s) = true
  <-> later (y, mo, d, h, mi, s) (y', mo', d', h', mi', s').
Proof.
  intros (Hy & Hmo & Hd & Hh & Hmi & Hs) (Hy' & Hmo' & Hd' & Hh' & Hmi' & Hs').
  assert (Hdd : 0 <= d < 100).
  { unfold daysIn in Hd.
    destruct (mo =? 2); [destruct (isLeap y)|destruct (_ || _)]; lia. }
  assert (Hdd' : 0 <= d' < 100).
  { unfold daysIn in Hd'.
    destruct (mo' =? 2); [destruct (isLeap y')|destruct (_ || _)]; lia. }
  unfold String.ltb. rewrite !Format_eq.
  rewrite compare_pad4, compare_literal, compare_pad2, compare_literal, compare_pad2,
    compare_literal, compare_pad2, compare_literal, compare_pad2, compare_literal,
    compare_pad2 by lia.
  change (String.compare " UTC" " UTC") with Eq. unfold later.
  destruct (Z.compare_spec y' y), (Z.compare_spec mo' mo), (Z.compare_spec d' d),
    (Z.compare_spec h' h), (Z.compare_spec mi' mi), (Z.compare_spec s' s);
    split; intros Hl; try lia; try reflexivity; try discriminate Hl.
Qed.

(** For listings whose times are well formed, the [list] command that
    compares the times as strings shows the backups in the order in which
    the manager, comparing the parsed times, keeps them. *)
Theorem listed_before_newer (a b : storage.BackupFile)
    y mo d h mi s y' mo' d' h' mi' s' :
  valid y mo d h mi s -> valid y' mo' d' h' mi' s' ->
  storage.ModTime a = Format y mo d h mi s ->
  storage.ModTime b = Format y' mo' d' h' mi' s' ->
  cmd.listed_before a b = backup.newer a b.
Proof.
  intros Hv Hv' Ea Eb.
  pose proof (Format_ltb _ _ _ _ _ _ _ _ _ _ _ _ Hv Hv') as L.
  pose proof (Date_After _ _ _ _ _ _ _ _ _ _ _ _ Hv Hv') as D.
  unfold cmd.listed_before, backup.newer, backup.parseBackupTime.
  rewrite Ea, Eb, !Parse_Format by assumption.
  destruct (String.ltb _ _), (After _ _); intuition congruence.
Qed.

Lemma listed_before_newer_witness :
  cmd.listed_before
    {| storage.Name := "db-b.tar.gz.enc"; storage.Size := 7;
       storage.ModTime := "2025-01-01 00:00:00 UTC" |}
    {| storage.Name := "db-a.tar.gz.enc"; storage.Size := 7;
       storage.ModTime := "2024-12-31 23:59:59 UTC" |}
  = backup.newer
    {| storage.Name := "db-b.tar.gz.enc"; storage.Size := 7;
       storage.ModTime := "2025-01-01 00:00:00 UTC" |}
    {| storage.Name := "db-a.tar.gz.enc"; storage.Size := 7;
       storage.ModTime := "2024-12-31 23:59:59 UTC" |}.
Proof.
  apply (listed_before_newer _ _ 2025 1 1 0 0 0 2024 12 31 23 59 59).
  - unfold valid. repeat split; vm_compute; congruence.
  - unfold valid. repeat split; vm_compute; congruence.
  - reflexivity.
  - reflexivity.
Defined.
End Stamps.

